(** * horse-stakes-collector: scheduling and odds-collection engine

    A shallow embedding of [DailyOddsCollector] (both revisions found in the
    repository: the earlier "daily" one and the later "supervisor" one, which
    adds the collecting semaphore and the browser error counter) and of the
    store update methods of [OddsCollector], followed by the properties the
    specification states about them and by properties of the code around
    them: retries and restarts, the discovery and registration of races, the
    sweep over the races, race ids, the win/place page and the batches
    handed to the store.

    Conventions.
    - A JavaScript [Date] is its time value: milliseconds since the epoch, in
      [Z].  The local zone of the process is a fixed offset [tz] (milliseconds
      east of UTC) that the local-time accessors of [Date] take as a
      parameter.
    - Database tables are lists of rows in insertion order, the race table
      is a finite map keyed by race id.  A statement on a table filled from
      quotes takes effect as a whole or, when the table does not accept its
      values, not at all; statements on the race table succeed.
    - The outside world (the scraped site, faults of the odds tables) is an
      oracle indexed by the number of requests made so far. *)

From Stdlib Require Import QArith Qcanon Ascii.
From stdpp Require Import gmap strings list fin_maps pretty sorting.

Local Open Scope Z_scope.

(** ** Time *)

Module Clock.

Definition MINUTE : Z := 60 * 1000.
Definition HOUR : Z := 60 * 60 * 1000.
Definition DAY : Z := 24 * HOUR.

(** [const JST_OFFSET = 9 * 60 * 60 * 1000] *)
Definition JST_OFFSET : Z := 9 * 60 * 60 * 1000.

(** [d.setDate(d.getDate() - 1)]: the same local wall-clock time on the
    previous local calendar day; with a fixed zone offset that is one day
    earlier. *)
Definition setDatePrev (tz t : Z) : Z := t - DAY.

(** [d.setHours(h, 0, 0, 0)]: local midnight of the local day of [t], plus
    [h] hours. *)
Definition setHours (tz h t : Z) : Z := (t + tz) / DAY * DAY + h * HOUR - tz.

(** [d.getMinutes()]: minute of the hour, local time. *)
Definition getMinutes (tz t : Z) : Z := ((t + tz) / MINUTE) mod 60.

(** The JST calendar day (days since the epoch) an instant falls on. *)
Definition jstDay (t : Z) : Z := (t + JST_OFFSET) / DAY.

(** The instant at which JST wall clocks show [h]:00 on JST day [d]. *)
Definition jstInstant (d h : Z) : Z := d * DAY + h * HOUR - JST_OFFSET.

End Clock.
Import Clock.

(** ** Races and scheduled jobs *)

Inductive Variant := Daily | Supervisor.

(** [interface RaceInfo] *)
Record RaceInfo := mkRaceInfo {
  ri_id : Z;
  ri_name : string;
  ri_venue : string;
  ri_startTime : Z;
  ri_isGrade : bool
}.

(** A row of the [races] table ([status] is a free [text] column). *)
Record Race := mkRace {
  race_name : string;
  race_venue : string;
  race_startTime : Z;
  race_status : string
}.

Definition setStatus (st : string) (r : Race) : Race :=
  mkRace (race_name r) (race_venue r) (race_startTime r) st.

(** ** Cadence policy of a timer firing *)

Definition FINAL_ODDS_WINDOW : Z := 5 * 60 * 1000.

(** The block that computes [shouldCollect] inside the job callback of
    [scheduleOddsCollection]; it is the same text in both revisions. *)
Definition shouldCollect (isGrade : bool) (timeToRace minutes : Z) : bool :=
  let shouldCollect := false in
  let shouldCollect :=
    if isGrade then
      if timeToRace <=? 30 * 60 * 1000 then true
      else if timeToRace <=? 3 * 60 * 60 * 1000 then minutes mod 10 =? 0
      else if timeToRace <=? 12 * 60 * 60 * 1000 then minutes mod 30 =? 0
      else minutes =? 0
    else
      if timeToRace <=? 30 * 60 * 1000 then minutes mod 10 =? 0
      else minutes mod 30 =? 0 in
  let shouldCollect := if timeToRace <=? 0 then true else shouldCollect in
  shouldCollect.

(** ** The collection-start gate of a grade race *)

(** Supervisor revision: shift to JST, step back one day and set 09:00 with
    the local-time setters, shift back. *)
Definition collectionStartTimeUTC (tz raceStartTimeUTC : Z) : Z :=
  let raceStartTimeJST := raceStartTimeUTC + JST_OFFSET in
  let collectionStartTimeJST := setHours tz 9 (setDatePrev tz raceStartTimeJST) in
  collectionStartTimeJST - JST_OFFSET.

(** Daily revision: previous local day, 19:00 local, minus the JST offset. *)
Definition collectionStartTime (tz raceStartTimeJST : Z) : Z :=
  let collectionStartTimeJST := setHours tz 19 (setDatePrev tz raceStartTimeJST) in
  collectionStartTimeJST - JST_OFFSET.

(** [let collectionStartTime: Date | null = null; if (race.isGrade) {...}] *)
Definition gateOf (v : Variant) (tz : Z) (race : RaceInfo) : option Z :=
  if ri_isGrade race then
    Some (match v with
          | Supervisor => collectionStartTimeUTC tz (ri_startTime race)
          | Daily => collectionStartTime tz (ri_startTime race)
          end)
  else None.

(** The gate as the specification words it: 09:00 JST on the JST calendar
    day before the day of the race start. *)
Definition gate_0900_JST_day_before (start : Z) : Z :=
  jstInstant (jstDay start - 1) 9.

(** ** JavaScript values

    Numbers are canonical rationals or [NaN]; an object read through an
    untyped ([any]) reference is a finite map from property names to values,
    and reading a property that is absent gives [undefined]. *)

Inductive JsNumber := NaN | Num (q : Qc).

Inductive JsVal :=
| JUndefined
| JNumber (n : JsNumber)
| JStr (s : string)
| JDate (t : Z).

Global Instance JsNumber_eq_dec : EqDecision JsNumber.
Proof. solve_decision. Defined.

Global Instance JsVal_eq_dec : EqDecision JsVal.
Proof. solve_decision. Defined.

Global Instance JsNumber_countable : Countable JsNumber.
Proof.
  refine (inj_countable'
            (λ n, match n with NaN => None | Num q => Some q end)
            (λ o, match o with None => NaN | Some q => Num q end) _).
  by intros [].
Defined.

Global Instance JsVal_countable : Countable JsVal.
Proof.
  refine (inj_countable'
            (λ v, match v with
                  | JUndefined => inl ()
                  | JNumber n => inr (inl n)
                  | JStr s => inr (inr (inl s))
                  | JDate t => inr (inr (inr t))
                  end)
            (λ x, match x with
                  | inl _ => JUndefined
                  | inr (inl n) => JNumber n
                  | inr (inr (inl s)) => JStr s
                  | inr (inr (inr t)) => JDate t
                  end) _).
  by intros [].
Defined.

(** an integer as a number *)
Definition num (z : Z) : JsNumber := Num (Q2Qc (inject_Z z)).
Definition JInt (z : Z) : JsVal := JNumber (num z).

(** [o.k] *)
Definition prop (o : gmap string JsVal) (k : string) : JsVal :=
  default JUndefined (o !! k).

(** [a === b] on the values above. *)
Definition strictEq (a b : JsVal) : bool :=
  match a, b with
  | JNumber NaN, _ | _, JNumber NaN => false
  | _, _ => bool_decide (a = b)
  end.

(** [error.name], [error.message] of a thrown value. *)
Record JsError := mkJsError { err_name : string; err_message : string }.

Definition TimeoutError : JsError :=
  mkJsError "TimeoutError" "page.waitForSelector: Timeout 30000ms exceeded".
Definition TypeError : JsError := mkJsError "TypeError" "Cannot read properties of undefined".

(** [error.name === 'TimeoutError'] *)
Definition isTimeoutError (e : JsError) : bool := bool_decide (err_name e = "TimeoutError").

(** ** Bet types *)

Inductive BetType := tanpuku | wakuren | umaren | wide | umatan | fuku3 | tan3.

Global Instance BetType_eq_dec : EqDecision BetType.
Proof. solve_decision. Defined.

(** [['tanpuku', 'wakuren', 'umaren', 'wide', 'umatan', 'fuku3', 'tan3'] as const] *)
Definition betTypes : list BetType := [tanpuku; wakuren; umaren; wide; umatan; fuku3; tan3].

(** [BATCH_SIZES] of [odds-collector.ts] *)
Definition BATCH_SIZES (betType : BetType) : nat :=
  match betType with
  | tanpuku => 20
  | wakuren => 40
  | umaren => 200
  | wide => 200
  | umatan => 400
  | fuku3 => 1000
  | tan3 => 1000
  end.

(** ** Retried database operations *)

(** [MAX_RETRIES] and [RETRY_DELAY] of the collector; the retry loop of
    [collectOdds] reads the same two fields. *)
Definition MAX_RETRIES : Z := 3.
Definition RETRY_DELAY : Z := 5000.

Section WithDbRetry.
Context {Db T : Type}.

(** The loop [for (let i = 0; i < this.MAX_RETRIES; i++)] of [withDbRetry],
    entered with the counter at [i] and [rounds] rounds to go.  An operation
    reads and writes the database and returns or throws; [slept] adds up the
    delays waited so far. *)
Fixpoint withDbRetryFrom (rounds : nat) (i : Z) (operation : Db → (T + JsError) * Db)
    (db : Db) (slept : Z) : (T + JsError) * Db * Z :=
  match rounds with
  | O => (inr (mkJsError "Error" "Max retries exceeded"), db, slept)
  | S rounds =>
      match operation db with
      | (inl value, db) => (inl value, db, slept)
      | (inr error, db) =>
          if bool_decide (i = MAX_RETRIES - 1) then (inr error, db, slept)
          else withDbRetryFrom rounds (i + 1) operation db (slept + RETRY_DELAY)
      end
  end.

(** [withDbRetry(operation)] *)
Definition withDbRetry (operation : Db → (T + JsError) * Db) (db : Db)
    : (T + JsError) * Db * Z :=
  withDbRetryFrom (Z.to_nat MAX_RETRIES) 0 operation db 0.

(** the database after [k] calls of the operation in a row that all threw *)
Fixpoint afterFailures (k : nat) (operation : Db → (T + JsError) * Db) (db : Db)
    : option Db :=
  match k with
  | O => Some db
  | S k =>
      match operation db with
      | (inr _, db) => afterFailures k operation db
      | (inl _, _) => None
      end
  end.

End WithDbRetry.

(** A run of statements, given as the database it leaves and what it throws,
    as an operation for [withDbRetry]; and what [await withDbRetry(...)]
    leaves and throws. *)
Definition asOperation {Db : Type} (run : Db → Db * option JsError) (db : Db)
    : (unit + JsError) * Db :=
  match run db with
  | (db, None) => (inl (), db)
  | (db, Some error) => (inr error, db)
  end.

Definition thrownBy {Db T : Type} (r : (T + JsError) * Db * Z) : Db * option JsError :=
  match r with
  | (inl _, db, _) => (db, None)
  | (inr error, db, _) => (db, Some error)
  end.

(** the result of a call that returned *)
Definition returned {R : Type} (r : R * option JsError) : option R :=
  match r with
  | (value, None) => Some value
  | (_, Some _) => None
  end.

(** ** What the store accepts ([schema.ts])

    Every column the code writes is [NOT NULL] and typed: an [integer]
    column holds the 32-bit integers, a [bigint] column the 64-bit integers,
    a [text] column the strings without a zero byte, a [numeric] column
    every number ([NaN] included), and a [timestamp] column is taken to hold
    the dates of the years 1 to 9999, which [toISOString] writes with a
    four-digit year.  A statement that carries a value its column does not
    hold, or an [INSERT] that leaves a column without a value, is rejected as
    a whole by the server, and the call that issued it throws.

    A value of another JavaScript type than its column (a string that spells
    a number, a number given as a name) is counted as rejected too, although
    the server reads some such texts: the parsers build no such value. *)

Definition int4 (z : Z) : bool := (-2147483648 <=? z) && (z <=? 2147483647).
Definition int8 (z : Z) : bool :=
  (-9223372036854775808 <=? z) && (z <=? 9223372036854775807).

(** 0001-01-01 to 9999-12-31, in milliseconds since the epoch *)
Definition timestampOk (t : Z) : bool :=
  (-62135596800000 <=? t) && (t <? 253402300800000).

Definition textOk (s : string) : bool :=
  bool_decide (Ascii.zero ∉ String.list_ascii_of_string s).

(** the integer a number is, if it is one *)
Definition integerOf (n : JsNumber) : option Z :=
  match n with
  | NaN => None
  | Num q => if bool_decide (Qden (this q) = 1%positive) then Some (Qnum (this q)) else None
  end.

Definition fitsInteger (v : JsVal) : bool :=
  match v with
  | JNumber n => match integerOf n with Some z => int4 z | None => false end
  | _ => false
  end.

Definition fitsBigint (v : JsVal) : bool :=
  match v with
  | JNumber n => match integerOf n with Some z => int8 z | None => false end
  | _ => false
  end.

Definition fitsNumeric (v : JsVal) : bool :=
  match v with JNumber _ => true | _ => false end.

Definition fitsTimestamp (v : JsVal) : bool :=
  match v with JDate t => timestampOk t | _ => false end.

Definition fitsText (v : JsVal) : bool :=
  match v with JStr s => textOk s | _ => false end.

(** what the driver throws for a rejected statement *)
Definition StoreError : JsError := mkJsError "error" "the statement was rejected".

(** ** Odds quotes and the odds tables ([schema.ts], [odds-collector.ts]) *)

(** [WakurenOddsData] (frame1, frame2), [UmarenOddsData] and
    [UmatanOddsData] (horse1, horse2) have one shape. *)
Record PairOddsData := mkPairOddsData {
  pd_first : Z;
  pd_second : Z;
  pd_odds : JsNumber;
  pd_timestamp : Z;
  pd_raceId : Z
}.

(** [WideOddsData] *)
Record WideOddsData := mkWideOddsData {
  wd_horse1 : Z;
  wd_horse2 : Z;
  wd_oddsMin : JsNumber;
  wd_oddsMax : JsNumber;
  wd_timestamp : Z;
  wd_raceId : Z
}.

(** [Fuku3OddsData], [Tan3OddsData] *)
Record TripleOddsData := mkTripleOddsData {
  td_horse1 : Z;
  td_horse2 : Z;
  td_horse3 : Z;
  td_odds : JsNumber;
  td_timestamp : Z;
  td_raceId : Z
}.

(** Rows of [wakuren_odds], [umaren_odds], [umatan_odds]. *)
Record PairRow := mkPairRow {
  pr_id : Z;
  pr_first : Z;
  pr_second : Z;
  pr_odds : JsNumber;
  pr_timestamp : Z;
  pr_raceId : Z
}.

(** Rows of [wide_odds]. *)
Record WideRow := mkWideRow {
  wr_id : Z;
  wr_horse1 : Z;
  wr_horse2 : Z;
  wr_oddsMin : JsNumber;
  wr_oddsMax : JsNumber;
  wr_timestamp : Z;
  wr_raceId : Z
}.

(** Rows of [fuku3_odds], [tan3_odds]. *)
Record TripleRow := mkTripleRow {
  tr_id : Z;
  tr_horse1 : Z;
  tr_horse2 : Z;
  tr_horse3 : Z;
  tr_odds : JsNumber;
  tr_timestamp : Z;
  tr_raceId : Z
}.

(** Rows of [horses]; the columns filled from an untyped quote hold the
    value that was read. *)
Record HorseRow := mkHorseRow {
  h_id : Z;
  h_name : JsVal;
  h_raceId : Z;
  h_frame : JsVal;
  h_number : JsVal;
  h_status : string
}.

(** Rows of [tan_odds_history]. *)
Record TanOddsRow := mkTanOddsRow {
  th_id : Z;
  th_horseId : JsVal;
  th_odds : JsVal;
  th_timestamp : JsVal;
  th_raceId : JsVal
}.

(** Rows of [fuku_odds]. *)
Record FukuRow := mkFukuRow {
  fr_id : Z;
  fr_horseId : JsVal;
  fr_oddsMin : JsVal;
  fr_oddsMax : JsVal;
  fr_timestamp : JsVal;
  fr_raceId : JsVal
}.

Record Tables := mkTables {
  horses : list HorseRow;
  tanOddsHistory : list TanOddsRow;
  fukuOdds : list FukuRow;
  wakurenOdds : list PairRow;
  umarenOdds : list PairRow;
  wideOdds : list WideRow;
  umatanOdds : list PairRow;
  fuku3Odds : list TripleRow;
  tan3Odds : list TripleRow
}.

Definition emptyTables : Tables := mkTables [] [] [] [] [] [] [] [] [].

Definition withHorses (rows : list HorseRow) (t : Tables) : Tables :=
  mkTables rows (tanOddsHistory t) (fukuOdds t) (wakurenOdds t) (umarenOdds t) (wideOdds t)
           (umatanOdds t) (fuku3Odds t) (tan3Odds t).
Definition withHistory (rows : list TanOddsRow) (t : Tables) : Tables :=
  mkTables (horses t) rows (fukuOdds t) (wakurenOdds t) (umarenOdds t) (wideOdds t)
           (umatanOdds t) (fuku3Odds t) (tan3Odds t).
Definition withFuku (rows : list FukuRow) (t : Tables) : Tables :=
  mkTables (horses t) (tanOddsHistory t) rows (wakurenOdds t) (umarenOdds t) (wideOdds t)
           (umatanOdds t) (fuku3Odds t) (tan3Odds t).
Definition withWakuren (rows : list PairRow) (t : Tables) : Tables :=
  mkTables (horses t) (tanOddsHistory t) (fukuOdds t) rows (umarenOdds t) (wideOdds t)
           (umatanOdds t) (fuku3Odds t) (tan3Odds t).
Definition withUmaren (rows : list PairRow) (t : Tables) : Tables :=
  mkTables (horses t) (tanOddsHistory t) (fukuOdds t) (wakurenOdds t) rows (wideOdds t)
           (umatanOdds t) (fuku3Odds t) (tan3Odds t).
Definition withWide (rows : list WideRow) (t : Tables) : Tables :=
  mkTables (horses t) (tanOddsHistory t) (fukuOdds t) (wakurenOdds t) (umarenOdds t) rows
           (umatanOdds t) (fuku3Odds t) (tan3Odds t).
Definition withUmatan (rows : list PairRow) (t : Tables) : Tables :=
  mkTables (horses t) (tanOddsHistory t) (fukuOdds t) (wakurenOdds t) (umarenOdds t)
           (wideOdds t) rows (fuku3Odds t) (tan3Odds t).
Definition withFuku3 (rows : list TripleRow) (t : Tables) : Tables :=
  mkTables (horses t) (tanOddsHistory t) (fukuOdds t) (wakurenOdds t) (umarenOdds t)
           (wideOdds t) (umatanOdds t) rows (tan3Odds t).
Definition withTan3 (rows : list TripleRow) (t : Tables) : Tables :=
  mkTables (horses t) (tanOddsHistory t) (fukuOdds t) (wakurenOdds t) (umarenOdds t)
           (wideOdds t) (umatanOdds t) (fuku3Odds t) rows.

(** *** The shared shape of the six [update*Odds] methods

    [findMany] the rows of the race of the first quote, index them by a key
    string, split the quotes into updates (key present) and inserts, run the
    updates by row id in slices of [BATCH_SIZE], then insert in slices of
    [BATCH_SIZE].  No transaction spans the statements: what was written
    before a statement is rejected stays. *)

Section Upsert.
Context {K Data Row : Type} `{Countable K}.
Variable BATCH_SIZE : nat.
Variable rowKey : Row → K.
Variable dataKey : Data → K.
Variable rowRace : Row → Z.
Variable dataRace : Data → Z.
Variable rowId : Row → Z.
(** the row an insert creates, given its serial id *)
Variable newRow : Z → Data → Row.
(** the [set] clause of the update applied to the stored row *)
Variable setRow : Data → Row → Row.
(** the table accepts the values of the inserted row *)
Variable insertable : Data → bool.
(** the table accepts the values the update sets *)
Variable settable : Data → bool.

(** [new Map(existingOdds.map(odds => [key, odds]))]: a later entry with the
    same key replaces an earlier one. *)
Definition existingMap (existingOdds : list Row) : gmap K Row :=
  foldl (λ m r, <[rowKey r := r]> m) ∅ existingOdds.

(** the next value of the [serial] id column; an [INSERT] that is rejected
    may use up values of the sequence, which is not followed: none of the
    properties below reads an id given after a rejected [INSERT] *)
Definition nextSerial (table : list Row) : Z :=
  1 + foldr (λ r acc, Z.max (rowId r) acc) 0 table.

(** [db.update(t).set(...).where(eq(t.id, id))] *)
Definition updateById (id : Z) (d : Data) (table : list Row) : list Row :=
  (λ r, if bool_decide (rowId r = id) then setRow d r else r) <$> table.

(** [db.insert(t).values(batch)] of values the table accepts *)
Definition insertValues (batch : list Data) (table : list Row) : list Row :=
  foldl (λ t d, t ++ [newRow (nextSerial t) d]) table batch.

(** one element of [batch.map(update => ...)]: [if (!update.id) return],
    else the update, which takes effect when its values are accepted *)
Definition applyUpdate (table : list Row) (u : Z * Data) : list Row :=
  if bool_decide (u.1 = 0) then table
  else if settable u.2 then updateById u.1 u.2 table else table.

Definition updateResolves (u : Z * Data) : bool :=
  bool_decide (u.1 = 0) || settable u.2.

(** [for (let i = 0; i < updates.length; i += BATCH_SIZE) await
    Promise.all(updates.slice(i, i + BATCH_SIZE).map(...))], with [rounds]
    rounds to go (a round uses up at least one update, [BATCH_SIZE] being
    positive).  The updates of a slice are all issued, here in the order of
    the slice; when one of them is rejected [Promise.all] rejects and the
    loop is left. *)
Fixpoint updateSlices (rounds : nat) (updates : list (Z * Data)) (table : list Row)
    : list Row * option JsError :=
  match rounds, updates with
  | O, _ | _, [] => (table, None)
  | S rounds, _ =>
      let batch := take BATCH_SIZE updates in
      let table := foldl applyUpdate table batch in
      if forallb updateResolves batch
      then updateSlices rounds (drop BATCH_SIZE updates) table
      else (table, Some StoreError)
  end.

(** [for (let i = 0; i < inserts.length; i += BATCH_SIZE) await
    db.insert(t).values(inserts.slice(i, i + BATCH_SIZE))]: a slice is
    inserted by one statement. *)
Fixpoint insertSlices (rounds : nat) (inserts : list Data) (table : list Row)
    : list Row * option JsError :=
  match rounds, inserts with
  | O, _ | _, [] => (table, None)
  | S rounds, _ =>
      let batch := take BATCH_SIZE inserts in
      if forallb insertable batch
      then insertSlices rounds (drop BATCH_SIZE inserts) (insertValues batch table)
      else (table, Some StoreError)
  end.

(** A call of the method: the table it leaves and what it throws. *)
Definition upsertRun (oddsDataArray : list Data) (table : list Row)
    : list Row * option JsError :=
  match oddsDataArray with
  | [] => (table, Some TypeError) (* [oddsDataArray[0].raceId] throws *)
  | first :: _ =>
      if negb (int8 (dataRace first)) then (table, Some StoreError) (* [findMany] *)
      else
        let existingOdds := filter (λ r, rowRace r = dataRace first) table in
        let existing := existingMap existingOdds in
        let updates :=
          omap (λ d, (λ e, (rowId e, d)) <$> existing !! dataKey d) oddsDataArray in
        let inserts :=
          filter (λ d, existing !! dataKey d = None) oddsDataArray in
        match updateSlices (length updates) updates table with
        | (table, Some error) => (table, Some error)
        | (table, None) => insertSlices (length inserts) inserts table
        end
  end.

(** The table after a call that returned. *)
Definition upsert (oddsDataArray : list Data) (table : list Row) : option (list Row) :=
  returned (upsertRun oddsDataArray table).

End Upsert.

(** [`${a}-${b}`] and [`${a}-${b}-${c}`] *)
Definition key2 (a b : Z) : string := pretty a +:+ "-" +:+ pretty b.
Definition key3 (a b c : Z) : string :=
  pretty a +:+ "-" +:+ pretty b +:+ "-" +:+ pretty c.

Definition newPairRow (id : Z) (d : PairOddsData) : PairRow :=
  mkPairRow id (pd_first d) (pd_second d) (pd_odds d) (pd_timestamp d) (pd_raceId d).

Definition setPairRow (d : PairOddsData) (r : PairRow) : PairRow :=
  mkPairRow (pr_id r) (pr_first r) (pr_second r) (pd_odds d) (pd_timestamp d) (pr_raceId r).

(** the values of a row of a pair table: two [integer]s, the odds as
    [numeric], a [timestamp], the race as [bigint] *)
Definition pairOk (d : PairOddsData) : bool :=
  int4 (pd_first d) && int4 (pd_second d) && timestampOk (pd_timestamp d)
  && int8 (pd_raceId d).

(** [updateWakurenOdds], [updateUmarenOdds], [updateUmatanOdds]: the key is
    the pair in the order given. *)
Definition updatePairOddsRun (BATCH_SIZE : nat)
    : list PairOddsData → list PairRow → list PairRow * option JsError :=
  upsertRun BATCH_SIZE
            (λ r, key2 (pr_first r) (pr_second r))
            (λ d, key2 (pd_first d) (pd_second d))
            pr_raceId pd_raceId pr_id newPairRow setPairRow
            pairOk (λ d, timestampOk (pd_timestamp d)).

Definition updateWakurenOddsRun := updatePairOddsRun (BATCH_SIZES wakuren).
Definition updateUmarenOddsRun := updatePairOddsRun (BATCH_SIZES umaren).
Definition updateUmatanOddsRun := updatePairOddsRun (BATCH_SIZES umatan).

Definition updateWakurenOdds (oddsDataArray : list PairOddsData) (table : list PairRow)
    : option (list PairRow) :=
  returned (updateWakurenOddsRun oddsDataArray table).
Definition updateUmarenOdds (oddsDataArray : list PairOddsData) (table : list PairRow)
    : option (list PairRow) :=
  returned (updateUmarenOddsRun oddsDataArray table).
Definition updateUmatanOdds (oddsDataArray : list PairOddsData) (table : list PairRow)
    : option (list PairRow) :=
  returned (updateUmatanOddsRun oddsDataArray table).

Definition wideOk (d : WideOddsData) : bool :=
  int4 (wd_horse1 d) && int4 (wd_horse2 d) && timestampOk (wd_timestamp d)
  && int8 (wd_raceId d).

(** [updateWideOdds] *)
Definition updateWideOddsRun
    : list WideOddsData → list WideRow → list WideRow * option JsError :=
  upsertRun (BATCH_SIZES wide)
            (λ r, key2 (wr_horse1 r) (wr_horse2 r))
            (λ d, key2 (wd_horse1 d) (wd_horse2 d))
            wr_raceId wd_raceId wr_id
            (λ id d, mkWideRow id (wd_horse1 d) (wd_horse2 d) (wd_oddsMin d) (wd_oddsMax d)
                               (wd_timestamp d) (wd_raceId d))
            (λ d r, mkWideRow (wr_id r) (wr_horse1 r) (wr_horse2 r) (wd_oddsMin d)
                              (wd_oddsMax d) (wd_timestamp d) (wr_raceId r))
            wideOk (λ d, timestampOk (wd_timestamp d)).

Definition updateWideOdds (oddsDataArray : list WideOddsData) (table : list WideRow)
    : option (list WideRow) :=
  returned (updateWideOddsRun oddsDataArray table).

(** [[h1, h2, h3].sort((a, b) => a - b)] *)
Definition sortHorses (h1 h2 h3 : Z) : list Z := merge_sort Z.le [h1; h2; h3].

(** [`${horses[0]}-${horses[1]}-${horses[2]}`] *)
Definition sortedKey3 (h1 h2 h3 : Z) : string :=
  let horses := sortHorses h1 h2 h3 in
  key3 (nth 0 horses 0) (nth 1 horses 0) (nth 2 horses 0).

Definition setTripleRow (d : TripleOddsData) (r : TripleRow) : TripleRow :=
  mkTripleRow (tr_id r) (tr_horse1 r) (tr_horse2 r) (tr_horse3 r)
              (td_odds d) (td_timestamp d) (tr_raceId r).

Definition tripleOk (d : TripleOddsData) : bool :=
  int4 (td_horse1 d) && int4 (td_horse2 d) && int4 (td_horse3 d)
  && timestampOk (td_timestamp d) && int8 (td_raceId d).

(** [updateFuku3Odds]: both the stored rows and the quotes are keyed by the
    sorted triple, and an insert stores the sorted triple. *)
Definition updateFuku3OddsRun
    : list TripleOddsData → list TripleRow → list TripleRow * option JsError :=
  upsertRun (BATCH_SIZES fuku3)
            (λ r, sortedKey3 (tr_horse1 r) (tr_horse2 r) (tr_horse3 r))
            (λ d, sortedKey3 (td_horse1 d) (td_horse2 d) (td_horse3 d))
            tr_raceId td_raceId tr_id
            (λ id d, let horses := sortHorses (td_horse1 d) (td_horse2 d) (td_horse3 d) in
                     mkTripleRow id (nth 0 horses 0) (nth 1 horses 0) (nth 2 horses 0)
                                 (td_odds d) (td_timestamp d) (td_raceId d))
            setTripleRow
            tripleOk (λ d, timestampOk (td_timestamp d)).

Definition updateFuku3Odds (oddsDataArray : list TripleOddsData) (table : list TripleRow)
    : option (list TripleRow) :=
  returned (updateFuku3OddsRun oddsDataArray table).

(** [updateTan3Odds]: the key is the triple in the order given. *)
Definition updateTan3OddsRun
    : list TripleOddsData → list TripleRow → list TripleRow * option JsError :=
  upsertRun (BATCH_SIZES tan3)
            (λ r, key3 (tr_horse1 r) (tr_horse2 r) (tr_horse3 r))
            (λ d, key3 (td_horse1 d) (td_horse2 d) (td_horse3 d))
            tr_raceId td_raceId tr_id
            (λ id d, mkTripleRow id (td_horse1 d) (td_horse2 d) (td_horse3 d)
                                 (td_odds d) (td_timestamp d) (td_raceId d))
            setTripleRow
            tripleOk (λ d, timestampOk (td_timestamp d)).

Definition updateTan3Odds (oddsDataArray : list TripleOddsData) (table : list TripleRow)
    : option (list TripleRow) :=
  returned (updateTan3OddsRun oddsDataArray table).

(** ** Win/place quotes: parser, horse bookkeeping, history *)

(** One [<tr>] of [table.tanpuku] as the selectors of [parseTanpukuOdds]
    see it (texts are trimmed). *)
Record TanpukuTr := mkTanpukuTr {
  tp_num : option string;      (* text of [td.num]; [None]: no such cell *)
  tp_wakuSrc : option string;  (* [src] of the image in [td.waku]; [None]: no such cell *)
  tp_horse : string;           (* text of [td.horse a] *)
  tp_cancel : bool;            (* a [td.odds_tan_cancel] cell is present *)
  tp_tan : string;             (* text of [td.odds_tan], commas removed *)
  tp_fukuMin : string;         (* [fukuText[0]] *)
  tp_fukuMax : option string   (* [fukuText[1]?.trim()]; [None]: the text has no [-] *)
}.

(** The text functions of the host the parser relies on. *)
Record JsText := mkJsText {
  parseInt : string → JsNumber;
  parseFloat : string → JsNumber;
  (* capture 1 of [src.match(/waku\/(\d+)\.png/)] *)
  wakuMatch : string → option string
}.

Definition numEq (a b : JsNumber) : bool :=
  strictEq (JNumber a) (JNumber b).

Record ParserState := mkParserState {
  ps_oddsData : list (gmap string JsVal);
  ps_processedHorseIds : list JsNumber;
  ps_currentFrame : JsNumber
}.

(** the object literal [horseData] *)
Definition horseData (horseId : JsNumber) (horseName : string) (currentFrame : JsNumber)
    (isCanceled : bool) (tanOdds fukuOddsMin fukuOddsMax : JsNumber)
    (now raceId : Z) : gmap string JsVal :=
  {[ "horseId" := JNumber horseId;
     "horseName" := JStr horseName;
     "frame" := JNumber currentFrame;
     "number" := JNumber horseId;
     "tanOdds" := (if isCanceled then JInt (-1) else JNumber tanOdds);
     "fukuOddsMin" := (if isCanceled then JInt 0 else JNumber fukuOddsMin);
     "fukuOddsMax" := (if isCanceled then JInt 0 else JNumber fukuOddsMax);
     "timestamp" := JDate now;
     "raceId" := JInt raceId;
     "status" := JStr (if isCanceled then "scratched" else "running") ]}.

(** the callback of [$('table.basic.narrow-xy.tanpuku tr').each] *)
Definition parseTanpukuRow (js : JsText) (raceId now : Z)
    (st : ParserState) (row : TanpukuTr) : ParserState :=
  match tp_num row with
  | None => st
  | Some horseNumber =>
    if bool_decide (horseNumber = "") || bool_decide (parseInt js horseNumber = NaN) then st
    else
      let horseId := parseInt js horseNumber in
      if bool_decide (horseId ∈ ps_processedHorseIds st) then st
      else
        let currentFrame :=
          match tp_wakuSrc row with
          | Some wakuSrc =>
              match wakuMatch js wakuSrc with
              | Some digits => parseInt js digits
              | None => Num 0
              end
          | None => ps_currentFrame st
          end in
        if numEq currentFrame (Num 0)
        then mkParserState (ps_oddsData st) (ps_processedHorseIds st) currentFrame
        else
          let isCanceled := tp_cancel row in
          let tanOdds := if isCanceled then NaN else parseFloat js (tp_tan row) in
          let fukuMinText := tp_fukuMin row in
          let fukuMaxText :=
            match tp_fukuMax row with
            | Some text => if bool_decide (text = "") then fukuMinText else text
            | None => fukuMinText
            end in
          let fukuOddsMin := parseFloat js fukuMinText in
          let fukuOddsMax := parseFloat js fukuMaxText in
          mkParserState
            (ps_oddsData st ++
               [horseData horseId (tp_horse row) currentFrame isCanceled
                          tanOdds fukuOddsMin fukuOddsMax now raceId])
            (ps_processedHorseIds st ++ [horseId])
            currentFrame
  end.

Definition parseTanpukuOdds (js : JsText) (rows : list TanpukuTr) (raceId now : Z)
    : list (gmap string JsVal) :=
  ps_oddsData (foldl (parseTanpukuRow js raceId now) (mkParserState [] [] (Num 0)) rows).

Definition CANCELLED : JsVal := JStr "取消".

(** [db.query.horses.findFirst({ where: and(eq(name), eq(raceId)) })] *)
Definition findHorse (name : JsVal) (raceId : Z) (hs : list HorseRow) : option HorseRow :=
  head (filter (λ h, h_name h = name ∧ h_raceId h = raceId) hs).

(** The operation [handleTanpukuOdds] hands to [withDbRetry] for one [odd].
    The lookup carries the name and the race id, the insert also the frame
    and the number of the quote: a value its column does not hold makes the
    operation throw before it has written anything (a name that is
    [undefined] finds no row and is rejected by the insert). *)
Definition handleTanpukuOdd (raceId : Z) (odd : gmap string JsVal) (hs : list HorseRow)
    : (unit + JsError) * list HorseRow :=
  if negb (int8 raceId && fitsText (prop odd "horseName")) then (inr StoreError, hs)
  else
    match findHorse (prop odd "horseName") raceId hs with
    | None =>
        if fitsInteger (prop odd "frame") && fitsInteger (prop odd "number")
        then (inl (),
              hs ++ [mkHorseRow (nextSerial h_id hs) (prop odd "horseName") raceId
                                (prop odd "frame") (prop odd "number")
                                (if strictEq (prop odd "odds") CANCELLED
                                 then "scratched" else "running")])
        else (inr StoreError, hs)
    | Some existingHorse =>
        if strictEq (prop odd "odds") CANCELLED
           && negb (bool_decide (h_status existingHorse = "scratched"))
        then (inl (),
              (λ h, if bool_decide (h_name h = prop odd "horseName" ∧ h_raceId h = raceId)
                    then mkHorseRow (h_id h) (h_name h) (h_raceId h) (h_frame h)
                                    (h_number h) "scratched"
                    else h) <$> hs)
        else (inl (), hs)
    end.

(** [for (const odd of odds) { await this.withDbRetry(...) }]: what the last
    retry throws leaves the loop. *)
Fixpoint handleTanpukuOddsLoop (raceId : Z) (odds : list (gmap string JsVal))
    (hs : list HorseRow) : list HorseRow * option JsError :=
  match odds with
  | [] => (hs, None)
  | odd :: rest =>
      match thrownBy (withDbRetry (handleTanpukuOdd raceId odd) hs) with
      | (hs, None) => handleTanpukuOddsLoop raceId rest hs
      | (hs, Some error) => (hs, Some error)
      end
  end.

(** [x.toString()]: throws on [undefined]; the stored value stands for its
    decimal text. *)
Definition toString (v : JsVal) : option JsVal :=
  match v with JUndefined => None | _ => Some v end.

(** the rows of [tan_odds_history] and [fuku_odds] built from the values
    [horseId], odds, [timestamp], [raceId] of a quote, and what the tables
    accept *)
Definition newTanOddsRow (id : Z) (v : JsVal * JsVal * JsVal * JsVal) : TanOddsRow :=
  let '(horseId, odds, timestamp, raceId) := v in
  mkTanOddsRow id horseId odds timestamp raceId.

Definition tanOddsOk (v : JsVal * JsVal * JsVal * JsVal) : bool :=
  let '(horseId, odds, timestamp, raceId) := v in
  fitsBigint horseId && fitsNumeric odds && fitsTimestamp timestamp && fitsBigint raceId.

Definition newFukuRow (id : Z) (v : JsVal * JsVal * JsVal * JsVal * JsVal) : FukuRow :=
  let '(horseId, oddsMin, oddsMax, timestamp, raceId) := v in
  mkFukuRow id horseId oddsMin oddsMax timestamp raceId.

Definition setFukuRow (v : JsVal * JsVal * JsVal * JsVal * JsVal) (r : FukuRow) : FukuRow :=
  let '(horseId, oddsMin, oddsMax, timestamp, raceId) := v in
  mkFukuRow (fr_id r) (fr_horseId r) oddsMin oddsMax timestamp (fr_raceId r).

Definition fukuOk (v : JsVal * JsVal * JsVal * JsVal * JsVal) : bool :=
  let '(horseId, oddsMin, oddsMax, timestamp, raceId) := v in
  fitsBigint horseId && fitsNumeric oddsMin && fitsNumeric oddsMax
  && fitsTimestamp timestamp && fitsBigint raceId.

Definition fukuSetOk (v : JsVal * JsVal * JsVal * JsVal * JsVal) : bool :=
  let '(horseId, oddsMin, oddsMax, timestamp, raceId) := v in
  fitsNumeric oddsMin && fitsNumeric oddsMax && fitsTimestamp timestamp.

(** the elements of [tanOddsInserts] and [fukuOddsUpserts] *)
Definition tanOddsInsertOf (odds : gmap string JsVal)
    : option (JsVal * JsVal * JsVal * JsVal) :=
  tan ← toString (prop odds "tanOdds");
  Some (prop odds "horseId", tan, prop odds "timestamp", prop odds "raceId").

Definition fukuOddsUpsertOf (odds : gmap string JsVal)
    : option (JsVal * JsVal * JsVal * JsVal * JsVal) :=
  lo ← toString (prop odds "fukuOddsMin");
  hi ← toString (prop odds "fukuOddsMax");
  Some (prop odds "horseId", lo, hi, prop odds "timestamp", prop odds "raceId").

(** [saveOddsHistory]: build both arrays, append to the win history in
    slices, then upsert the place band by horse id among the rows of the
    race of the first quote.  The result is the tables the call leaves and
    what it throws ([catch] logs and throws again). *)
Definition saveOddsHistory (oddsData : list (gmap string JsVal)) (t : Tables)
    : Tables * option JsError :=
  let BATCH_SIZE := BATCH_SIZES tanpuku in
  match mapM tanOddsInsertOf oddsData, mapM fukuOddsUpsertOf oddsData with
  | Some tanOddsInserts, Some fukuOddsUpserts =>
      match insertSlices BATCH_SIZE th_id newTanOddsRow tanOddsOk
                         (length tanOddsInserts) tanOddsInserts (tanOddsHistory t) with
      | (history, Some error) => (withHistory history t, Some error)
      | (history, None) =>
          let t := withHistory history t in
          match head oddsData with
          | None => (t, Some TypeError) (* [oddsData[0].raceId] *)
          | Some first =>
              let raceId := prop first "raceId" in
              let existingOdds := filter (λ r, fr_raceId r = raceId) (fukuOdds t) in
              let existing := existingMap fr_horseId existingOdds in
              let updates :=
                omap (λ u, (λ e, (fr_id e, u)) <$> existing !! u.1.1.1.1)
                     fukuOddsUpserts in
              let inserts := filter (λ u, existing !! u.1.1.1.1 = None) fukuOddsUpserts in
              match updateSlices BATCH_SIZE fr_id setFukuRow fukuSetOk
                                 (length updates) updates (fukuOdds t) with
              | (fuku, Some error) => (withFuku fuku t, Some error)
              | (fuku, None) =>
                  match insertSlices BATCH_SIZE fr_id newFukuRow fukuOk
                                     (length inserts) inserts fuku with
                  | (fuku, thrown) => (withFuku fuku t, thrown)
                  end
              end
          end
      end
  | _, _ => (t, Some TypeError) (* [toString] of [undefined] *)
  end.

(** [handleTanpukuOdds]: the horse rows first, one quote at a time, then the
    history.  What was written stays when a later statement throws. *)
Definition handleTanpukuOdds (raceId : Z) (odds : list (gmap string JsVal)) (t : Tables)
    : Tables * option JsError :=
  match handleTanpukuOddsLoop raceId odds (horses t) with
  | (hs, Some error) => (withHorses hs t, Some error)
  | (hs, None) => saveOddsHistory odds (withHorses hs t)
  end.

(** ** The routing of a batch of quotes *)

(** What [collectOddsForBetType] resolves to: the array the parser of the
    bet type built. *)
Inductive Quotes :=
| QTanpuku (odds : list (gmap string JsVal))
| QPair (odds : list PairOddsData)
| QWide (odds : list WideOddsData)
| QTriple (odds : list TripleOddsData).

(** [odds.length] *)
Definition quotesLength (q : Quotes) : nat :=
  match q with
  | QTanpuku odds => length odds
  | QPair odds => length odds
  | QWide odds => length odds
  | QTriple odds => length odds
  end.

(** a method of the collector run on its table *)
Definition onTable {Row : Type} (get : Tables → list Row)
    (set : list Row → Tables → Tables)
    (run : list Row → list Row * option JsError) (t : Tables) : Tables * option JsError :=
  match run (get t) with
  | (rows, thrown) => (set rows t, thrown)
  end.

(** [updateUmarenOdds] and [updateUmatanOdds] read [horse1], [horse2],
    [odds], [timestamp] and [raceId], which a quote of three horses holds
    too *)
Definition pairOfTriple (d : TripleOddsData) : PairOddsData :=
  mkPairOddsData (td_horse1 d) (td_horse2 d) (td_odds d) (td_timestamp d) (td_raceId d).

(** [handleOtherOdds]: look the update method up by bet type and run it
    under [withDbRetry].  Quotes that lack a property the method reads make
    it throw before it writes. *)
Definition handleOtherOdds (betType : BetType) (odds : Quotes) (t : Tables)
    : Tables * option JsError :=
  let retried (run : Tables → Tables * option JsError) :=
    thrownBy (withDbRetry (asOperation run) t) in
  match betType, odds with
  | wakuren, QPair o => retried (onTable wakurenOdds withWakuren (updateWakurenOddsRun o))
  | umaren, QPair o => retried (onTable umarenOdds withUmaren (updateUmarenOddsRun o))
  | umaren, QTriple o =>
      retried (onTable umarenOdds withUmaren (updateUmarenOddsRun (pairOfTriple <$> o)))
  | wide, QWide o => retried (onTable wideOdds withWide (updateWideOddsRun o))
  | umatan, QPair o => retried (onTable umatanOdds withUmatan (updateUmatanOddsRun o))
  | umatan, QTriple o =>
      retried (onTable umatanOdds withUmatan (updateUmatanOddsRun (pairOfTriple <$> o)))
  | fuku3, QTriple o => retried (onTable fuku3Odds withFuku3 (updateFuku3OddsRun o))
  | tan3, QTriple o => retried (onTable tan3Odds withTan3 (updateTan3OddsRun o))
  | tanpuku, _ => (t, Some (mkJsError "Error" "Invalid bet type: tanpuku"))
  | _, _ => (t, Some TypeError)
  end.

(** ** The process state and the outside world *)

(** A scheduled job: the closure of the timer callback ([race] and the gate
    computed when the job was created) and whether [cancel()] was called. *)
Record Job := mkJob {
  job_race : RaceInfo;
  job_gate : option Z;
  job_cancelled : bool
}.

(** [collectingSemaphore]; a queue entry is the suspended [collectOdds] call,
    named by its race id. *)
Record Semaphore := mkSemaphore {
  running : Z;
  queue : list Z
}.

Definition maxConcurrent : Z := 3.

Inductive Event :=
| EvLookup (raceId : Z)                     (* [races.findFirst] in [collectOdds] *)
| EvScrape (raceId : Z) (betType : BetType) (* [collectOddsForBetType] called *)
| EvSaved (raceId : Z) (betType : BetType)  (* the quotes were stored *)
| EvRetryDelay                              (* [setTimeout(resolve, RETRY_DELAY)] of the retry loop *)
| EvStatusDone (raceId : Z)                 (* [update races set status = 'done'] *)
| EvResumed (raceId : Z).                   (* a queued [collectOdds] was handed the semaphore *)

Global Instance Event_eq_dec : EqDecision Event.
Proof. solve_decision. Defined.

Record State := mkState {
  st_races : gmap Z Race;
  st_tables : Tables;
  st_jobs : gmap Z Job;            (* [activeJobs] *)
  st_sem : Semaphore;
  st_requests : nat;               (* calls of [collectOddsForBetType] so far *)
  st_saves : nat;                  (* batches of quotes handed to the store so far *)
  st_trace : list Event
}.

Definition initialState : State :=
  mkState ∅ emptyTables ∅ (mkSemaphore 0 []) 0 0 [].

Record World := mkWorld {
  (* what the [n]-th call of [collectOddsForBetType] does *)
  scrape : Z → BetType → nat → Quotes + JsError;
  (* the error, if any, the store raises while the [n]-th batch is saved *)
  storeFault : nat → option JsError
}.

Definition setRaces (m : gmap Z Race) (s : State) : State :=
  mkState m (st_tables s) (st_jobs s) (st_sem s) (st_requests s) (st_saves s) (st_trace s).
Definition setTables (t : Tables) (s : State) : State :=
  mkState (st_races s) t (st_jobs s) (st_sem s) (st_requests s) (st_saves s) (st_trace s).
Definition setJobs (j : gmap Z Job) (s : State) : State :=
  mkState (st_races s) (st_tables s) j (st_sem s) (st_requests s) (st_saves s) (st_trace s).
Definition setSem (m : Semaphore) (s : State) : State :=
  mkState (st_races s) (st_tables s) (st_jobs s) m (st_requests s) (st_saves s) (st_trace s).
Definition logEvent (e : Event) (s : State) : State :=
  mkState (st_races s) (st_tables s) (st_jobs s) (st_sem s) (st_requests s) (st_saves s)
          (st_trace s ++ [e]).
Definition countRequest (s : State) : State :=
  mkState (st_races s) (st_tables s) (st_jobs s) (st_sem s) (S (st_requests s)) (st_saves s)
          (st_trace s).
Definition countSave (s : State) : State :=
  mkState (st_races s) (st_tables s) (st_jobs s) (st_sem s) (st_requests s) (S (st_saves s))
          (st_trace s).

(** [db.update(races).set({ status: 'done' }).where(eq(races.id, raceId))] *)
Definition markDone (raceId : Z) (s : State) : State :=
  logEvent (EvStatusDone raceId) (setRaces (alter (setStatus "done") raceId (st_races s)) s).

(** *** The semaphore *)

(** [acquire()]: take a slot or join the queue. *)
Definition acquire (raceId : Z) (m : Semaphore) : Semaphore * bool :=
  if running m <? maxConcurrent
  then (mkSemaphore (running m + 1) (queue m), true)
  else (mkSemaphore (running m) (queue m ++ [raceId]), false).

(** [release()]: give the slot back and, when a call is queued and a slot is
    free, run its queue entry, which takes the slot for that call. *)
Definition release (m : Semaphore) : Semaphore * option Z :=
  let running := running m - 1 in
  match queue m with
  | next :: rest =>
      if running <? maxConcurrent
      then (mkSemaphore (running + 1) rest, Some next)
      else (mkSemaphore running (queue m), None)
  | [] => (mkSemaphore running [], None)
  end.

Definition releaseSemaphore (s : State) : State :=
  let '(m, woken) := release (st_sem s) in
  let s := setSem m s in
  match woken with
  | Some raceId => logEvent (EvResumed raceId) s
  | None => s
  end.

(** The daily revision has no semaphore. *)
Definition releaseIn (v : Variant) (s : State) : State :=
  match v with
  | Supervisor => releaseSemaphore s
  | Daily => s
  end.

(** ** [collectOdds] *)


(** [handleTanpukuOdds] or [handleOtherOdds], with the fault the store may
    raise meanwhile. *)
Definition saveQuotes (w : World) (raceId : Z) (betType : BetType) (odds : Quotes)
    (s : State) : State * option JsError :=
  let n := st_saves s in
  let s := countSave s in
  match storeFault w n with
  | Some error => (s, Some error)
  | None =>
      let '(t, thrown) :=
        match betType, odds with
        | tanpuku, QTanpuku o => handleTanpukuOdds raceId o (st_tables s)
        | tanpuku, _ => (st_tables s, Some TypeError)
        | _, _ => handleOtherOdds betType odds (st_tables s)
        end in
      match thrown with
      | None => (logEvent (EvSaved raceId betType) (setTables t s), None)
      | Some error => (setTables t s, Some error)
      end
  end.

(** How far the model followed an asynchronous call. *)
Inductive Outcome :=
| Finished (s : State)   (* it ran to its end; [s] is the state it left *)
| Queued (s : State)     (* it is suspended in the semaphore queue *)
| Running (s : State).   (* a retry loop is still going round when the fuel is spent *)

Definition andThen (r : Outcome) (k : State → Outcome) : Outcome :=
  match r with
  | Finished s => k s
  | other => other
  end.

(** The [while (retryCount < this.MAX_RETRIES)] loop run for one bet type.
    One unit of fuel is one evaluation of the loop condition.  In the
    supervisor revision the outer [catch] also counts errors whose message
    mentions the browser and may call [resetBrowser], which catches its own
    errors; that bookkeeping does not influence the loop and is left out. *)
Fixpoint retryLoop (fuel : nat) (w : World) (raceId : Z) (betType : BetType)
    (retryCount : Z) (s : State) : Outcome :=
  match fuel with
  | O => Running s
  | S fuel =>
    if negb (retryCount <? MAX_RETRIES) then Finished s
    else
      let n := st_requests s in
      let s := logEvent (EvScrape raceId betType) (countRequest s) in
      match scrape w raceId betType n with
      | inl odds =>
          if (0 <? quotesLength odds)%nat then
            match saveQuotes w raceId betType odds s with
            | (s, None) => Finished s                               (* [break] *)
            | (s, Some error) =>
                if isTimeoutError error then Finished s             (* [break] *)
                else if bool_decide (retryCount = MAX_RETRIES - 1) then Finished s
                else retryLoop fuel w raceId betType (retryCount + 1)
                               (logEvent EvRetryDelay s)
            end
          else retryLoop fuel w raceId betType retryCount s
      | inr error =>
          let retryCount := retryCount + 1 in
          if MAX_RETRIES <=? retryCount then Finished s
          else retryLoop fuel w raceId betType retryCount (logEvent EvRetryDelay s)
      end
  end.

(** [for (const betType of betTypes) { let retryCount = 0; while ... }];
    every loop is given the same fuel. *)
Fixpoint collectionPass (fuel : nat) (w : World) (raceId : Z) (types : list BetType)
    (s : State) : Outcome :=
  match types with
  | [] => Finished s
  | betType :: rest =>
      andThen (retryLoop fuel w raceId betType 0 s)
              (collectionPass fuel w raceId rest)
  end.

(** The [try] block of [collectOdds] once the semaphore is held.  The
    browser reset and health check that precede the lookup touch neither
    the store nor the semaphore and are not modelled; the lookup and the
    status update are single statements that succeed. *)
Definition collectOddsTry (v : Variant) (fuel : nat) (w : World) (raceId now : Z)
    (s : State) : Outcome :=
  let s := logEvent (EvLookup raceId) s in
  match st_races s !! raceId with
  | None => Finished (releaseIn v s)
  | Some race =>
      if bool_decide (race_status race = "done") then Finished (releaseIn v s)
      else if (race_startTime race <? now) && bool_decide (race_status race = "upcoming")
      then
        andThen (collectionPass fuel w raceId betTypes s)
                (λ s, Finished (releaseIn v (markDone raceId s)))
      else collectionPass fuel w raceId betTypes s
  end.

(** [try { ... } finally { this.collectingSemaphore.release(); }] *)
Definition collectOddsHeld (v : Variant) (fuel : nat) (w : World) (raceId now : Z)
    (s : State) : Outcome :=
  andThen (collectOddsTry v fuel w raceId now s) (λ s, Finished (releaseIn v s)).

(** [collectOdds(raceId)]; [now] is the clock reading taken after the
    lookup. *)
Definition collectOdds (v : Variant) (fuel : nat) (w : World) (raceId now : Z)
    (s : State) : Outcome :=
  match v with
  | Daily => collectOddsHeld v fuel w raceId now s
  | Supervisor =>
      let '(m, granted) := acquire raceId (st_sem s) in
      if granted then collectOddsHeld v fuel w raceId now (setSem m s)
      else Queued (setSem m s)
  end.

(** ** The scheduler *)

(** [registerRace] *)
Definition registerRace (race : RaceInfo) (s : State) : State :=
  match st_races s !! ri_id race with
  | Some existingRace => s
  | None =>
      setRaces (<[ri_id race :=
                    mkRace (ri_name race) (ri_venue race) (ri_startTime race) "upcoming"]>
                  (st_races s)) s
  end.

(** [race.isGrade && collectionStartTime && now < collectionStartTime] *)
Definition beforeGate (isGrade : bool) (gate : option Z) (now : Z) : bool :=
  isGrade && match gate with Some g => now <? g | None => false end.

(** [!race.isGrade || (collectionStartTime && now >= collectionStartTime)] *)
Definition collectsAtOnce (isGrade : bool) (gate : option Z) (now : Z) : bool :=
  negb isGrade || match gate with Some g => g <=? now | None => false end.

(** [scheduleOddsCollection(race)]: replace the job of the race, then collect
    at once unless a grade race is still before its gate.  [now] is the
    reading of the clock after the job is stored; the nested [collectOdds]
    is taken to read the same instant. *)
Definition scheduleOddsCollection (v : Variant) (tz : Z) (fuel : nat) (w : World)
    (race : RaceInfo) (now : Z) (s : State) : Outcome :=
  (* [existingJob?.cancel(); this.activeJobs.delete(race.id)] *)
  let s := setJobs (delete (ri_id race) (st_jobs s)) s in
  let gate := gateOf v tz race in
  let job := mkJob race gate false in
  let s := setJobs (<[ri_id race := job]> (st_jobs s)) s in
  if collectsAtOnce (ri_isGrade race) gate now
  then collectOdds v fuel w (ri_id race) now s
  else Finished s.

(** One firing of the timer stored for [raceId], at clock reading [now]. *)
Definition fire (v : Variant) (tz : Z) (fuel : nat) (w : World) (raceId now : Z)
    (s : State) : Outcome :=
  match st_jobs s !! raceId with
  | None => Finished s
  | Some job =>
    if job_cancelled job then Finished s
    else
      let race := job_race job in
      if beforeGate (ri_isGrade race) (job_gate job) now then Finished s
      else
        let timeToRace := ri_startTime race - now in
        if - FINAL_ODDS_WINDOW <? timeToRace then
          if shouldCollect (ri_isGrade race) timeToRace (getMinutes tz now)
          then collectOdds v fuel w (ri_id race) now s
          else Finished s
        else
          (* [job.cancel(); this.activeJobs.delete(race.id)] *)
          let s := setJobs (delete (ri_id race) (st_jobs s)) s in
          match st_races s !! ri_id race with
          | Some currentRace =>
              if bool_decide (race_status currentRace = "upcoming")
              then Finished (markDone (ri_id race) s)
              else Finished s
          | None => Finished s
          end
  end.

(** [checkAndRestoreJobs]: drop the jobs that have no next invocation. *)
Definition checkAndRestoreJobs (s : State) : State :=
  setJobs (filter (λ kv, job_cancelled kv.2 = false) (st_jobs s)) s.

(** [name.includes(sub)] *)
Definition includes (sub name : string) : bool :=
  bool_decide (is_Some (String.index 0 sub name)).

(** The grade flag restoration gives a race read back from the store. *)
Definition restoredIsGrade (v : Variant) (race : Race) : bool :=
  match v with
  | Daily => true
  | Supervisor =>
      includes "G1" (race_name race) || includes "G2" (race_name race)
      || includes "G3" (race_name race)
  end.

Definition restoredRaceInfo (v : Variant) (id : Z) (race : Race) : RaceInfo :=
  mkRaceInfo id (race_name race) (race_venue race) (race_startTime race)
             (restoredIsGrade v race).

(** [findMany({ where: eq(races.status, 'upcoming') })] *)
Definition upcomingRaces (s : State) : list (Z * Race) :=
  filter (λ kv, race_status kv.2 = "upcoming") (map_to_list (st_races s)).

(** the [for (const race of upcomingRaces)] loop of [checkAndRestoreRaceJobs] *)
Fixpoint restoreLoop (v : Variant) (tz : Z) (fuel : nat) (w : World) (now : Z)
    (rs : list (Z * Race)) (s : State) : Outcome :=
  match rs with
  | [] => Finished s
  | (id, race) :: rest =>
      if bool_decide (is_Some (st_jobs s !! id))
      then restoreLoop v tz fuel w now rest s
      else andThen (scheduleOddsCollection v tz fuel w (restoredRaceInfo v id race) now s)
                   (restoreLoop v tz fuel w now rest)
  end.

(** [checkAndRestoreRaceJobs] *)
Definition checkAndRestoreRaceJobs (v : Variant) (tz : Z) (fuel : nat) (w : World)
    (now : Z) (s : State) : Outcome :=
  let s := match v with Daily => checkAndRestoreJobs s | Supervisor => s end in
  restoreLoop v tz fuel w now (upcomingRaces s) s.

(** A row of the race list page as [getTodayGradeRaces] reads it. *)
Record RaceListRow := mkRaceListRow {
  rl_isGrade : bool;     (* the grade icon is present *)
  rl_started : bool;     (* the time cell reads 発走済 *)
  rl_info : RaceInfo     (* id, name, venue and start time built from the row *)
}.

(** [getTodayGradeRaces]: the races to track; a grade race shown as started
    is set to done in the store instead. *)
Definition getTodayGradeRaces (rows : list RaceListRow) (s : State) : State * list RaceInfo :=
  foldl (λ '(s, raceInfos) row,
           if rl_isGrade row then
             if rl_started row then (markDone (ri_id (rl_info row)) s, raceInfos)
             else (s, raceInfos ++ [rl_info row])
           else (s, raceInfos))
        (s, []) rows.

(** *** The operations as steps of one process *)

Inductive Op :=
| OpDiscover (rows : list RaceListRow)
| OpRegister (race : RaceInfo)
| OpSchedule (race : RaceInfo) (now : Z)
| OpFire (raceId now : Z)
| OpCollect (raceId now : Z)
| OpRestore (now : Z).

Definition runOp (v : Variant) (tz : Z) (fuel : nat) (w : World) (op : Op) (s : State)
    : Outcome :=
  match op with
  | OpDiscover rows => Finished (getTodayGradeRaces rows s).1
  | OpRegister race => Finished (registerRace race s)
  | OpSchedule race now => scheduleOddsCollection v tz fuel w race now s
  | OpFire raceId now => fire v tz fuel w raceId now s
  | OpCollect raceId now => collectOdds v fuel w raceId now s
  | OpRestore now => checkAndRestoreRaceJobs v tz fuel w now s
  end.

(** The states the process can be in between operations. *)
Inductive reachable (v : Variant) (tz : Z) (w : World) : State → Prop :=
| reachable_initial : reachable v tz w initialState
| reachable_step s op fuel s' :
    reachable v tz w s →
    runOp v tz fuel w op s = Finished s' →
    reachable v tz w s'.

(** * Vocabulary of the properties *)

(** The decision as the specification lists it, for time-to-post [T] and
    minute of the hour [m]. *)
Definition cadence_claim (isGrade : bool) (T m : Z) : Prop :=
  T ≤ 0 ∨
  if isGrade then
    T ≤ 30 * MINUTE
    ∨ (30 * MINUTE < T ≤ 3 * HOUR ∧ m mod 10 = 0)
    ∨ (3 * HOUR < T ≤ 12 * HOUR ∧ m mod 30 = 0)
    ∨ (12 * HOUR < T ∧ m = 0)
  else
    (T ≤ 30 * MINUTE ∧ m mod 10 = 0)
    ∨ (30 * MINUTE < T ∧ m mod 30 = 0).

(** the state an outcome carries *)
Definition stateOf (r : Outcome) : State :=
  match r with Finished s | Queued s | Running s => s end.

(** the bet types of the requests in a trace, in order *)
Definition scrapedTypes (tr : list Event) : list BetType :=
  omap (λ e, match e with EvScrape _ betType => Some betType | _ => None end) tr.

(** the events a collection pass leaves *)
Definition passEvent (e : Event) : Prop :=
  match e with
  | EvScrape _ _ | EvSaved _ _ | EvRetryDelay => True
  | _ => False
  end.

(** [s'] comes from [s] by a stretch of a collection pass that left the
    events [evs] and made [n] requests. *)
Definition passFrom (s s' : State) (evs : list Event) (n : nat) : Prop :=
  st_trace s' = st_trace s ++ evs
  ∧ Forall passEvent evs
  ∧ st_requests s' = (st_requests s + n)%nat
  ∧ st_races s' = st_races s
  ∧ st_jobs s' = st_jobs s
  ∧ st_sem s' = st_sem s.

(** a site that never answers with an empty array *)
Definition never_empty (w : World) : Prop :=
  ∀ raceId betType n odds,
    scrape w raceId betType n = inl odds → (0 < quotesLength odds)%nat.

(** [scraped] consists of one non-empty block of requests per bet type, in
    the order of [types]. *)
Definition attemptedInOrder (types scraped : list BetType) : Prop :=
  ∃ ns : list nat,
    length ns = length types
    ∧ Forall (λ n, 1 ≤ n)%nat ns
    ∧ scraped = mjoin (zip_with replicate ns types).

(** a slot is free and nobody waits *)
Definition sem_free (s : State) : Prop :=
  running (st_sem s) < maxConcurrent ∧ queue (st_sem s) = [].

(** no collection and no write: only the lookup happened *)
Definition noCollection (raceId : Z) (s s' : State) : Prop :=
  st_trace s' = st_trace s ++ [EvLookup raceId]
  ∧ st_races s' = st_races s
  ∧ st_tables s' = st_tables s
  ∧ st_requests s' = st_requests s.

(** What one call of [collectOdds] has done when it returns. *)
Definition collectOdds_post (raceId now : Z) (s s' : State) : Prop :=
  match st_races s !! raceId with
  | None => noCollection raceId s s'
  | Some race =>
      if bool_decide (race_status race = "done") then noCollection raceId s s'
      else if bool_decide (race_startTime race < now ∧ race_status race = "upcoming") then
        (* the terminal pass, then the status update *)
        ∃ pass, st_trace s' = st_trace s ++ EvLookup raceId :: pass ++ [EvStatusDone raceId]
                ∧ Forall passEvent pass
                ∧ attemptedInOrder betTypes (scrapedTypes pass)
                ∧ st_races s' = <[raceId := setStatus "done" race]> (st_races s)
      else
        (* a regular pass, the race table untouched *)
        ∃ pass, st_trace s' = st_trace s ++ EvLookup raceId :: pass
                ∧ Forall passEvent pass
                ∧ attemptedInOrder betTypes (scrapedTypes pass)
                ∧ st_races s' = st_races s
  end.

(** no race that is done still has a timer *)
Definition done_without_timer (s : State) : Prop :=
  ∀ raceId race,
    st_races s !! raceId = Some race → race_status race = "done" →
    st_jobs s !! raceId = None.


(** the rows a pair table holds for a race and an unordered pair *)
Definition pairRowsFor (raceId a b : Z) (rows : list PairRow) : list PairRow :=
  filter (λ r, pr_raceId r = raceId
               ∧ ((pr_first r = a ∧ pr_second r = b) ∨ (pr_first r = b ∧ pr_second r = a)))
         rows.

(** the same for the wide table *)
Definition wideRowsFor (raceId a b : Z) (rows : list WideRow) : list WideRow :=
  filter (λ r, wr_raceId r = raceId
               ∧ ((wr_horse1 r = a ∧ wr_horse2 r = b) ∨ (wr_horse1 r = b ∧ wr_horse2 r = a)))
         rows.

(** the rows a triple table holds for a race and an unordered triple *)
Definition tripleRowsFor (raceId a b c : Z) (rows : list TripleRow) : list TripleRow :=
  filter (λ r, tr_raceId r = raceId
               ∧ [tr_horse1 r; tr_horse2 r; tr_horse3 r] ≡ₚ [a; b; c])
         rows.

(** two upserts in a row, the second on the table the first left *)
Definition twice {D R} (update : list D → list R → option (list R)) (d1 d2 : D)
    (rows : list R) : option (list R) :=
  update [d1] rows ≫= update [d2].

(** *** The updates and the inserts of a batch *)

Section UpsertParts.
Context {K Data Row : Type} `{Countable K}.
Variable rowKey : Row → K.
Variable dataKey : Data → K.
Variable rowRace : Row → Z.
Variable dataRace : Data → Z.
Variable rowId : Row → Z.
Variable setRow : Data → Row → Row.

(** the updates of a batch, one after the other *)
Definition updateAll (table : list Row) (updates : list (Z * Data)) : list Row :=
  foldl (λ t u, if bool_decide (u.1 = 0) then t else updateById rowId setRow u.1 u.2 t)
        table updates.

(** the updates and the inserts an update method makes of a batch on a
    table *)
Definition updatesOf (batch : list Data) (table : list Row) : list (Z * Data) :=
  match batch with
  | [] => []
  | first :: _ =>
      omap (λ d, (λ e, (rowId e, d)) <$>
                   existingMap rowKey (filter (λ r, rowRace r = dataRace first) table)
                   !! dataKey d) batch
  end.

Definition insertsOf (batch : list Data) (table : list Row) : list Data :=
  match batch with
  | [] => []
  | first :: _ =>
      filter (λ d, existingMap rowKey (filter (λ r, rowRace r = dataRace first) table)
                   !! dataKey d = None) batch
  end.

End UpsertParts.

(** the objects [parseTanpukuOdds] builds *)
Definition isHorseData (o : gmap string JsVal) : Prop :=
  ∃ horseId horseName frame isCanceled tanOdds fukuMin fukuMax now raceId,
    o = horseData horseId horseName frame isCanceled tanOdds fukuMin fukuMax now raceId.

(** what [findHorse] looks a horse up by *)
Definition horseKey (h : HorseRow) : JsVal * Z := (h_name h, h_raceId h).

(** the values of a quote that [handleTanpukuOdds] writes to [horses] are
    ones the table accepts: a name, a frame and a number *)
Definition storableHorse (o : gmap string JsVal) : Prop :=
  fitsText (prop o "horseName") = true
  ∧ fitsInteger (prop o "frame") = true
  ∧ fitsInteger (prop o "number") = true.

(** the status update of the second branch of [handleTanpukuOdds] *)
Definition scratch (name : JsVal) (raceId : Z) (hs : list HorseRow) : list HorseRow :=
  (λ h, if bool_decide (h_name h = name ∧ h_raceId h = raceId)
        then mkHorseRow (h_id h) (h_name h) (h_raceId h) (h_frame h) (h_number h) "scratched"
        else h) <$> hs.

(** the row [handleTanpukuOdds] inserts for a quote without the marker: the
    name, the frame and the number of the quote under the race passed in,
    with status running *)
Definition insertedFor (raceId : Z) (o : gmap string JsVal) (h : HorseRow) : Prop :=
  h_name h = prop o "horseName" ∧ h_raceId h = raceId
  ∧ h_frame h = prop o "frame" ∧ h_number h = prop o "number"
  ∧ h_status h = "running".

(** * Fixtures: two grade races of 1 June 2025, sites, a page *)

(** post time 15:40 JST *)
Definition raceA : RaceInfo :=
  mkRaceInfo 202505021211 "Tokyo Yushun" "Tokyo" 1748760000000 true.

(** post time 10:00 JST *)
Definition raceB : RaceInfo :=
  mkRaceInfo 202509031201 "Naruo Kinen" "Hanshin" 1748739600000 true.

(** a site where every request fails with a plain error *)
Definition failingSite : World :=
  mkWorld (λ _ _ _, inr (mkJsError "Error" "net::ERR_CONNECTION_RESET")) (λ _, None).

(** a site that serves one quote per market *)
Definition sampleQuotes (raceId : Z) (betType : BetType) : Quotes :=
  match betType with
  | tanpuku =>
      QTanpuku [horseData (num 1) "Croix du Nord" (num 1) false (num 2) (num 1) (num 2)
                          0 raceId]
  | wakuren | umaren | umatan => QPair [mkPairOddsData 1 2 (num 5) 0 raceId]
  | wide => QWide [mkWideOddsData 1 2 (num 2) (num 3) 0 raceId]
  | fuku3 | tan3 => QTriple [mkTripleOddsData 1 2 3 (num 9) 0 raceId]
  end.

(** the site that serves them on every request *)
Definition steadySite : World :=
  mkWorld (λ raceId betType _, inl (sampleQuotes raceId betType)) (λ _, None).

(** a site whose pages parse to no quote at all *)
Definition emptySite : World := mkWorld (λ _ _ _, inl (QPair [])) (λ _, None).

(** a site on which the page of the third market never shows its table *)
Definition timeoutOnUmaren : World :=
  mkWorld (λ raceId betType _,
             match betType with
             | umaren => inr TimeoutError
             | _ => inl (sampleQuotes raceId betType)
             end)
          (λ _, None).

(** The state in which race B has been registered and scheduled on 30 May,
    12:00 JST, by the supervisor revision in a process whose local zone is
    JST. *)
Definition stateB : State :=
  stateOf (scheduleOddsCollection Supervisor JST_OFFSET 3 failingSite raceB 1748574000000
             (registerRace raceB initialState)).

(** The state in which race A has been registered and scheduled at 15:30
    JST, ten minutes before its start, by the supervisor revision with UTC
    as the local zone. *)
Definition stateA_scheduled : State :=
  stateOf (scheduleOddsCollection Supervisor 0 3 steadySite raceA 1748759400000
             (registerRace raceA initialState)).

(** a host that reads decimal digits, and a page on which horse 3 of
    frame 2 is scratched *)
Fixpoint digitsValue (acc : Z) (s : string) : option Z :=
  match s with
  | EmptyString => Some acc
  | String c rest =>
      let d := Z.of_nat (Ascii.nat_of_ascii c) - 48 in
      if (0 <=? d) && (d <=? 9) then digitsValue (10 * acc + d) rest else None
  end.

Definition readNumber (s : string) : JsNumber :=
  match s with
  | EmptyString => NaN
  | _ => match digitsValue 0 s with Some z => num z | None => NaN end
  end.

Definition digitsHost : JsText :=
  mkJsText readNumber readNumber
           (λ src, if bool_decide (src = "waku/2.png") then Some "2" else None).

Definition scratchedPage : list TanpukuTr :=
  [mkTanpukuTr (Some "3") (Some "waku/2.png") "Horse Three" true "" "" None].

(** * The rest of the engine *)

(** ** Restarts of the process ([runWithAutoRestart]) *)






(** *** Vocabulary *)

(** the counter is within its bounds, and calls wait only when every slot is
    taken *)
Definition sem_ok (m : Semaphore) : Prop :=
  0 ≤ running m ≤ maxConcurrent ∧ (queue m ≠ [] → running m = maxConcurrent).

(** the calls for [ids] ask for the semaphore, in this order *)
Definition acquireAll (ids : list Z) (m : Semaphore) : Semaphore :=
  foldl (λ m raceId, (acquire raceId m).1) m ids.

(** [n] releases in a row, with the calls they resume *)
Fixpoint releaseAll (n : nat) (m : Semaphore) : Semaphore * list Z :=
  match n with
  | O => (m, [])
  | S n =>
      let '(m, woken) := release m in
      let '(m', resumed) := releaseAll n m in
      (m', option_list woken ++ resumed)
  end.

(** *** Fixtures *)

(** a store that is down for the first two statements *)
Definition flakyLookup (db : nat) : (Z + JsError) * nat :=
  (if (db <? 2)%nat then inr (mkJsError "Error" "Connection terminated") else inl 7, S db).

(** ** The start time of a listed race ([getTodayGradeRaces]) *)

(** [d.setHours(hours, minutes, 0, 0)]: local midnight of the local day of
    [t], plus the hours and minutes. *)
Definition setHoursMinutes (tz hours minutes t : Z) : Z :=
  (t + tz) / DAY * DAY + hours * HOUR + minutes * MINUTE - tz.

(** Supervisor revision: the listed time is set on the base date with the
    local-time setter and the JST offset is taken off. *)
Definition raceTimeUTC (tz baseDate hours minutes : Z) : Z :=
  let raceTimeJST := setHoursMinutes tz hours minutes baseDate in
  raceTimeJST - JST_OFFSET.

(** Daily revision: the listed time is set on the base date with the
    local-time setter. *)
Definition raceTime (tz baseDate hours minutes : Z) : Z :=
  setHoursMinutes tz hours minutes baseDate.

(** [startTime] of the [RaceInfo] pushed for a row listing [hours]:[minutes] *)
Definition listedStartTime (v : Variant) (tz baseDate hours minutes : Z) : Z :=
  match v with
  | Supervisor => raceTimeUTC tz baseDate hours minutes
  | Daily => raceTime tz baseDate hours minutes
  end.

(** ** Rounds that register and schedule the races found *)


(** [d.getHours()] *)
Definition getHours (tz t : Z) : Z := ((t + tz) / HOUR) mod 24.


(** [for (const race of races) { await registerRace(race); await
    scheduleOddsCollection(race); ... }], the loop of [main], of the 8:55
    job and of [runRaceDayOperations]; all calls are taken to read the clock
    at [now]. *)
Fixpoint registerAndSchedule (v : Variant) (tz : Z) (fuel : nat) (w : World) (now : Z)
    (races : list RaceInfo) (s : State) : Outcome :=
  match races with
  | [] => Finished s
  | race :: rest =>
      andThen (scheduleOddsCollection v tz fuel w race now (registerRace race s))
              (registerAndSchedule v tz fuel w now rest)
  end.


(** *** [checkUpcomingRaces] of the daily revision *)

Definition RACE_COMPLETION_WINDOW : Z := 30 * 60 * 1000.

(** the [for (const race of upcomingRaces)] loop: a race more than 30
    minutes past its start is set to done and loses its job; another race
    is scheduled when it has no job or a job without a next invocation.
    Every turn of the loop is taken to read the clock at [now]. *)
Fixpoint checkRaces (tz : Z) (fuel : nat) (w : World) (now : Z)
    (rs : list (Z * Race)) (s : State) : Outcome :=
  match rs with
  | [] => Finished s
  | (id, race) :: rest =>
      if race_startTime race + RACE_COMPLETION_WINDOW <? now then
        let s := markDone id s in
        let s := setJobs (delete id (st_jobs s)) s in
        checkRaces tz fuel w now rest s
      else
        let reschedule :=
          match st_jobs s !! id with
          | None => true
          | Some job => job_cancelled job   (* [!job.nextInvocation()] *)
          end in
        if reschedule
        then andThen (scheduleOddsCollection Daily tz fuel w (restoredRaceInfo Daily id race)
                        now s)
                     (checkRaces tz fuel w now rest)
        else checkRaces tz fuel w now rest s
  end.

(** [checkUpcomingRaces] (daily revision), for a race list page showing
    [rows]; the browser checks that precede are not modelled and the
    discovery is taken to succeed. *)
Definition checkUpcomingRaces (tz : Z) (fuel : nat) (w : World)
    (rows : list RaceListRow) (now : Z) (s : State) : Outcome :=
  let s := checkAndRestoreJobs s in
  let upcomingRaces := upcomingRaces s in
  if bool_decide (length upcomingRaces = 0%nat) then
    let '(s, freshRaces) := getTodayGradeRaces rows s in
    if bool_decide (0 < length freshRaces)%nat
    then registerAndSchedule Daily tz fuel w now freshRaces s
    else Finished s
  else checkRaces tz fuel w now upcomingRaces s.

(** *** Vocabulary *)


(** ** Race ids

    A race id is the number read from the text year, venue code, meeting
    ([kai]), day ([nichi]) and race number, two digits each after the year.
    [getTodayGradeRaces] builds it, [navigateToRacePage] takes it apart
    again.  Strings that only hold ASCII characters have the same length
    here and in JavaScript; an integer or [NaN] is an [option Z]. *)

(** [s.padStart(targetLength, c)] for a one-character pad string *)
Definition padStart (targetLength : nat) (c : ascii) (s : string) : string :=
  String.string_of_list_ascii (replicate (targetLength - String.length s) c) +:+ s.

(** [s.slice(from, to)] for [0 ≤ from ≤ to] *)
Definition slice (from to : nat) (s : string) : string :=
  String.substring from (to - from) s.

(** [n.toString()] and [`${n}`] for an integer or [NaN] *)
Definition intToString (n : option Z) : string :=
  match n with
  | Some z => pretty z
  | None => "NaN"
  end.

(** [`${x}`] for a string or [undefined] *)
Definition textOf (x : option string) : string := default "undefined" x.

(** *** [parseInt(s)] *)

(** ASCII white space *)
Definition isSpace (c : ascii) : bool :=
  let n := Z.of_nat (Ascii.nat_of_ascii c) in
  (n =? 32) || ((9 <=? n) && (n <=? 13)).

Fixpoint trimStart (s : string) : string :=
  match s with
  | String c rest => if isSpace c then trimStart rest else s
  | EmptyString => s
  end.

(** the value of [c] as a digit of the radix, if it is one *)
Definition digitOf (radix : Z) (c : ascii) : option Z :=
  let n := Z.of_nat (Ascii.nat_of_ascii c) in
  let d :=
    if (48 <=? n) && (n <=? 57) then Some (n - 48)
    else if (97 <=? n) && (n <=? 122) then Some (n - 87)
    else if (65 <=? n) && (n <=? 90) then Some (n - 55)
    else None in
  d ≫= λ d, if d <? radix then Some d else None.

(** the number the longest prefix of digits stands for; [acc] is the value
    of the digits read so far, [None] when there is none yet *)
Fixpoint digitsPrefix (radix : Z) (acc : option Z) (s : string) : option Z :=
  match s with
  | String c rest =>
      match digitOf radix c with
      | Some d => digitsPrefix radix (Some (radix * default 0 acc + d)) rest
      | None => acc
      end
  | EmptyString => acc
  end.

(** [parseInt(s)]: leading white space, a sign, [0x] for radix 16, then the
    longest prefix of digits; [NaN] when there is no digit.  Of the white
    space only the ASCII characters are known here. *)
Definition jsParseInt (s : string) : option Z :=
  let s := trimStart s in
  let '(sign, s) :=
    match s with
    | String "-"%char rest => (-1, rest)
    | String "+"%char rest => (1, rest)
    | _ => (1, s)
    end in
  let '(radix, s) :=
    match s with
    | String "0"%char (String "x"%char rest)
    | String "0"%char (String "X"%char rest) => (16, rest)
    | _ => (10, s)
    end in
  Z.mul sign <$> digitsPrefix radix None s.

(** *** Venues *)

(** [venueMap] of [getVenueCode] *)
Definition venueMap : gmap string string :=
  list_to_map [("札幌", "01"); ("函館", "02"); ("福島", "03"); ("新潟", "04");
               ("東京", "05"); ("中山", "06"); ("中京", "07"); ("京都", "08");
               ("阪神", "09"); ("小倉", "10")].

(** the names under which an object literal such as [venueMap] inherits a
    value from [Object.prototype] *)
Definition inheritedNames : list string :=
  ["constructor"; "hasOwnProperty"; "isPrototypeOf"; "propertyIsEnumerable";
   "toLocaleString"; "toString"; "valueOf"; "__proto__"; "__defineGetter__";
   "__defineSetter__"; "__lookupGetter__"; "__lookupSetter__"].

(** the text a template string makes of the inherited value: the prototype
    itself under [__proto__], a built-in function under every other name *)
Definition inheritedText (name : string) : string :=
  if bool_decide (name = "__proto__") then "[object Object]"
  else if bool_decide (name = "constructor") then "function Object() { [native code] }"
  else "function " +:+ name +:+ "() { [native code] }".

(** [getVenueCode]: [venueMap[venue] || "00"].  The lookup also finds what
    the object inherits, which is truthy and is returned as it is; the only
    caller puts the result into a template string, and the text it becomes
    there is what is given here. *)
Definition getVenueCode (venue : string) : string :=
  match venueMap !! venue with
  | Some code => if bool_decide (code = "") then "00" else code
  | None => if bool_decide (venue ∈ inheritedNames) then inheritedText venue else "00"
  end.

(** [placeMapping] of [odds-collector.ts] *)
Definition placeMapping : gmap string string :=
  list_to_map [("01", "札幌"); ("02", "函館"); ("03", "福島"); ("04", "新潟");
               ("05", "東京"); ("06", "中山"); ("07", "中京"); ("08", "京都");
               ("09", "阪神"); ("10", "小倉")].

(** *** Building and reading an id *)

(** the id [getTodayGradeRaces] gives the race [raceNumber] of the meeting
    linked as [kai]回[venue][nichi]日 *)
Definition raceIdOf (year : Z) (venue kai nichi : string) (raceNumber : option Z)
    : option Z :=
  let venueCode := getVenueCode venue in
  jsParseInt (pretty year +:+ venueCode +:+ padStart 2 "0"%char kai +:+ padStart 2 "0"%char nichi
              +:+ padStart 2 "0"%char (intToString raceNumber)).

(** [kaisaiName], the name of the link [getTodayGradeRaces] clicks *)
Definition kaisaiName (kai venue nichi : string) : string :=
  kai +:+ "回" +:+ venue +:+ nichi +:+ "日".

(** [kaisaiName] as [navigateToRacePage] builds it from the id; the key
    [placeMapping] is read at has at most two characters and so names no inherited
    property *)
Definition kaisaiNameOfId (raceId : Z) : string :=
  let raceIdStr := pretty raceId in
  let kaisaiKai := intToString (jsParseInt (slice 6 8 raceIdStr)) in
  let kaisaiNichi := intToString (jsParseInt (slice 8 10 raceIdStr)) in
  kaisaiKai +:+ "回" +:+ textOf (placeMapping !! slice 4 6 raceIdStr) +:+ kaisaiNichi +:+ "日".

(** [raceNumber] of [navigateToRacePage] *)
Definition raceNumberOfId (raceId : Z) : option Z :=
  jsParseInt (slice 10 12 (pretty raceId)).

(** *** Vocabulary *)

(** the text of a list of decimal digits and the number it stands for *)
Definition digitsText (ds : list N) : string :=
  String.string_of_list_ascii (pretty_N_char <$> ds).

Definition digitsValue10 (acc : N) (ds : list N) : N :=
  foldl (λ acc d, 10 * acc + d)%N acc ds.

(** ** Batches of quotes *)

(** *** Vocabulary *)

(** the keys under which a table holds rows of a race, row by row *)
Definition keysOfRace {K Row : Type} (rowKey : Row → K) (rowRace : Row → Z)
    (raceId : Z) (table : list Row) : list K :=
  rowKey <$> filter (λ r, rowRace r = raceId) table.

(** the ids of a table are those of a [serial] primary key: positive and
    pairwise different *)
Definition serial_ids {Row : Type} (rowId : Row → Z) (table : list Row) : Prop :=
  NoDup (rowId <$> table) ∧ Forall (λ r, 0 < rowId r) table.

(** [key2] on the rows and quotes of a pair table *)
Definition pairRowKey (r : PairRow) : string := key2 (pr_first r) (pr_second r).
Definition pairDataKey (d : PairOddsData) : string := key2 (pd_first d) (pd_second d).

Definition wideRowKey (r : WideRow) : string := key2 (wr_horse1 r) (wr_horse2 r).
Definition wideDataKey (d : WideOddsData) : string := key2 (wd_horse1 d) (wd_horse2 d).

(** [key3] on the rows and quotes of [tan3_odds]; the key of the sorted
    triple on those of [fuku3_odds] *)
Definition tripleRowKey (r : TripleRow) : string :=
  key3 (tr_horse1 r) (tr_horse2 r) (tr_horse3 r).
Definition tripleDataKey (d : TripleOddsData) : string :=
  key3 (td_horse1 d) (td_horse2 d) (td_horse3 d).
Definition sortedRowKey (r : TripleRow) : string :=
  sortedKey3 (tr_horse1 r) (tr_horse2 r) (tr_horse3 r).
Definition sortedDataKey (d : TripleOddsData) : string :=
  sortedKey3 (td_horse1 d) (td_horse2 d) (td_horse3 d).

(** the row carries the odds and the time of the quote *)
Definition pairStored (d : PairOddsData) (r : PairRow) : Prop :=
  pr_odds r = pd_odds d ∧ pr_timestamp r = pd_timestamp d.
Definition wideStored (d : WideOddsData) (r : WideRow) : Prop :=
  wr_oddsMin r = wd_oddsMin d ∧ wr_oddsMax r = wd_oddsMax d
  ∧ wr_timestamp r = wd_timestamp d.
Definition tripleStored (d : TripleOddsData) (r : TripleRow) : Prop :=
  tr_odds r = td_odds d ∧ tr_timestamp r = td_timestamp d.

(** An update method keeps the keys of a race unique.  Given a batch of
    quotes of one race with pairwise different keys, each with values the
    table accepts ([fits]), and a table that holds at most one row per key
    of that race, the method returns; the table then holds the keys it held,
    in their order, followed by the keys of the batch that were not stored,
    so again at most one row per key; it has grown by one row per such key;
    and the keys of every other race are as they were. *)
Definition keeps_keys_unique {K Data Row : Type} `{EqDecision K}
    (update : list Data → list Row → option (list Row)) (fits : Data → bool)
    (rowKey : Row → K) (dataKey : Data → K) (rowRace : Row → Z) (dataRace : Data → Z)
    : Prop :=
  ∀ (raceId : Z) (batch : list Data) (table : list Row),
    batch ≠ [] →
    Forall (λ d, dataRace d = raceId) batch →
    Forall (λ d, fits d = true) batch →
    NoDup (dataKey <$> batch) →
    NoDup (keysOfRace rowKey rowRace raceId table) →
    ∃ table',
      update batch table = Some table'
      ∧ keysOfRace rowKey rowRace raceId table'
        = keysOfRace rowKey rowRace raceId table
          ++ (dataKey <$> filter (λ d, dataKey d ∉ keysOfRace rowKey rowRace raceId table)
                                 batch)
      ∧ NoDup (keysOfRace rowKey rowRace raceId table')
      ∧ length table'
        = (length table
           + length (filter (λ d, dataKey d ∉ keysOfRace rowKey rowRace raceId table)
                            batch))%nat
      ∧ ∀ other, other ≠ raceId →
          keysOfRace rowKey rowRace other table' = keysOfRace rowKey rowRace other table.

(** An update method stores what it is given.  After a call that returns,
    on a batch of quotes of one race with pairwise different keys and a
    table with the ids of a serial key, every quote of the batch has a row of
    its race under its key that carries its odds and time, and the ids are
    still those of a serial key. *)
Definition stores_quotes {K Data Row : Type}
    (update : list Data → list Row → option (list Row))
    (rowKey : Row → K) (dataKey : Data → K) (rowRace : Row → Z) (dataRace : Data → Z)
    (rowId : Row → Z) (stored : Data → Row → Prop) : Prop :=
  ∀ (raceId : Z) (batch : list Data) (table table' : list Row),
    Forall (λ d, dataRace d = raceId) batch →
    NoDup (dataKey <$> batch) →
    serial_ids rowId table →
    update batch table = Some table' →
    serial_ids rowId table'
    ∧ ∀ d, d ∈ batch →
        ∃ r, r ∈ table' ∧ rowRace r = raceId ∧ rowKey r = dataKey d ∧ stored d r.

(** *** Fixtures *)

(** two exacta quotes of race A and the rows they become *)
Definition exactaQuotes : list PairOddsData :=
  [mkPairOddsData 1 2 (num 5) 1000 (ri_id raceA);
   mkPairOddsData 2 1 (num 7) 1000 (ri_id raceA)].

(** the exacta table with the pair 1-2 of race A stored *)
Definition exactaTable : list PairRow :=
  [mkPairRow 7 1 2 (num 3) 500 (ri_id raceA)].

(** ** [startPeriodicCollection] *)

(** what the parser of a bet type builds *)
Definition QuotesOf (betType : BetType) : Type :=
  match betType with
  | tanpuku => list (gmap string JsVal)
  | wakuren | umaren | umatan => list PairOddsData
  | wide => list WideOddsData
  | fuku3 | tan3 => list TripleOddsData
  end.

(** [oddsData.length] *)
Definition quotesCount {betType : BetType} : QuotesOf betType → nat :=
  match betType with
  | tanpuku => length
  | wakuren | umaren | umatan => length
  | wide => length
  | fuku3 | tan3 => length
  end.

(** the object literal of [parseFuku3Odds] and [parseTan3Odds] *)
Definition tripleObject (d : TripleOddsData) : gmap string JsVal :=
  {[ "horse1" := JInt (td_horse1 d);
     "horse2" := JInt (td_horse2 d);
     "horse3" := JInt (td_horse3 d);
     "odds" := JNumber (td_odds d);
     "timestamp" := JDate (td_timestamp d);
     "raceId" := JInt (td_raceId d) ]}.

(** the [if (betType === ...) ... else] chain: four bet types have their
    update method, every other batch goes to [saveOddsHistory]; the methods
    are called as they are, not under [withDbRetry] *)
Definition periodicStore (betType : BetType)
    : QuotesOf betType → Tables → Tables * option JsError :=
  match betType with
  | wakuren => λ o, onTable wakurenOdds withWakuren (updateWakurenOddsRun o)
  | umaren => λ o, onTable umarenOdds withUmaren (updateUmarenOddsRun o)
  | wide => λ o, onTable wideOdds withWide (updateWideOddsRun o)
  | umatan => λ o, onTable umatanOdds withUmatan (updateUmatanOddsRun o)
  | tanpuku => λ o, saveOddsHistory o
  | fuku3 | tan3 => λ o, saveOddsHistory (tripleObject <$> o)
  end.

(** the body of the inner loop for the quotes [collectOddsForBetType] gave:
    [if (oddsData.length > 0) { ... }] inside [try]/[catch]; what is thrown
    is logged, and the result is the tables the turn leaves *)
Definition periodicTurn (betType : BetType) (oddsData : QuotesOf betType) (t : Tables)
    : Tables :=
  if (0 <? quotesCount oddsData)%nat
  then (periodicStore betType oddsData t).1
  else t.

(** *** Vocabulary *)

(** a quote of the win/place parser read from a row of the page: the horse
    number of the row, parsed, is its [horseId] and its [number], the name
    is the one of the row, the frame is not 0 *)
Definition quoteOfPage (js : JsText) (rows : list TanpukuTr) (raceId now : Z)
    (o : gmap string JsVal) : Prop :=
  ∃ row horseNumber,
    row ∈ rows ∧ tp_num row = Some horseNumber
    ∧ parseInt js horseNumber ≠ NaN
    ∧ prop o "horseId" = JNumber (parseInt js horseNumber)
    ∧ prop o "number" = JNumber (parseInt js horseNumber)
    ∧ prop o "horseName" = JStr (tp_horse row)
    ∧ prop o "frame" ≠ JNumber (Num 0)
    ∧ prop o "timestamp" = JDate now
    ∧ prop o "raceId" = JInt raceId.

(** the three odds of a quote are there, so that [toString] can be called
    on them *)
Definition hasOdds (o : gmap string JsVal) : Prop :=
  prop o "tanOdds" ≠ JUndefined
  ∧ prop o "fukuOddsMin" ≠ JUndefined
  ∧ prop o "fukuOddsMax" ≠ JUndefined.

(** the values of a quote that [saveOddsHistory] writes are ones the win
    history and the place table accept *)
Definition storableOdds (o : gmap string JsVal) : Prop :=
  fitsBigint (prop o "horseId") = true
  ∧ fitsNumeric (prop o "tanOdds") = true
  ∧ fitsNumeric (prop o "fukuOddsMin") = true
  ∧ fitsNumeric (prop o "fukuOddsMax") = true
  ∧ fitsTimestamp (prop o "timestamp") = true
  ∧ fitsBigint (prop o "raceId") = true.

(** the row of the win history written for a quote *)
Definition historyRowOf (o : gmap string JsVal) (r : TanOddsRow) : Prop :=
  th_horseId r = prop o "horseId" ∧ th_odds r = prop o "tanOdds"
  ∧ th_timestamp r = prop o "timestamp" ∧ th_raceId r = prop o "raceId".

(** the tables [saveOddsHistory] does not write *)
Definition sameCombinationTables (t t' : Tables) : Prop :=
  wakurenOdds t' = wakurenOdds t ∧ umarenOdds t' = umarenOdds t
  ∧ wideOdds t' = wideOdds t ∧ umatanOdds t' = umatanOdds t
  ∧ fuku3Odds t' = fuku3Odds t ∧ tan3Odds t' = tan3Odds t.

(** *** Fixtures *)

(** a page of frame 2 with the horses 3 and 4; the row of horse 4 has no
    frame cell of its own, and horse 3 is listed a second time *)
Definition framePage : list TanpukuTr :=
  [mkTanpukuTr (Some "3") (Some "waku/2.png") "Horse Three" false "24" "31" (Some "45");
   mkTanpukuTr (Some "4") None "Horse Four" false "110" "20" (Some "38");
   mkTanpukuTr (Some "3") (Some "waku/2.png") "Horse Three" false "25" "31" (Some "45")].

(** ** Operations in a row *)

(** the operations of a list, one after the other, each starting when the
    one before has returned *)
Fixpoint runOps (v : Variant) (tz : Z) (fuel : nat) (w : World) (ops : list Op) (s : State)
    : Outcome :=
  match ops with
  | [] => Finished s
  | op :: rest => andThen (runOp v tz fuel w op s) (runOps v tz fuel w rest)
  end.

(** *** Vocabulary *)

(** the event is neither a request for the odds of the race [id] nor a batch
    saved for it *)
Definition notCollecting (id : Z) (e : Event) : Prop :=
  ∀ betType, e ≠ EvScrape id betType ∧ e ≠ EvSaved id betType.

(** between [s] and [s'] nothing was collected for the race [id] *)
Definition quiet (id : Z) (s s' : State) : Prop :=
  ∃ evs, st_trace s' = st_trace s ++ evs ∧ Forall (notCollecting id) evs.

(** the race [id] is stored as [race] in both states, and nothing was
    collected for it in between *)
Definition leftAlone (id : Z) (race : Race) (s s' : State) : Prop :=
  st_races s !! id = Some race ∧ st_races s' !! id = Some race ∧ quiet id s s'.

(** *** Fixtures *)

(** the store after the terminal pass for race A *)
Definition stateA_collected : State :=
  stateOf (collectOdds Daily 3 steadySite (ri_id raceA) 1748760060000
             (registerRace raceA initialState)).

(** * Properties *)

(** ** The cadence policy *)

(** C2. For a firing with time-to-post [T] and minute of the hour [m] the
    should-collect decision of the job callback (one text in both revisions)
    is exactly the tiered rule: grade races always within 30 minutes, on
    minutes divisible by 10 up to 3 hours, by 30 up to 12 hours, at minute 0
    beyond; other races on minutes divisible by 10 within 30 minutes and by
    30 beyond; and always once [T ≤ 0]. *)
Theorem cadence_decision (isGrade : bool) (T m : Z) :
  shouldCollect isGrade T m = true ↔ cadence_claim isGrade T m.
Proof.
  unfold shouldCollect, cadence_claim, MINUTE, HOUR.
  destruct (Z.leb_spec T 0) as [H0|H0]; [split; [by left | done] |].
  destruct isGrade.
  - destruct (Z.leb_spec T (30 * 60 * 1000)) as [H1|H1]; [split; [right; by left | done] |].
    destruct (Z.leb_spec T (3 * 60 * 60 * 1000)) as [H2|H2].
    { rewrite Z.eqb_eq. split; [intros; right; right; left; lia | intros; lia]. }
    destruct (Z.leb_spec T (12 * 60 * 60 * 1000)) as [H3|H3].
    { rewrite Z.eqb_eq. split; [intros; right; right; right; left; lia | intros; lia]. }
    rewrite Z.eqb_eq. split; [intros; right; right; right; right; lia | intros; lia].
  - destruct (Z.leb_spec T (30 * 60 * 1000)) as [H1|H1];
      rewrite Z.eqb_eq; split; intros; lia.
Qed.

(** The example of the specification with [isGrade], 150 minutes to post and
    minute 40: minute 40 is divisible by 10, the firing collects. *)
Example cadence_grade_150min_minute40 : shouldCollect true (150 * MINUTE) 40 = true.
Proof. reflexivity. Qed.

Example cadence_grade_20min : ∀ m, shouldCollect true (20 * MINUTE) m = true.
Proof. reflexivity. Qed.

Example cadence_other_45min_minute30 : shouldCollect false (45 * MINUTE) 30 = true.
Proof. reflexivity. Qed.

(** A firing that has passed the gate and lies inside the final-odds window
    calls [collectOdds] exactly when the decision says so. *)
Lemma fire_follows_cadence v tz fuel w raceId now s job :
  st_jobs s !! raceId = Some job →
  job_cancelled job = false →
  beforeGate (ri_isGrade (job_race job)) (job_gate job) now = false →
  - FINAL_ODDS_WINDOW < ri_startTime (job_race job) - now →
  fire v tz fuel w raceId now s =
    if shouldCollect (ri_isGrade (job_race job)) (ri_startTime (job_race job) - now)
                     (getMinutes tz now)
    then collectOdds v fuel w (ri_id (job_race job)) now s
    else Finished s.
Proof.
  intros Hjob Hlive Hgate Hwin. unfold fire. rewrite Hjob, Hlive, Hgate.
  by destruct (Z.ltb_spec (- FINAL_ODDS_WINDOW) (ri_startTime (job_race job) - now)); [|lia].
Qed.

(** ** The collection-start gate *)

Lemma div_DAY_pred (x : Z) : (x - DAY) / DAY = x / DAY - 1.
Proof.
  replace (x - DAY) with (x + (-1) * DAY) by lia.
  rewrite Z.div_add by (unfold DAY, HOUR; lia). lia.
Qed.

(** In a process whose local zone is UTC the supervisor revision puts the
    gate at 09:00 JST on the eve of the race. *)
Lemma collectionStartTimeUTC_in_utc (start : Z) :
  collectionStartTimeUTC 0 start = gate_0900_JST_day_before start.
Proof.
  unfold collectionStartTimeUTC, gate_0900_JST_day_before, setHours, setDatePrev,
    jstInstant, jstDay.
  rewrite Z.add_0_r, div_DAY_pred. lia.
Qed.

(** In either revision and any zone the gate lies before the race start. *)
Lemma gate_before_start v tz race g :
  gateOf v tz race = Some g → g < ri_startTime race.
Proof.
  unfold gateOf. destruct (ri_isGrade race); [|done]. intros [= <-].
  destruct v; unfold collectionStartTime, collectionStartTimeUTC, setHours, setDatePrev.
  - pose proof (Z.mul_div_le (ri_startTime race - DAY + tz) DAY) as Hle.
    unfold DAY, HOUR, JST_OFFSET in *. lia.
  - pose proof (Z.mul_div_le (ri_startTime race + JST_OFFSET - DAY + tz) DAY) as Hle.
    unfold DAY, HOUR, JST_OFFSET in *. lia.
Qed.

(** C7, as amended. While the clock precedes the gate stored with the job
    of a grade race, registration skips the immediate collection and a
    firing does nothing; in the supervisor revision run with UTC as the
    local zone that gate is 09:00 JST on the eve of the race. *)
Theorem gate_holds_back_collection v tz fuel w race now s g :
  ri_isGrade race = true →
  gateOf v tz race = Some g →
  now < g →
  let s1 := setJobs (<[ri_id race := mkJob race (Some g) false]>
                       (delete (ri_id race) (st_jobs s))) s in
  scheduleOddsCollection v tz fuel w race now s = Finished s1
  ∧ (∀ t, t < g → fire v tz fuel w (ri_id race) t s1 = Finished s1)
  ∧ (v = Supervisor → tz = 0 → g = gate_0900_JST_day_before (ri_startTime race)).
Proof.
  intros Hgrade Hgate Hnow s1. split; [|split].
  - unfold scheduleOddsCollection, collectsAtOnce. rewrite Hgate, Hgrade. simpl.
    by destruct (Z.leb_spec g now); [lia|].
  - intros t Ht. unfold fire. subst s1. simpl. rewrite lookup_insert_eq. simpl.
    unfold beforeGate. rewrite Hgrade. simpl.
    by destruct (Z.ltb_spec t g); [|lia].
  - intros -> ->. unfold gateOf in Hgate. rewrite Hgrade in Hgate.
    injection Hgate as <-. apply collectionStartTimeUTC_in_utc.
Qed.

(** Race A registered two days ahead in the supervisor revision with UTC as
    the local zone: nothing is collected then, nor by any firing before the
    gate, and the gate is 09:00 JST of 31 May. *)
Lemma gate_holds_back_collection_witness :
  let s1 := setJobs (<[ri_id raceA := mkJob raceA (Some 1748649600000) false]>
                       (delete (ri_id raceA) (st_jobs initialState))) initialState in
  scheduleOddsCollection Supervisor 0 3 failingSite raceA 1748574000000 initialState
    = Finished s1
  ∧ (∀ t, t < 1748649600000 → fire Supervisor 0 3 failingSite (ri_id raceA) t s1 = Finished s1)
  ∧ (Supervisor = Supervisor → 0 = 0 →
     1748649600000 = gate_0900_JST_day_before (ri_startTime raceA)).
Proof.
  apply (gate_holds_back_collection Supervisor 0 3%nat failingSite raceA 1748574000000
           initialState 1748649600000); [reflexivity | reflexivity | lia].
Defined.

(** C7 as stated fails in two ways.  The daily revision builds the gate from
    19:00: for race A, with UTC as the local zone, it is 19:00 JST of 31 May.
    The supervisor revision mixes the JST shift with local-time setters: in
    a process whose local zone is JST the gate of race B is midnight, and the
    firing at 05:00 JST on the eve, four hours before 09:00 JST, collects
    (21 requests to the site). *)
Lemma gate_counterexample :
  gateOf Daily 0 raceA = Some (jstInstant (jstDay (ri_startTime raceA) - 1) 19)
  ∧ gateOf Daily 0 raceA ≠ Some (gate_0900_JST_day_before (ri_startTime raceA))
  ∧ 1748635200000 < gate_0900_JST_day_before (ri_startTime raceB)
  ∧ st_requests stateB = 0%nat
  ∧ fire Supervisor JST_OFFSET 3 failingSite (ri_id raceB) 1748635200000 stateB
      ≠ Finished stateB
  ∧ st_requests (stateOf (fire Supervisor JST_OFFSET 3 failingSite (ri_id raceB)
                            1748635200000 stateB)) = 21%nat.
Proof. by vm_compute. Qed.

(** ** The retry loop *)

Lemma passFrom_refl s : passFrom s s [] 0.
Proof. unfold passFrom. rewrite app_nil_r, Nat.add_0_r. by repeat split. Qed.

Lemma passFrom_trans s1 s2 s3 evs1 evs2 n1 n2 :
  passFrom s1 s2 evs1 n1 → passFrom s2 s3 evs2 n2 →
  passFrom s1 s3 (evs1 ++ evs2) (n1 + n2).
Proof.
  intros (Ht1 & Hf1 & Hr1 & Hra1 & Hj1 & Hs1) (Ht2 & Hf2 & Hr2 & Hra2 & Hj2 & Hs2).
  unfold passFrom. rewrite Ht2, Ht1, Hr2, Hr1, Hra2, Hj2, Hs2, app_assoc, Nat.add_assoc.
  repeat split; try done. by apply Forall_app.
Qed.

Lemma passFrom_request s raceId betType :
  passFrom s (logEvent (EvScrape raceId betType) (countRequest s))
           [EvScrape raceId betType] 1.
Proof.
  unfold passFrom. simpl. rewrite Nat.add_1_r.
  repeat split; try done. by repeat constructor.
Qed.

Lemma passFrom_delay s : passFrom s (logEvent EvRetryDelay s) [EvRetryDelay] 0.
Proof.
  unfold passFrom. simpl. rewrite Nat.add_0_r.
  repeat split; try done. by repeat constructor.
Qed.

Lemma passFrom_saveQuotes w raceId betType odds s s' r :
  saveQuotes w raceId betType odds s = (s', r) →
  ∃ evs, passFrom s s' evs 0 ∧ scrapedTypes evs = [].
Proof.
  unfold saveQuotes. destruct (storeFault w (st_saves s)) as [e|].
  - intros [= <- <-]. exists []. split; [|done].
    unfold passFrom. simpl. rewrite app_nil_r, Nat.add_0_r. by repeat split.
  - destruct (match betType, odds with
              | tanpuku, QTanpuku o => handleTanpukuOdds raceId o (st_tables (countSave s))
              | tanpuku, _ => (st_tables (countSave s), Some TypeError)
              | _, _ => handleOtherOdds betType odds (st_tables (countSave s))
              end) as [t [e|]]; intros [= <- <-].
    + exists []. split; [|done].
      unfold passFrom. simpl. rewrite app_nil_r, Nat.add_0_r. by repeat split.
    + exists [EvSaved raceId betType]. split; [|done].
      unfold passFrom. simpl. rewrite Nat.add_0_r.
      repeat split; try done. by repeat constructor.
Qed.

Lemma scrapedTypes_app tr1 tr2 :
  scrapedTypes (tr1 ++ tr2) = scrapedTypes tr1 ++ scrapedTypes tr2.
Proof. apply omap_app. Qed.

(** What a retry loop that ends has done: events of a pass only, requests
    for its own bet type only, and at least one when it was entered with
    attempts left. *)
Lemma retryLoop_finished fuel w raceId betType : ∀ retryCount s s',
  retryLoop fuel w raceId betType retryCount s = Finished s' →
  ∃ evs n, passFrom s s' evs n
           ∧ scrapedTypes evs = replicate n betType
           ∧ (retryCount < MAX_RETRIES → (1 ≤ n)%nat).
Proof.
  induction fuel as [|fuel IH]; intros retryCount s s'; [done|]. simpl.
  destruct (Z.ltb_spec retryCount MAX_RETRIES) as [Hlt|Hge]; simpl.
  2: { intros [= <-]. exists [], 0%nat. split; [apply passFrom_refl|]. split; [done|lia]. }
  pose proof (passFrom_request s raceId betType) as Hreq.
  set (s1 := logEvent (EvScrape raceId betType) (countRequest s)) in *.
  destruct (scrape w raceId betType (st_requests s)) as [odds|error].
  - destruct (0 <? quotesLength odds)%nat.
    + destruct (saveQuotes w raceId betType odds s1) as [s2 r] eqn:Hsave.
      apply passFrom_saveQuotes in Hsave as (evs2 & Hsave & Hnone).
      pose proof (passFrom_trans _ _ _ _ _ _ _ Hreq Hsave) as H12.
      assert (Hstop : ∃ evs n, passFrom s s2 evs n
                ∧ scrapedTypes evs = replicate n betType
                ∧ (retryCount < MAX_RETRIES → (1 ≤ n)%nat)).
      { exists ([EvScrape raceId betType] ++ evs2), (1 + 0)%nat.
        split; [done|]. rewrite scrapedTypes_app, Hnone. by split. }
      destruct r as [error|]; [|by intros [= <-]].
      destruct (isTimeoutError error); [by intros [= <-]|].
      case_bool_decide; [by intros [= <-]|].
      intros Hrun. apply IH in Hrun as (evs3 & n3 & H3 & Htypes & _).
      pose proof (passFrom_trans _ _ _ _ _ _ _ H12
                    (passFrom_trans _ _ _ _ _ _ _ (passFrom_delay s2) H3)) as Hall.
      eexists _, _. split; [exact Hall|].
      rewrite !scrapedTypes_app, Hnone, Htypes. simpl. split; [done|lia].
    + intros Hrun. apply IH in Hrun as (evs3 & n3 & H3 & Htypes & _).
      pose proof (passFrom_trans _ _ _ _ _ _ _ Hreq H3) as Hall.
      eexists _, _. split; [exact Hall|].
      rewrite scrapedTypes_app, Htypes. simpl. split; [done|lia].
  - destruct (Z.leb_spec MAX_RETRIES (retryCount + 1)).
    + intros [= <-]. exists [EvScrape raceId betType], 1%nat.
      split; [exact Hreq|]. split; [done|lia].
    + intros Hrun. apply IH in Hrun as (evs3 & n3 & H3 & Htypes & _).
      pose proof (passFrom_trans _ _ _ _ _ _ _ Hreq
                    (passFrom_trans _ _ _ _ _ _ _ (passFrom_delay s1) H3)) as Hall.
      eexists _, _. split; [exact Hall|].
      rewrite !scrapedTypes_app, Htypes. simpl. split; [done|lia].
Qed.

(** On a site that never answers with an empty array the loop ends within
    the attempts that are left. *)
Lemma retryLoop_terminates w raceId betType : never_empty w →
  ∀ fuel retryCount s,
    0 ≤ retryCount < MAX_RETRIES →
    (Z.to_nat (MAX_RETRIES - retryCount) ≤ fuel)%nat →
    ∃ s', retryLoop fuel w raceId betType retryCount s = Finished s'
          ∧ (st_requests s' ≤ st_requests s + Z.to_nat (MAX_RETRIES - retryCount))%nat.
Proof.
  intros Hne. induction fuel as [|fuel IH]; intros retryCount s Hrc Hfuel.
  { unfold MAX_RETRIES in *. lia. }
  simpl. destruct (Z.ltb_spec retryCount MAX_RETRIES) as [_|?]; [simpl|lia].
  pose proof (passFrom_request s raceId betType) as (_ & _ & Hreq & _).
  set (s1 := logEvent (EvScrape raceId betType) (countRequest s)) in *.
  destruct (scrape w raceId betType (st_requests s)) as [odds|error] eqn:Hscrape.
  - apply Hne in Hscrape. apply Nat.ltb_lt in Hscrape as ->.
    destruct (saveQuotes w raceId betType odds s1) as [s2 r] eqn:Hsave.
    apply passFrom_saveQuotes in Hsave as (evs2 & (_ & _ & Hsave & _) & _).
    assert (Hstop : (st_requests s2
                     ≤ st_requests s + Z.to_nat (MAX_RETRIES - retryCount))%nat)
      by (unfold MAX_RETRIES in *; lia).
    destruct r as [error|]; [|by eexists].
    destruct (isTimeoutError error); [by eexists|].
    case_bool_decide; [by eexists|].
    destruct (IH (retryCount + 1) (logEvent EvRetryDelay s2)) as (s3 & -> & Hle).
    { unfold MAX_RETRIES in *. lia. }
    { unfold MAX_RETRIES in *. lia. }
    eexists. split; [done|]. simpl in Hle. unfold MAX_RETRIES in *. lia.
  - destruct (Z.leb_spec MAX_RETRIES (retryCount + 1)).
    + eexists. split; [done|]. unfold MAX_RETRIES in *. lia.
    + destruct (IH (retryCount + 1) (logEvent EvRetryDelay s1)) as (s3 & -> & Hle).
      { unfold MAX_RETRIES in *. lia. }
      { unfold MAX_RETRIES in *. lia. }
      eexists. split; [done|]. simpl in Hle. unfold MAX_RETRIES in *. lia.
Qed.

(** C6. The loop is meant to stop after three attempts whatever the site
    does.  When every call of the scraper succeeds with an empty array the
    loop neither counts the attempt nor leaves: after any number [n] of
    rounds it is still running and has called the scraper [n] times. *)
Theorem retryLoop_spins_on_empty_results (n : nat) (raceId : Z) (betType : BetType)
    (s : State) :
  ∃ s', retryLoop n emptySite raceId betType 0 s = Running s'
        ∧ st_requests s' = (st_requests s + n)%nat.
Proof.
  revert s. induction n as [|n IH]; intros s; simpl.
  - exists s. by rewrite Nat.add_0_r.
  - destruct (IH (logEvent (EvScrape raceId betType) (countRequest s))) as (s' & -> & Hn).
    exists s'. split; [done|]. simpl in Hn. lia.
Qed.

(** On that site the race table is not touched either, and a pass never
    gets beyond its first bet type. *)
Lemma retryLoop_on_emptySite (n : nat) (raceId : Z) (betType : BetType) : ∀ s,
  ∃ s', retryLoop n emptySite raceId betType 0 s = Running s'
        ∧ st_races s' = st_races s.
Proof.
  induction n as [|n IH]; intros s; simpl; [by exists s|].
  destruct (IH (logEvent (EvScrape raceId betType) (countRequest s))) as (s' & -> & Hr).
  by exists s'.
Qed.

Lemma collectionPass_on_emptySite fuel raceId betType rest s :
  ∃ s', collectionPass fuel emptySite raceId (betType :: rest) s = Running s'
        ∧ st_races s' = st_races s.
Proof.
  simpl. destruct (retryLoop_on_emptySite fuel raceId betType s) as (s' & -> & Hr).
  by exists s'.
Qed.

(** A retry loop on a site that answers every request for the bet type with
    an empty array: after any number of rounds it is still running, and
    what it has left is one request per round. *)
Lemma retryLoop_on_empty_answers (w : World) (raceId : Z) (betType : BetType) :
  (∀ n, ∃ odds, scrape w raceId betType n = inl odds ∧ quotesLength odds = 0%nat) →
  ∀ fuel s,
    ∃ s', retryLoop fuel w raceId betType 0 s = Running s'
          ∧ st_trace s' = st_trace s ++ replicate fuel (EvScrape raceId betType)
          ∧ st_races s' = st_races s
          ∧ st_tables s' = st_tables s.
Proof.
  intros Hempty. induction fuel as [|fuel IH]; intros s.
  - exists s. by rewrite app_nil_r.
  - cbn [retryLoop]. change (negb (0 <? MAX_RETRIES)) with false. cbv iota zeta.
    destruct (Hempty (st_requests s)) as (odds & -> & ->). cbv iota.
    change (0 <? 0)%nat with false. cbv iota.
    destruct (IH (logEvent (EvScrape raceId betType) (countRequest s)))
      as (s' & -> & Htrace & Hraces & Htables).
    exists s'. split; [done|]. rewrite Htrace, Hraces, Htables. simpl.
    by rewrite <- app_assoc.
Qed.

Lemma collectionPass_on_empty_answers (w : World) (raceId : Z) (betType : BetType)
    (rest : list BetType) :
  (∀ n, ∃ odds, scrape w raceId betType n = inl odds ∧ quotesLength odds = 0%nat) →
  ∀ fuel s,
    ∃ s', collectionPass fuel w raceId (betType :: rest) s = Running s'
          ∧ st_trace s' = st_trace s ++ replicate fuel (EvScrape raceId betType)
          ∧ st_races s' = st_races s
          ∧ st_tables s' = st_tables s.
Proof.
  intros Hempty fuel s. simpl.
  destruct (retryLoop_on_empty_answers w raceId betType Hempty fuel s) as (s' & -> & Hs').
  by exists s'.
Qed.

(** The requests made only grow, however the loop stands. *)
Lemma retryLoop_requests_mono fuel w raceId betType : ∀ retryCount s,
  (st_requests s ≤ st_requests (stateOf (retryLoop fuel w raceId betType retryCount s)))%nat.
Proof.
  induction fuel as [|fuel IH]; intros retryCount s; simpl; [done|].
  destruct (negb _); simpl; [done|].
  set (s1 := logEvent (EvScrape raceId betType) (countRequest s)).
  assert (Hs1 : (st_requests s ≤ st_requests s1)%nat) by (simpl; lia).
  destruct (scrape w raceId betType (st_requests s)) as [odds|error].
  - destruct (0 <? quotesLength odds)%nat; [|by etrans; [|apply IH]].
    destruct (saveQuotes w raceId betType odds s1) as [s2 r] eqn:Hsave.
    apply passFrom_saveQuotes in Hsave as (evs & (_ & _ & Hreq & _) & _).
    assert (Hs2 : (st_requests s ≤ st_requests s2)%nat) by lia.
    destruct r as [error|]; [|done].
    destruct (isTimeoutError error); [done|]. case_bool_decide; [done|].
    etrans; [|apply IH]. simpl. lia.
  - destruct (MAX_RETRIES <=? retryCount + 1); [done|].
    etrans; [|apply IH]. simpl. lia.
Qed.

(** A loop entered with attempts left calls the scraper. *)
Lemma retryLoop_first_request fuel w raceId betType retryCount s :
  retryCount < MAX_RETRIES →
  (st_requests s + 1
   ≤ st_requests (stateOf (retryLoop (S fuel) w raceId betType retryCount s)))%nat.
Proof.
  intros Hrc. cbn [retryLoop].
  destruct (Z.ltb_spec retryCount MAX_RETRIES); [|lia]. cbn [negb].
  set (s1 := logEvent (EvScrape raceId betType) (countRequest s)).
  assert (Hs1 : st_requests s1 = (st_requests s + 1)%nat) by (simpl; lia).
  rewrite <- Hs1.
  destruct (scrape w raceId betType (st_requests s)) as [odds|error].
  - destruct (0 <? quotesLength odds)%nat; [|apply retryLoop_requests_mono].
    destruct (saveQuotes w raceId betType odds s1) as [s2 r] eqn:Hsave.
    apply passFrom_saveQuotes in Hsave as (evs & (_ & _ & Hreq & _) & _).
    destruct r as [error|]; [|simpl; lia].
    destruct (isTimeoutError error); [simpl; lia|]. case_bool_decide; [simpl; lia|].
    etrans; [|apply retryLoop_requests_mono]. simpl. lia.
  - cbv zeta. destruct (MAX_RETRIES <=? retryCount + 1); [done|].
    etrans; [|apply retryLoop_requests_mono]. simpl. lia.
Qed.

(** An error thrown by the scraper on the first attempt is followed by a
    second attempt whatever its name is: the outer [catch] never reads it. *)
Lemma scraper_error_is_retried fuel w raceId betType s error :
  scrape w raceId betType (st_requests s) = inr error →
  (st_requests s + 2
   ≤ st_requests (stateOf (retryLoop (S (S fuel)) w raceId betType 0 s)))%nat.
Proof.
  intros Herr. cbn [retryLoop]. rewrite Herr. cbn [negb Z.ltb Z.compare MAX_RETRIES].
  cbv zeta. change (MAX_RETRIES <=? 0 + 1) with false. cbv iota.
  etrans; [|apply retryLoop_first_request; by unfold MAX_RETRIES]. simpl. lia.
Qed.

(** ** A collection pass *)

Lemma collectionPass_finished fuel w raceId : ∀ types s s',
  collectionPass fuel w raceId types s = Finished s' →
  ∃ evs n, passFrom s s' evs n ∧ attemptedInOrder types (scrapedTypes evs).
Proof.
  induction types as [|betType rest IH]; intros s s'; simpl.
  - intros [= <-]. exists [], 0%nat. split; [apply passFrom_refl|]. by exists [].
  - destruct (retryLoop fuel w raceId betType 0 s) as [s1| |] eqn:Hloop; simpl; [|done..].
    intros Hrest. apply retryLoop_finished in Hloop as (evs1 & n1 & H1 & Htypes & Hn1).
    apply IH in Hrest as (evs2 & n2 & H2 & ns & Hlen & Hpos & Hjoin).
    exists (evs1 ++ evs2), (n1 + n2)%nat. split; [by eapply passFrom_trans|].
    exists (n1 :: ns). split; [simpl; by rewrite Hlen|]. split.
    + constructor; [|done]. apply Hn1. by unfold MAX_RETRIES.
    + by rewrite scrapedTypes_app, Htypes, Hjoin.
Qed.

Lemma collectionPass_terminates w raceId fuel : never_empty w → (3 ≤ fuel)%nat →
  ∀ types s, ∃ s', collectionPass fuel w raceId types s = Finished s'
                   ∧ (st_requests s' ≤ st_requests s + 3 * length types)%nat.
Proof.
  intros Hne Hfuel. induction types as [|betType rest IH]; intros s; simpl.
  - exists s. split; [done|lia].
  - destruct (retryLoop_terminates w raceId betType Hne fuel 0 s) as (s1 & -> & Hle1).
    { by unfold MAX_RETRIES. }
    { unfold MAX_RETRIES. simpl. lia. }
    simpl. destruct (IH s1) as (s' & -> & Hle). exists s'. split; [done|].
    unfold MAX_RETRIES in Hle1. simpl in Hle1. lia.
Qed.

(** ** [collectOdds] *)

Local Arguments collectionPass : simpl never.

Lemma alter_as_insert {A} (f : A → A) (i : Z) (m : gmap Z A) (x : A) :
  m !! i = Some x → alter f i m = <[i := f x]> m.
Proof.
  intros Hi. apply map_eq. intros j. rewrite lookup_alter, lookup_insert.
  case_decide; [subst; by rewrite Hi|done].
Qed.

Lemma releaseSemaphore_nobody_waits s :
  queue (st_sem s) = [] →
  releaseSemaphore s = setSem (mkSemaphore (running (st_sem s) - 1) []) s.
Proof. intros Hq. unfold releaseSemaphore, release. by rewrite Hq. Qed.

(** Releasing with an empty queue changes the semaphore only. *)
Lemma releaseIn_frame v s :
  queue (st_sem s) = [] →
  st_trace (releaseIn v s) = st_trace s
  ∧ st_races (releaseIn v s) = st_races s
  ∧ st_tables (releaseIn v s) = st_tables s
  ∧ st_requests (releaseIn v s) = st_requests s
  ∧ st_jobs (releaseIn v s) = st_jobs s
  ∧ queue (st_sem (releaseIn v s)) = [].
Proof.
  intros Hq. destruct v; simpl; [done|].
  by rewrite releaseSemaphore_nobody_waits.
Qed.

Lemma collectOddsHeld_post v fuel w raceId now s s' :
  queue (st_sem s) = [] →
  collectOddsHeld v fuel w raceId now s = Finished s' →
  collectOdds_post raceId now s s'
  ∧ st_jobs s' = st_jobs s ∧ queue (st_sem s') = [].
Proof.
  intros Hq. unfold collectOddsHeld, collectOddsTry, collectOdds_post. simpl.
  set (s0 := logEvent (EvLookup raceId) s).
  assert (Hq0 : queue (st_sem s0) = []) by done.
  destruct (st_races s !! raceId) as [race|] eqn:Hrace.
  2: { simpl. intros [= <-].
       destruct (releaseIn_frame v s0 Hq0) as (Ht & Hr & Hta & Hrq & Hj & Hq1).
       destruct (releaseIn_frame v _ Hq1) as (Ht' & Hr' & Hta' & Hrq' & Hj' & Hq2).
       unfold noCollection. rewrite Ht', Hr', Hta', Hrq', Hj', Ht, Hr, Hta, Hrq, Hj.
       by repeat split. }
  case_bool_decide as Hdone.
  { simpl. intros [= <-].
    destruct (releaseIn_frame v s0 Hq0) as (Ht & Hr & Hta & Hrq & Hj & Hq1).
    destruct (releaseIn_frame v _ Hq1) as (Ht' & Hr' & Hta' & Hrq' & Hj' & Hq2).
    unfold noCollection. rewrite Ht', Hr', Hta', Hrq', Hj', Ht, Hr, Hta, Hrq, Hj.
    by repeat split. }
  destruct (Z.ltb_spec (race_startTime race) now) as [Hpast|Hfuture]; simpl.
  - case_bool_decide as Hup; simpl.
    + rewrite bool_decide_eq_true_2 by done.
      destruct (collectionPass fuel w raceId betTypes s0) as [s1| |] eqn:Hpass;
        simpl; [|done..].
      intros [= <-].
      apply collectionPass_finished in Hpass
        as (pass & n & (Ht1 & Hev & _ & Hr1 & Hj1 & Hs1) & Horder).
      assert (Hq1 : queue (st_sem (markDone raceId s1)) = []) by (simpl; by rewrite Hs1).
      destruct (releaseIn_frame v _ Hq1) as (Ht & Hr & _ & _ & Hj & Hq2).
      destruct (releaseIn_frame v _ Hq2) as (Ht' & Hr' & _ & _ & Hj' & Hq3).
      rewrite Ht', Hr', Hj', Ht, Hr, Hj. simpl. rewrite Ht1, Hr1, Hj1. simpl.
      split; [|done]. exists pass. rewrite <- !app_assoc. simpl.
      repeat split; try done. by apply alter_as_insert.
    + rewrite bool_decide_eq_false_2 by tauto.
      destruct (collectionPass fuel w raceId betTypes s0) as [s1| |] eqn:Hpass;
        simpl; [|done..].
      intros [= <-].
      apply collectionPass_finished in Hpass
        as (pass & n & (Ht1 & Hev & _ & Hr1 & Hj1 & Hs1) & Horder).
      assert (Hq1 : queue (st_sem s1) = []) by (by rewrite Hs1).
      destruct (releaseIn_frame v _ Hq1) as (Ht & Hr & _ & _ & Hj & Hq2).
      rewrite Ht, Hr, Hj, Ht1, Hr1, Hj1. simpl.
      split; [|done]. exists pass. rewrite <- !app_assoc. by repeat split.
  - rewrite bool_decide_eq_false_2 by lia.
    destruct (collectionPass fuel w raceId betTypes s0) as [s1| |] eqn:Hpass;
      simpl; [|done..].
    intros [= <-].
    apply collectionPass_finished in Hpass
      as (pass & n & (Ht1 & Hev & _ & Hr1 & Hj1 & Hs1) & Horder).
    assert (Hq1 : queue (st_sem s1) = []) by (by rewrite Hs1).
    destruct (releaseIn_frame v _ Hq1) as (Ht & Hr & _ & _ & Hj & Hq2).
    rewrite Ht, Hr, Hj, Ht1, Hr1, Hj1. simpl.
    split; [|done]. exists pass. rewrite <- !app_assoc. by repeat split.
Qed.

Lemma collectOddsHeld_terminates v fuel w raceId now s :
  never_empty w → (3 ≤ fuel)%nat →
  ∃ s', collectOddsHeld v fuel w raceId now s = Finished s'.
Proof.
  intros Hne Hfuel. unfold collectOddsHeld, collectOddsTry.
  set (s0 := logEvent (EvLookup raceId) s).
  destruct (st_races s0 !! raceId) as [race|]; [|by eexists].
  case_bool_decide; [by eexists|].
  destruct (collectionPass_terminates w raceId fuel Hne Hfuel betTypes s0) as (s1 & -> & _).
  destruct (_ && _); by eexists.
Qed.

(** One call of [collectOdds] that is handed the semaphore looks the race up
    and, when it returns, has done nothing else if the race is absent or
    done; has run one pass over the seven bet types in their fixed order and
    then set the status to done if the start time is strictly past and the
    status is upcoming; and has otherwise run one pass and left the race
    table as it was.  It does return, within three attempts per bet type,
    whenever the site never answers with an empty array. *)
Lemma collectOdds_contract v fuel w raceId now s :
  sem_free s →
  (∀ s', collectOdds v fuel w raceId now s = Finished s' →
         collectOdds_post raceId now s s')
  ∧ (never_empty w → (3 ≤ fuel)%nat →
     ∃ s', collectOdds v fuel w raceId now s = Finished s').
Proof.
  intros [Hfree Hq]. unfold collectOdds, acquire.
  destruct v.
  - split; [|by apply collectOddsHeld_terminates].
    intros s' Hrun. by apply collectOddsHeld_post in Hrun as [? _].
  - destruct (Z.ltb_spec (running (st_sem s)) maxConcurrent); [|lia].
    split; [|by apply collectOddsHeld_terminates].
    intros s' Hrun. by apply collectOddsHeld_post in Hrun as [? _].
Qed.

(** On a site whose pages parse to no quote the call for an upcoming race
    never returns and the race is never set to done, whatever the fuel. *)
Lemma collectOdds_on_emptySite v fuel raceId now s race :
  sem_free s →
  st_races s !! raceId = Some race → race_status race = "upcoming" →
  ∃ s', collectOdds v fuel emptySite raceId now s = Running s'
        ∧ st_races s' = st_races s.
Proof.
  intros [Hfree Hq] Hrace Hup.
  assert (Hheld : ∀ s0, st_races s0 = st_races s →
            ∃ s', collectOddsHeld v fuel emptySite raceId now s0 = Running s'
                  ∧ st_races s' = st_races s).
  { intros s0 Hs0. unfold collectOddsHeld, collectOddsTry. simpl. rewrite Hs0, Hrace.
    rewrite bool_decide_eq_false_2 by (by rewrite Hup).
    destruct (collectionPass_on_emptySite fuel raceId tanpuku
                [wakuren; umaren; wide; umatan; fuku3; tan3]
                (logEvent (EvLookup raceId) s0)) as (s' & Hpass & Hr).
    change (tanpuku :: _) with betTypes in Hpass. rewrite Hpass.
    exists s'. split; [by destruct (_ && _)|]. by rewrite Hr. }
  unfold collectOdds, acquire. destruct v; [by apply Hheld|].
  destruct (Z.ltb_spec (running (st_sem s)) maxConcurrent); [|lia].
  by apply Hheld.
Qed.

Lemma never_empty_steadySite : never_empty steadySite.
Proof. intros raceId betType n odds [= <-]. destruct betType; simpl; lia. Qed.

(** C1. When the start of an upcoming race is past, [collectOdds] is meant
    to run one terminal pass over the seven bet types and then set the
    status to done.  On a site whose win/place page parses to no quote it
    does neither: however many rounds the call is given, it is still in the
    retry loop of the first bet type.  All it has done is the lookup and one
    request for the win/place odds per round; no other bet type has been
    asked for, the odds tables are as they were, and the race is still
    stored as upcoming. *)
Theorem collectOdds_never_done_on_empty_answers (v : Variant) (fuel : nat) (w : World)
    (raceId now : Z) (s : State) (race : Race) :
  sem_free s →
  st_races s !! raceId = Some race →
  race_status race = "upcoming" →
  race_startTime race < now →
  (∀ n, ∃ odds, scrape w raceId tanpuku n = inl odds ∧ quotesLength odds = 0%nat) →
  ∃ s', collectOdds v fuel w raceId now s = Running s'
        ∧ st_trace s'
          = st_trace s ++ EvLookup raceId :: replicate fuel (EvScrape raceId tanpuku)
        ∧ st_races s' = st_races s
        ∧ st_tables s' = st_tables s.
Proof.
  intros [Hfree Hq] Hrace Hup Hpast Hempty.
  assert (Hheld : ∀ s0, st_races s0 = st_races s → st_trace s0 = st_trace s →
            st_tables s0 = st_tables s →
            ∃ s', collectOddsHeld v fuel w raceId now s0 = Running s'
                  ∧ st_trace s'
                    = st_trace s ++ EvLookup raceId :: replicate fuel (EvScrape raceId tanpuku)
                  ∧ st_races s' = st_races s
                  ∧ st_tables s' = st_tables s).
  { intros s0 Hraces Htrace Htables. unfold collectOddsHeld, collectOddsTry. simpl.
    rewrite Hraces, Hrace.
    rewrite bool_decide_eq_false_2 by (by rewrite Hup).
    destruct (collectionPass_on_empty_answers w raceId tanpuku
                [wakuren; umaren; wide; umatan; fuku3; tan3] Hempty fuel
                (logEvent (EvLookup raceId) s0)) as (s' & Hpass & Ht & Hr & Hta).
    change (tanpuku :: _) with betTypes in Hpass. rewrite Hpass.
    exists s'. split; [by destruct (_ && _)|].
    rewrite Ht, Hr, Hta. simpl. rewrite Htrace, Hraces, Htables.
    by rewrite <- app_assoc. }
  unfold collectOdds, acquire. destruct v; [by apply Hheld|].
  destruct (Z.ltb_spec (running (st_sem s)) maxConcurrent); [|lia].
  by apply Hheld.
Qed.

(** Race A, registered and upcoming, ten minutes after its post time, on the
    site whose pages parse to no quote: five rounds, five requests for the
    win/place odds, and the race is still upcoming. *)
Lemma collectOdds_never_done_on_empty_answers_witness :
  ∃ s', collectOdds Supervisor 5 emptySite (ri_id raceA) 1748760600000
          (registerRace raceA initialState) = Running s'
        ∧ st_trace s'
          = st_trace (registerRace raceA initialState)
            ++ EvLookup (ri_id raceA) :: replicate 5 (EvScrape (ri_id raceA) tanpuku)
        ∧ st_races s' = st_races (registerRace raceA initialState)
        ∧ st_tables s' = st_tables (registerRace raceA initialState).
Proof.
  apply (collectOdds_never_done_on_empty_answers Supervisor 5%nat emptySite (ri_id raceA)
           1748760600000 (registerRace raceA initialState)
           (mkRace "Tokyo Yushun" "Tokyo" 1748760000000 "upcoming")).
  - split; reflexivity.
  - reflexivity.
  - reflexivity.
  - reflexivity.
  - intros n. exists (QPair []). split; reflexivity.
Defined.

(** The same race on a site that serves every market: the call returns. *)
Example collectOdds_contract_steadySite :
  ∃ s', collectOdds Supervisor 3 steadySite (ri_id raceA) 1748760600000
          (registerRace raceA initialState) = Finished s'
        ∧ collectOdds_post (ri_id raceA) 1748760600000 (registerRace raceA initialState) s'.
Proof.
  destruct (collectOdds_contract Supervisor 3%nat steadySite (ri_id raceA) 1748760600000
              (registerRace raceA initialState)) as [Hpost Hreturns]; [split; reflexivity|].
  destruct (Hreturns never_empty_steadySite) as [s' Hs']; [reflexivity|].
  exists s'. split; [done|]. by apply Hpost.
Qed.

(** The same call run: seven requests, one per bet type in the fixed order,
    and the race is done afterwards; a second call finds it done and only
    looks it up. *)
Example collectOdds_terminal_pass :
  let s := registerRace raceA initialState in
  let s1 := stateOf (collectOdds Supervisor 3 steadySite (ri_id raceA) 1748760600000 s) in
  let s2 := stateOf (collectOdds Supervisor 3 steadySite (ri_id raceA) 1748760900000 s1) in
  scrapedTypes (st_trace s1) = betTypes
  ∧ race_status <$> st_races s1 !! ri_id raceA = Some "done"
  ∧ last (st_trace s1) = Some (EvStatusDone (ri_id raceA))
  ∧ st_requests s2 = 7%nat
  ∧ st_tables s2 = st_tables s1.
Proof. by vm_compute. Qed.

(** Before the post time the pass is a regular one: the status stays. *)
Example collectOdds_regular_pass :
  let s := registerRace raceA initialState in
  let s1 := stateOf (collectOdds Daily 3 steadySite (ri_id raceA) 1748759400000 s) in
  scrapedTypes (st_trace s1) = betTypes
  ∧ race_status <$> st_races s1 !! ri_id raceA = Some "upcoming".
Proof. by vm_compute. Qed.

(** ** The collecting semaphore *)

(** C4. Every exit of [collectOdds] should give the slot back once.  The
    early return for an absent or finished race releases inside the [try]
    block and the [finally] block releases again: a call for a race the
    store does not hold, made while nothing else runs, leaves the counter at
    -1, after which four calls are handed the semaphore with no release in
    between. *)
Theorem collectOdds_releases_twice (fuel : nat) (w : World) (raceId now : Z) :
  ∃ s', collectOdds Supervisor fuel w raceId now initialState = Finished s'
        ∧ running (st_sem s') = -1
        ∧ ∃ m1 m2 m3 m4,
            acquire 1 (st_sem s') = (m1, true)
            ∧ acquire 2 m1 = (m2, true)
            ∧ acquire 3 m2 = (m3, true)
            ∧ acquire 4 m3 = (m4, true)
            ∧ running m4 = 3.
Proof.
  eexists. split; [reflexivity|]. split; [reflexivity|].
  by eexists _, _, _, _.
Qed.

(** The terminal pass releases twice as well; a regular pass releases once. *)
Example semaphore_after_each_exit :
  let s := registerRace raceA initialState in
  running (st_sem (stateOf (collectOdds Supervisor 3 steadySite (ri_id raceA)
                              1748760600000 s))) = -1
  ∧ running (st_sem (stateOf (collectOdds Supervisor 3 steadySite (ri_id raceA)
                                1748759400000 s))) = 0.
Proof. by vm_compute. Qed.

(** ** Timeouts *)

(** C5. A timeout met while scraping a market should end the attempts for
    that market at once.  The test for [TimeoutError] guards the handlers
    only; a timeout thrown by the scraper lands in the outer [catch], which
    retries: the third market is requested three times, with two delays,
    before the pass moves on to the remaining four (in both revisions). *)
Theorem scraper_timeout_is_retried :
  let s := registerRace raceA initialState in
  let trace v := st_trace (stateOf (collectOdds v 3 timeoutOnUmaren (ri_id raceA)
                                      1748759400000 s)) in
  scrapedTypes (trace Supervisor)
    = [tanpuku; wakuren; umaren; umaren; umaren; wide; umatan; fuku3; tan3]
  ∧ length (filter (λ e, e = EvRetryDelay) (trace Supervisor)) = 2%nat
  ∧ trace Daily = trace Supervisor.
Proof. by vm_compute. Qed.

(** ** Timers and the status of a race *)

Lemma releaseIn_jobs v s : st_jobs (releaseIn v s) = st_jobs s.
Proof.
  destruct v; simpl; [done|]. unfold releaseSemaphore.
  destruct (release (st_sem s)) as [m [raceId|]]; done.
Qed.

Lemma andThen_finished r k s' :
  andThen r k = Finished s' → ∃ s1, r = Finished s1 ∧ k s1 = Finished s'.
Proof. destruct r as [s1| |]; simpl; [|done..]. intros Hk. by exists s1. Qed.

(** [collectOdds] never touches the job map. *)
Lemma collectOdds_keeps_jobs v fuel w raceId now s s' :
  collectOdds v fuel w raceId now s = Finished s' → st_jobs s' = st_jobs s.
Proof.
  assert (Hheld : ∀ s0, collectOddsHeld v fuel w raceId now s0 = Finished s' →
                        st_jobs s' = st_jobs s0).
  { intros s0. unfold collectOddsHeld. intros Hrun.
    apply andThen_finished in Hrun as (s1 & Htry & [= <-]).
    rewrite releaseIn_jobs. revert Htry. unfold collectOddsTry.
    set (s00 := logEvent (EvLookup raceId) s0).
    assert (Hpass : ∀ s2, collectionPass fuel w raceId betTypes s00 = Finished s2 →
                          st_jobs s2 = st_jobs s0).
    { intros s2 Hp. by apply collectionPass_finished in Hp as (? & ? & (_&_&_&_&->&_) & _). }
    destruct (st_races s00 !! raceId) as [race|].
    2: { intros [= <-]. by rewrite releaseIn_jobs. }
    case_bool_decide.
    { intros [= <-]. by rewrite releaseIn_jobs. }
    destruct (_ && _); [|by apply Hpass].
    intros Hrun. apply andThen_finished in Hrun as (s2 & Hp & [= <-]).
    rewrite releaseIn_jobs. simpl. by apply Hpass. }
  unfold collectOdds. destruct v; [by apply Hheld|].
  destruct (acquire raceId (st_sem s)) as [m [|]]; [|done].
  intros Hrun. by apply Hheld in Hrun.
Qed.

(** Neither does the discovery of the day's races. *)
Lemma getTodayGradeRaces_keeps_jobs rows : ∀ s,
  st_jobs (getTodayGradeRaces rows s).1 = st_jobs s.
Proof.
  unfold getTodayGradeRaces.
  assert (Hgen : ∀ s acc,
    st_jobs (foldl (λ '(s, raceInfos) row,
                      if rl_isGrade row then
                        if rl_started row then (markDone (ri_id (rl_info row)) s, raceInfos)
                        else (s, raceInfos ++ [rl_info row])
                      else (s, raceInfos)) (s, acc) rows).1 = st_jobs s).
  { induction rows as [|row rows IH]; intros s acc; simpl; [done|].
    destruct (rl_isGrade row); [|apply IH].
    destruct (rl_started row); [|apply IH].
    by rewrite IH. }
  intros s. apply Hgen.
Qed.

(** C9, as amended. The timer of a race is removed by the firing that finds
    the race at least the final-odds window past its start: that firing
    deletes the job and then sets a race that is still upcoming to done.
    [collectOdds], whose terminal pass sets the status to done, and
    [getTodayGradeRaces] leave the job map as it is. *)
Theorem retiring_firing_removes_timer v tz fuel w race now s :
  st_jobs s !! ri_id race = Some (mkJob race (gateOf v tz race) false) →
  ri_startTime race - now ≤ - FINAL_ODDS_WINDOW →
  (∃ s', fire v tz fuel w (ri_id race) now s = Finished s'
         ∧ st_jobs s' = delete (ri_id race) (st_jobs s)
         ∧ st_races s' = match st_races s !! ri_id race with
                         | Some r =>
                             if bool_decide (race_status r = "upcoming")
                             then <[ri_id race := setStatus "done" r]> (st_races s)
                             else st_races s
                         | None => st_races s
                         end)
  ∧ (∀ raceId t s', collectOdds v fuel w raceId t s = Finished s' →
                    st_jobs s' = st_jobs s)
  ∧ (∀ rows, st_jobs (getTodayGradeRaces rows s).1 = st_jobs s).
Proof.
  intros Hjob Hlate. split; [|split].
  - unfold fire. rewrite Hjob. simpl.
    assert (Hgate : beforeGate (ri_isGrade race) (gateOf v tz race) now = false).
    { unfold beforeGate. destruct (gateOf v tz race) as [g|] eqn:Hg;
        [|by rewrite andb_false_r].
      apply gate_before_start in Hg. unfold FINAL_ODDS_WINDOW in Hlate.
      destruct (Z.ltb_spec now g); [lia|]. by rewrite andb_false_r. }
    rewrite Hgate.
    destruct (Z.ltb_spec (- FINAL_ODDS_WINDOW) (ri_startTime race - now)); [lia|].
    destruct (st_races s !! ri_id race) as [r|] eqn:Hrace; [|by eexists].
    case_bool_decide; [|by eexists].
    eexists. split; [done|]. simpl. split; [done|]. by apply alter_as_insert.
  - intros raceId t s'. apply collectOdds_keeps_jobs.
  - intros rows. apply getTodayGradeRaces_keeps_jobs.
Qed.

Lemma retiring_firing_removes_timer_witness :
  (∃ s', fire Supervisor 0 3 steadySite (ri_id raceA) 1748760360000 stateA_scheduled
           = Finished s'
         ∧ st_jobs s' = delete (ri_id raceA) (st_jobs stateA_scheduled)
         ∧ st_races s' = match st_races stateA_scheduled !! ri_id raceA with
                         | Some r =>
                             if bool_decide (race_status r = "upcoming")
                             then <[ri_id raceA := setStatus "done" r]>
                                    (st_races stateA_scheduled)
                             else st_races stateA_scheduled
                         | None => st_races stateA_scheduled
                         end)
  ∧ (∀ raceId t s', collectOdds Supervisor 3 steadySite raceId t stateA_scheduled
                      = Finished s' →
                    st_jobs s' = st_jobs stateA_scheduled)
  ∧ (∀ rows, st_jobs (getTodayGradeRaces rows stateA_scheduled).1
             = st_jobs stateA_scheduled).
Proof.
  apply (retiring_firing_removes_timer Supervisor 0 3%nat steadySite raceA 1748760360000
           stateA_scheduled); [reflexivity | by vm_compute].
Defined.

(** C9 as stated fails in both revisions: race A is registered, scheduled
    ten minutes before its start (a regular pass) and its timer fires one
    minute after the start; [collectOdds] runs the terminal pass and sets
    the race to done, and the job is still in the map. *)
Lemma done_race_keeps_timer :
  ¬ (∀ v s, reachable v 0 steadySite s → done_without_timer s).
Proof.
  intros Hinv.
  assert (Hbad : ∀ v, ∃ s, reachable v 0 steadySite s
                           ∧ race_status <$> st_races s !! ri_id raceA = Some "done"
                           ∧ st_jobs s !! ri_id raceA ≠ None).
  { intros v.
    pose (s1 := stateOf (runOp v 0 3 steadySite (OpRegister raceA) initialState)).
    pose (s2 := stateOf (runOp v 0 3 steadySite (OpSchedule raceA 1748759400000) s1)).
    pose (s3 := stateOf (runOp v 0 3 steadySite (OpFire (ri_id raceA) 1748760060000) s2)).
    exists s3. split; [|destruct v; by vm_compute].
    apply (reachable_step v 0 steadySite s2 (OpFire (ri_id raceA) 1748760060000) 3%nat);
      [|destruct v; by vm_compute].
    apply (reachable_step v 0 steadySite s1 (OpSchedule raceA 1748759400000) 3%nat);
      [|destruct v; by vm_compute].
    apply (reachable_step v 0 steadySite initialState (OpRegister raceA) 3%nat); [|done].
    apply reachable_initial. }
  destruct (Hbad Supervisor) as (s & Hreach & Hdone & Hjob).
  destruct (st_races s !! ri_id raceA) as [race|] eqn:Hrace; [|done].
  injection Hdone as Hdone.
  by specialize (Hinv Supervisor s Hreach (ri_id raceA) race Hrace Hdone).
Qed.

(** ** Restoration of missing jobs *)

Lemma releaseIn_running v s :
  queue (st_sem s) = [] →
  running (st_sem (releaseIn v s)) ≤ running (st_sem s).
Proof.
  intros Hq. destruct v; simpl; [lia|].
  rewrite releaseSemaphore_nobody_waits by done. simpl. lia.
Qed.

Lemma collectionPass_sem fuel w raceId types s s' :
  collectionPass fuel w raceId types s = Finished s' → st_sem s' = st_sem s.
Proof. intros Hp. by apply collectionPass_finished in Hp as (? & ? & (_&_&_&_&_&->) & _). Qed.

Lemma collectOddsTry_sem v fuel w raceId now s s' :
  queue (st_sem s) = [] →
  collectOddsTry v fuel w raceId now s = Finished s' →
  queue (st_sem s') = [] ∧ running (st_sem s') ≤ running (st_sem s).
Proof.
  intros Hq. unfold collectOddsTry.
  set (s0 := logEvent (EvLookup raceId) s).
  assert (Hq0 : queue (st_sem s0) = []) by done.
  assert (Hrel : ∀ s1, st_sem s1 = st_sem s0 →
            queue (st_sem (releaseIn v s1)) = []
            ∧ running (st_sem (releaseIn v s1)) ≤ running (st_sem s)).
  { intros s1 Hs1. assert (Hq1 : queue (st_sem s1) = []) by (by rewrite Hs1).
    split; [apply (releaseIn_frame v s1 Hq1)|].
    etrans; [by apply releaseIn_running|]. by rewrite Hs1. }
  destruct (st_races s0 !! raceId) as [race|].
  2: { intros [= <-]. by apply Hrel. }
  case_bool_decide.
  { intros [= <-]. by apply Hrel. }
  destruct (_ && _).
  - intros Hrun. apply andThen_finished in Hrun as (s1 & Hp & [= <-]).
    apply collectionPass_sem in Hp. by apply Hrel.
  - intros Hp. apply collectionPass_sem in Hp. rewrite Hp. by split.
Qed.

(** With a free semaphore and a site that never answers with an empty
    array, [collectOdds] returns, leaves the jobs alone and the semaphore
    free. *)
Lemma collectOdds_returns v fuel w raceId now s :
  never_empty w → (3 ≤ fuel)%nat → sem_free s →
  ∃ s', collectOdds v fuel w raceId now s = Finished s'
        ∧ st_jobs s' = st_jobs s
        ∧ sem_free s'.
Proof.
  intros Hne Hfuel [Hfree Hq].
  assert (Hheld : ∀ s0, queue (st_sem s0) = [] →
            ∃ s', collectOddsHeld v fuel w raceId now s0 = Finished s'
                  ∧ queue (st_sem s') = []
                  ∧ running (st_sem s') ≤ running (st_sem s0)
                                          - match v with Supervisor => 1 | Daily => 0 end).
  { intros s0 Hq0.
    destruct (collectOddsHeld_terminates v fuel w raceId now s0 Hne Hfuel) as (s' & Hrun).
    exists s'. split; [done|]. unfold collectOddsHeld in Hrun.
    apply andThen_finished in Hrun as (s1 & Htry & [= <-]).
    apply collectOddsTry_sem in Htry as [Hq1 Hle]; [|done].
    split; [apply (releaseIn_frame v s1 Hq1)|].
    destruct v; simpl; [lia|].
    rewrite releaseSemaphore_nobody_waits by done. simpl. lia. }
  unfold collectOdds, acquire. destruct v.
  - destruct (Hheld s Hq) as (s' & Hrun & Hq' & Hle). exists s'.
    split; [done|]. split; [by eapply (collectOdds_keeps_jobs Daily)|].
    split; [lia|done].
  - destruct (Z.ltb_spec (running (st_sem s)) maxConcurrent); [|lia].
    destruct (Hheld (setSem (mkSemaphore (running (st_sem s) + 1) (queue (st_sem s))) s) Hq)
      as (s' & Hrun & Hq' & Hle).
    exists s'. split; [done|]. split.
    { eapply (collectOdds_keeps_jobs Supervisor _ _ _ _ s). unfold collectOdds, acquire.
      destruct (Z.ltb_spec (running (st_sem s)) maxConcurrent); [done|lia]. }
    simpl in Hle. split; [lia|done].
Qed.




Example includes_grade_tag :
  includes "G1" "Arima Kinen (G1)" = true ∧ includes "G1" "Naruo Kinen" = false.
Proof. by vm_compute. Qed.




(** ** Combination keys of the odds tables *)

(** *** The slices of a call that returns *)

Lemma forallb_true_Forall {A} (f : A → bool) (l : list A) :
  forallb f l = true ↔ Forall (λ x, f x = true) l.
Proof.
  induction l as [|x l IH]; simpl; [by split|].
  rewrite andb_true_iff, IH, Forall_cons. done.
Qed.

Section UpsertRun.
Context {K Data Row : Type} `{Countable K}.
Variable BATCH_SIZE : nat.
Variable rowKey : Row → K.
Variable dataKey : Data → K.
Variable rowRace : Row → Z.
Variable dataRace : Data → Z.
Variable rowId : Row → Z.
Variable newRow : Z → Data → Row.
Variable setRow : Data → Row → Row.
Variable insertable : Data → bool.
Variable settable : Data → bool.
Hypothesis BATCH_SIZE_pos : (0 < BATCH_SIZE)%nat.

Lemma insertValues_app (ds1 ds2 : list Data) (table : list Row) :
  insertValues rowId newRow (ds1 ++ ds2) table
  = insertValues rowId newRow ds2 (insertValues rowId newRow ds1 table).
Proof. apply foldl_app. Qed.

Lemma length_drop_slice {A} (x : A) (l : list A) (rounds : nat) :
  (length (x :: l) ≤ S rounds)%nat → (length (drop BATCH_SIZE (x :: l)) ≤ rounds)%nat.
Proof. rewrite length_drop. simpl. lia. Qed.

(** slices that are all accepted insert the whole list *)
Lemma insertSlices_accepted : ∀ rounds inserts table,
  (length inserts ≤ rounds)%nat → Forall (λ d, insertable d = true) inserts →
  insertSlices BATCH_SIZE rowId newRow insertable rounds inserts table
  = (insertValues rowId newRow inserts table, None).
Proof.
  induction rounds as [|rounds IH]; intros inserts table Hlen Hall.
  - destruct inserts; [done|simpl in Hlen; lia].
  - destruct inserts as [|d ds]; [done|]. cbn [insertSlices].
    assert (Hbatch : forallb insertable (take BATCH_SIZE (d :: ds)) = true)
      by (by apply forallb_true_Forall, Forall_take).
    rewrite Hbatch, IH.
    + by rewrite <- insertValues_app, take_drop.
    + by apply length_drop_slice.
    + by apply Forall_drop.
Qed.

(** and a loop that is not left by an error has had all its slices
    accepted *)
Lemma insertSlices_None : ∀ rounds inserts table table',
  (length inserts ≤ rounds)%nat →
  insertSlices BATCH_SIZE rowId newRow insertable rounds inserts table = (table', None) →
  Forall (λ d, insertable d = true) inserts.
Proof.
  induction rounds as [|rounds IH]; intros inserts table table' Hlen.
  - destruct inserts; [done|simpl in Hlen; lia].
  - destruct inserts as [|d ds]; [done|]. cbn [insertSlices].
    destruct (forallb insertable (take BATCH_SIZE (d :: ds))) eqn:Hbatch; [|done].
    intros Hrest. apply IH in Hrest; [|by apply length_drop_slice].
    rewrite <- (take_drop BATCH_SIZE (d :: ds)). apply Forall_app. split; [|done].
    by apply forallb_true_Forall.
Qed.

Lemma applyUpdate_resolved (updates : list (Z * Data)) : ∀ table,
  Forall (λ u, updateResolves settable u = true) updates →
  foldl (applyUpdate rowId setRow settable) table updates = updateAll rowId setRow table updates.
Proof.
  unfold updateAll. induction updates as [|u us IH]; intros table Hall; [done|].
  apply Forall_cons in Hall as [Hu Hus]. simpl. rewrite <- IH by done. f_equal.
  unfold applyUpdate, updateResolves in *. case_bool_decide; [done|].
  simpl in Hu. by rewrite Hu.
Qed.

Lemma updateSlices_resolved : ∀ rounds updates table,
  (length updates ≤ rounds)%nat →
  Forall (λ u, updateResolves settable u = true) updates →
  updateSlices BATCH_SIZE rowId setRow settable rounds updates table
  = (updateAll rowId setRow table updates, None).
Proof.
  induction rounds as [|rounds IH]; intros updates table Hlen Hall.
  - destruct updates; [done|simpl in Hlen; lia].
  - destruct updates as [|u us]; [done|]. cbn [updateSlices].
    assert (Hbatch : forallb (updateResolves settable) (take BATCH_SIZE (u :: us)) = true)
      by (by apply forallb_true_Forall, Forall_take).
    rewrite Hbatch, IH.
    + rewrite applyUpdate_resolved by (by apply Forall_take).
      unfold updateAll. by rewrite <- foldl_app, take_drop.
    + by apply length_drop_slice.
    + by apply Forall_drop.
Qed.

Lemma updateSlices_None : ∀ rounds updates table table',
  (length updates ≤ rounds)%nat →
  updateSlices BATCH_SIZE rowId setRow settable rounds updates table = (table', None) →
  Forall (λ u, updateResolves settable u = true) updates.
Proof.
  induction rounds as [|rounds IH]; intros updates table table' Hlen.
  - destruct updates; [done|simpl in Hlen; lia].
  - destruct updates as [|u us]; [done|]. cbn [updateSlices].
    destruct (forallb (updateResolves settable) (take BATCH_SIZE (u :: us))) eqn:Hbatch;
      [|done].
    intros Hrest. apply IH in Hrest; [|by apply length_drop_slice].
    rewrite <- (take_drop BATCH_SIZE (u :: us)). apply Forall_app. split; [|done].
    by apply forallb_true_Forall.
Qed.

(** A call that returns has run every update and inserted every quote that
    had no row. *)
Lemma upsert_Some (batch : list Data) (table table' : list Row) :
  upsert BATCH_SIZE rowKey dataKey rowRace dataRace rowId newRow setRow insertable settable
         batch table = Some table' →
  table' = insertValues rowId newRow (insertsOf rowKey dataKey rowRace dataRace batch table)
             (updateAll rowId setRow table
                (updatesOf rowKey dataKey rowRace dataRace rowId batch table)).
Proof.
  unfold upsert, upsertRun. destruct batch as [|first rest]; [done|].
  destruct (int8 (dataRace first)); [|done]. cbn [negb]. cbv zeta.
  fold (updatesOf rowKey dataKey rowRace dataRace rowId (first :: rest) table).
  fold (insertsOf rowKey dataKey rowRace dataRace (first :: rest) table).
  destruct (updateSlices _ _ _ _ _ _ _) as [t1 [e|]] eqn:Hupd; [done|].
  pose proof Hupd as Hres. apply updateSlices_None in Hres; [|done].
  rewrite updateSlices_resolved in Hupd by done. injection Hupd as <-.
  destruct (insertSlices _ _ _ _ _ _ _) as [t2 [e|]] eqn:Hins; [done|].
  pose proof Hins as Hacc. apply insertSlices_None in Hacc; [|done].
  rewrite insertSlices_accepted in Hins by done. injection Hins as <-.
  by intros [= <-].
Qed.

(** A call on quotes with values the table accepts returns. *)
Lemma upsert_accepted (first : Data) (rest : list Data) (table : list Row) :
  int8 (dataRace first) = true →
  Forall (λ d, insertable d = true ∧ settable d = true) (first :: rest) →
  upsert BATCH_SIZE rowKey dataKey rowRace dataRace rowId newRow setRow insertable settable
         (first :: rest) table
  = Some (insertValues rowId newRow
            (insertsOf rowKey dataKey rowRace dataRace (first :: rest) table)
            (updateAll rowId setRow table
               (updatesOf rowKey dataKey rowRace dataRace rowId (first :: rest) table))).
Proof.
  intros Hrace Hall. unfold upsert, upsertRun. rewrite Hrace. cbn [negb]. cbv zeta.
  fold (updatesOf rowKey dataKey rowRace dataRace rowId (first :: rest) table).
  fold (insertsOf rowKey dataKey rowRace dataRace (first :: rest) table).
  rewrite updateSlices_resolved; [|done|].
  - rewrite insertSlices_accepted; [done..|].
    apply Forall_forall. intros d [_ Hd]%list_elem_of_filter.
    by apply (proj1 (Forall_forall _ _) Hall).
  - apply Forall_forall. intros u (d & Hd & Hu)%list_elem_of_omap.
    destruct (existingMap _ _ !! dataKey d) as [e|]; [|done]. injection Hu as <-.
    unfold updateResolves. simpl.
    rewrite (proj2 (proj1 (Forall_forall _ _) Hall d Hd)). by rewrite orb_true_r.
Qed.

End UpsertRun.

(** *** A second scrape under the same key is an update *)

Section UpsertAgain.
Context {K Data Row : Type} `{Countable K}.
Variable BATCH_SIZE : nat.
Variable rowKey : Row → K.
Variable dataKey : Data → K.
Variable rowRace : Row → Z.
Variable dataRace : Data → Z.
Variable rowId : Row → Z.
Variable newRow : Z → Data → Row.
Variable setRow : Data → Row → Row.
Variable insertable : Data → bool.
Variable settable : Data → bool.
Hypothesis BATCH_SIZE_pos : (0 < BATCH_SIZE)%nat.
Hypothesis newRow_key : ∀ id d, rowKey (newRow id d) = dataKey d.
Hypothesis newRow_race : ∀ id d, rowRace (newRow id d) = dataRace d.
Hypothesis setRow_key : ∀ d r, rowKey (setRow d r) = rowKey r.
Hypothesis setRow_race : ∀ d r, rowRace (setRow d r) = rowRace r.

Lemma existingMap_lookup_Some (l : list Row) : ∀ (m : gmap K Row) k e,
  foldl (λ m r, <[rowKey r := r]> m) m l !! k = Some e →
  m !! k = Some e ∨ (e ∈ l ∧ rowKey e = k).
Proof.
  induction l as [|r l IH]; intros m k e; simpl; [by left|].
  intros Hk. apply IH in Hk as [Hk|[Hin Hkey]].
  - rewrite lookup_insert in Hk. case_decide as Heq; [|by left].
    injection Hk as <-. right. split; [by left|done].
  - right. split; [by right|done].
Qed.

Lemma existingMap_lookup_elem (l : list Row) : ∀ (m : gmap K Row) k,
  is_Some (m !! k) ∨ (∃ r, r ∈ l ∧ rowKey r = k) →
  is_Some (foldl (λ m r, <[rowKey r := r]> m) m l !! k).
Proof.
  induction l as [|r l IH]; intros m k; simpl.
  - intros [Hm|(r & Hin & _)]; [done|]. by apply not_elem_of_nil in Hin.
  - intros [Hm|(r' & Hin & Hkey)]; apply IH.
    + left. rewrite lookup_insert. by case_decide.
    + apply elem_of_cons in Hin as [->|Hin].
      * left. rewrite <- Hkey. by rewrite lookup_insert_eq.
      * right. by exists r'.
Qed.

(** what an upsert of one quote with values the table accepts does *)
Lemma upsert_one d table :
  int8 (dataRace d) = true → insertable d = true → settable d = true →
  upsert BATCH_SIZE rowKey dataKey rowRace dataRace rowId newRow setRow insertable settable
         [d] table =
    Some match existingMap rowKey (filter (λ r, rowRace r = dataRace d) table) !! dataKey d with
         | Some e => if bool_decide (rowId e = 0) then table
                     else updateById rowId setRow (rowId e) d table
         | None => table ++ [newRow (nextSerial rowId table) d]
         end.
Proof.
  intros Hrace Hins Hset. rewrite upsert_accepted; [|done..|by repeat constructor].
  unfold insertsOf, updatesOf, updateAll. simpl. rewrite filter_cons, filter_nil.
  by destruct (existingMap rowKey _ !! dataKey d) as [e|] eqn:He.
Qed.

(** after it the table holds a row of the quote's race under its key *)
Lemma upsert_one_stores d table table' :
  upsert BATCH_SIZE rowKey dataKey rowRace dataRace rowId newRow setRow insertable settable
         [d] table = Some table' →
  ∃ r, r ∈ table' ∧ rowRace r = dataRace d ∧ rowKey r = dataKey d.
Proof.
  intros ->%upsert_Some; [|done].
  unfold insertsOf, updatesOf, updateAll. simpl. rewrite filter_cons, filter_nil.
  destruct (existingMap rowKey _ !! dataKey d) as [e|] eqn:He; simpl.
  - apply existingMap_lookup_Some in He as [He|[Hin Hkey]]; [by rewrite lookup_empty in He|].
    apply list_elem_of_filter in Hin as [Hrace Hin].
    case_bool_decide; [by exists e|].
    exists (setRow d e). rewrite setRow_key, setRow_race. split; [|done].
    unfold updateById. apply list_elem_of_fmap. exists e.
    by rewrite bool_decide_eq_true_2.
  - exists (newRow (nextSerial rowId table) d).
    split; [apply elem_of_app; right; by left|]. by rewrite newRow_key, newRow_race.
Qed.

(** Two scrapes of one race under one key: the second inserts nothing. *)
Lemma upsert_again_updates d1 d2 table :
  dataRace d1 = dataRace d2 → dataKey d1 = dataKey d2 →
  int8 (dataRace d1) = true →
  insertable d1 = true → settable d1 = true →
  insertable d2 = true → settable d2 = true →
  ∃ t1 t2,
    upsert BATCH_SIZE rowKey dataKey rowRace dataRace rowId newRow setRow insertable settable
           [d1] table = Some t1
    ∧ upsert BATCH_SIZE rowKey dataKey rowRace dataRace rowId newRow setRow insertable
             settable [d2] t1 = Some t2
    ∧ length t2 = length t1.
Proof.
  intros Hrace Hkey Hrace1 Hins1 Hset1 Hins2 Hset2.
  destruct (upsert BATCH_SIZE rowKey dataKey rowRace dataRace rowId newRow setRow insertable
              settable [d1] table) as [t1|] eqn:H1; [|by rewrite upsert_one in H1].
  apply upsert_one_stores in H1 as (r & Hin & Hr & Hk).
  exists t1. eexists. split; [done|].
  rewrite upsert_one; [|by rewrite <- Hrace|done..]. split; [done|].
  destruct (existingMap_lookup_elem (filter (λ r, rowRace r = dataRace d2) t1) ∅ (dataKey d2))
    as [e He].
  { right. exists r. split; [|congruence]. apply list_elem_of_filter. split; [congruence|done]. }
  unfold existingMap. rewrite He. case_bool_decide; [done|].
  unfold updateById. by rewrite length_fmap.
Qed.

End UpsertAgain.

(** The key of [updateFuku3Odds] does not depend on the order in which the
    three horses are given. *)
Lemma sortedKey3_order a b c a' b' c' :
  [a; b; c] ≡ₚ [a'; b'; c'] → sortedKey3 a b c = sortedKey3 a' b' c'.
Proof.
  intros Hperm. unfold sortedKey3, sortHorses.
  assert (Heq : merge_sort Z.le [a; b; c] = merge_sort Z.le [a'; b'; c']); [|by rewrite Heq].
  apply (Sorted_unique Z.le); [apply Sorted_merge_sort, _..|].
  by rewrite !merge_sort_Permutation.
Qed.

Lemma sortHorses_nth a b c :
  [nth 0 (sortHorses a b c) 0; nth 1 (sortHorses a b c) 0; nth 2 (sortHorses a b c) 0]
    ≡ₚ [a; b; c].
Proof.
  unfold sortHorses. pose proof (merge_sort_Permutation Z.le [a; b; c]) as Hperm.
  pose proof (Permutation_length Hperm) as Hlen.
  destruct (merge_sort Z.le [a; b; c]) as [|x [|y [|z [|? ?]]]]; done.
Qed.

Lemma BATCH_SIZES_pos betType : (0 < BATCH_SIZES betType)%nat.
Proof. destruct betType; simpl; lia. Qed.

Lemma tripleOk_parts d :
  tripleOk d = true → int8 (td_raceId d) = true ∧ timestampOk (td_timestamp d) = true.
Proof. unfold tripleOk. rewrite !andb_true_iff. tauto. Qed.

(** Whatever the table holds, a second scrape of the same unordered triple
    of a race, in any order, updates the row the first scrape wrote or
    found: [updateFuku3Odds] inserts nothing the second time. *)
Lemma updateFuku3Odds_order_insensitive d1 d2 rows :
  td_raceId d1 = td_raceId d2 →
  [td_horse1 d1; td_horse2 d1; td_horse3 d1] ≡ₚ [td_horse1 d2; td_horse2 d2; td_horse3 d2] →
  tripleOk d1 = true → tripleOk d2 = true →
  ∃ rows1 rows2,
    updateFuku3Odds [d1] rows = Some rows1
    ∧ updateFuku3Odds [d2] rows1 = Some rows2
    ∧ length rows2 = length rows1.
Proof.
  intros Hrace Hperm Hok1 Hok2.
  destruct (tripleOk_parts d1 Hok1) as [Hr1 Ht1].
  destruct (tripleOk_parts d2 Hok2) as [Hr2 Ht2].
  unfold updateFuku3Odds, updateFuku3OddsRun.
  apply (upsert_again_updates (BATCH_SIZES fuku3)); try done.
  - apply BATCH_SIZES_pos.
  - intros id d. simpl. apply sortedKey3_order, sortHorses_nth.
  - by apply sortedKey3_order.
Qed.

(** C3. Two scrapes of one unordered combination in different orders should
    meet in one row.  [updateFuku3Odds] sorts the triple before it builds
    the key and does so: the second scrape updates the row of the first.
    [updateWakurenOdds], [updateUmarenOdds] and [updateWideOdds] key the row
    by the pair as given: after the scrapes (1, 2) and (2, 1) of one race
    each of the three tables holds two rows for the pair. *)
Theorem pair_upserts_keep_both_orders :
  let p12 := mkPairOddsData 1 2 (num 5) 1000 2025 in
  let p21 := mkPairOddsData 2 1 (num 6) 2000 2025 in
  let w12 := mkWideOddsData 1 2 (num 2) (num 3) 1000 2025 in
  let w21 := mkWideOddsData 2 1 (num 2) (num 4) 2000 2025 in
  let t312 := mkTripleOddsData 3 1 2 (num 9) 1000 2025 in
  let t231 := mkTripleOddsData 2 3 1 (num 8) 2000 2025 in
  (length ∘ pairRowsFor 2025 1 2) <$> twice updateUmarenOdds p12 p21 [] = Some 2%nat
  ∧ (length ∘ pairRowsFor 2025 1 2) <$> twice updateWakurenOdds p12 p21 [] = Some 2%nat
  ∧ (length ∘ wideRowsFor 2025 1 2) <$> twice updateWideOdds w12 w21 [] = Some 2%nat
  ∧ twice updateUmarenOdds p12 p21 []
      = Some [mkPairRow 1 1 2 (num 5) 1000 2025; mkPairRow 2 2 1 (num 6) 2000 2025]
  ∧ twice updateFuku3Odds t312 t231 [] = Some [mkTripleRow 1 1 2 3 (num 8) 2000 2025].
Proof. by vm_compute. Qed.

(** ** Scratched horses *)

Lemma horseData_has_no_odds o : isHorseData o → prop o "odds" = JUndefined.
Proof. intros (? & ? & ? & ? & ? & ? & ? & ? & ? & ->). by vm_compute. Qed.

(** What the parser does say about a scratched horse. *)
Lemma horseData_cancelled horseId horseName frame tanOdds fukuMin fukuMax now raceId :
  let o := horseData horseId horseName frame true tanOdds fukuMin fukuMax now raceId in
  prop o "tanOdds" = JInt (-1) ∧ prop o "status" = JStr "scratched".
Proof. by vm_compute. Qed.

Lemma parseTanpukuRow_isHorseData js raceId now st row :
  Forall isHorseData (ps_oddsData st) →
  Forall isHorseData (ps_oddsData (parseTanpukuRow js raceId now st row)).
Proof.
  intros Hst. unfold parseTanpukuRow.
  destruct (tp_num row) as [horseNumber|]; [|done].
  destruct (_ || _); [done|]. case_bool_decide; [done|].
  destruct (numEq _ _); [done|]. simpl.
  apply Forall_app. split; [done|]. constructor; [|done].
  by eexists _, _, _, _, _, _, _, _, _.
Qed.

Lemma parseTanpukuOdds_isHorseData js rows raceId now :
  Forall isHorseData (parseTanpukuOdds js rows raceId now).
Proof.
  unfold parseTanpukuOdds.
  assert (Hgen : ∀ st, Forall isHorseData (ps_oddsData st) →
            Forall isHorseData
              (ps_oddsData (foldl (parseTanpukuRow js raceId now) st rows))).
  { induction rows as [|row rows IH]; intros st Hst; simpl; [done|].
    by apply IH, parseTanpukuRow_isHorseData. }
  by apply Hgen.
Qed.

(** [saveOddsHistory] writes the win history and the place table only. *)
Lemma saveOddsHistory_frame oddsData t :
  horses (saveOddsHistory oddsData t).1 = horses t
  ∧ sameCombinationTables t (saveOddsHistory oddsData t).1.
Proof.
  unfold saveOddsHistory, sameCombinationTables. cbv zeta.
  repeat case_match; by simpl.
Qed.

Lemma withDbRetry_returns {Db T : Type} (operation : Db → (T + JsError) * Db)
    (db db' : Db) (value : T) :
  operation db = (inl value, db') → withDbRetry operation db = (inl value, db', 0).
Proof.
  intros Hop. unfold withDbRetry. change (Z.to_nat MAX_RETRIES) with 3%nat.
  cbn [withDbRetryFrom]. by rewrite Hop.
Qed.

(** an operation that throws and leaves the database as it was throws three
    times *)
Lemma withDbRetry_throws {Db T : Type} (operation : Db → (T + JsError) * Db)
    (db : Db) (error : JsError) :
  operation db = (inr error, db) →
  withDbRetry operation db = (inr error, db, 2 * RETRY_DELAY).
Proof.
  intros Hop. unfold withDbRetry. change (Z.to_nat MAX_RETRIES) with 3%nat.
  cbn [withDbRetryFrom]. rewrite !Hop. by vm_compute.
Qed.

(** What the retried operation does for one quote: it throws and writes
    nothing, or it finds the horse, or it inserts it. *)
Lemma handleTanpukuOdd_retried raceId odd hs :
  let name := prop odd "horseName" in
  let marked := strictEq (prop odd "odds") CANCELLED in
  (thrownBy (withDbRetry (handleTanpukuOdd raceId odd) hs) = (hs, Some StoreError)
   ∧ ¬ (int8 raceId = true ∧ storableHorse odd))
  ∨ (∃ existingHorse,
       findHorse name raceId hs = Some existingHorse
       ∧ thrownBy (withDbRetry (handleTanpukuOdd raceId odd) hs)
         = (if marked && negb (bool_decide (h_status existingHorse = "scratched"))
            then scratch name raceId hs else hs, None))
  ∨ (findHorse name raceId hs = None
     ∧ thrownBy (withDbRetry (handleTanpukuOdd raceId odd) hs)
       = (hs ++ [mkHorseRow (nextSerial h_id hs) name raceId (prop odd "frame")
                            (prop odd "number")
                            (if marked then "scratched" else "running")], None)).
Proof.
  intros name marked. unfold storableHorse.
  destruct (int8 raceId && fitsText name) eqn:Hlookup.
  2: { left. split.
       - rewrite (withDbRetry_throws _ hs StoreError); [done|].
         unfold handleTanpukuOdd. fold name. by rewrite Hlookup.
       - intros (Hrace & Hname & _). fold name in Hname. by rewrite Hrace, Hname in Hlookup. }
  destruct (findHorse name raceId hs) as [existingHorse|] eqn:Hfind.
  - right. left. exists existingHorse. split; [done|].
    erewrite withDbRetry_returns; [done|].
    unfold handleTanpukuOdd. fold name marked. rewrite Hlookup, Hfind. cbn [negb].
    by destruct (marked && _).
  - destruct (fitsInteger (prop odd "frame") && fitsInteger (prop odd "number")) eqn:Hfits.
    + right. right. split; [done|].
      erewrite withDbRetry_returns; [done|].
      unfold handleTanpukuOdd. fold name marked. by rewrite Hlookup, Hfind, Hfits.
    + left. split.
      * rewrite (withDbRetry_throws _ hs StoreError); [done|].
        unfold handleTanpukuOdd. fold name. by rewrite Hlookup, Hfind, Hfits.
      * intros (_ & _ & Hframe & Hnumber). by rewrite Hframe, Hnumber in Hfits.
Qed.

Lemma findHorse_None name raceId hs :
  findHorse name raceId hs = None → (name, raceId) ∉ horseKey <$> hs.
Proof.
  unfold findHorse. intros Hnone%head_None (h & Hkey & Hin)%list_elem_of_fmap.
  assert (Hf : h ∈ filter (λ h, h_name h = name ∧ h_raceId h = raceId) hs).
  { apply list_elem_of_filter. split; [|done]. by injection Hkey as <- <-. }
  rewrite Hnone in Hf. by apply not_elem_of_nil in Hf.
Qed.

Lemma findHorse_Some name raceId hs h :
  findHorse name raceId hs = Some h → (name, raceId) ∈ horseKey <$> hs.
Proof.
  unfold findHorse. intros Hh%head_Some_elem_of.
  apply list_elem_of_filter in Hh as [[<- <-] Hin].
  by apply (list_elem_of_fmap_2 horseKey).
Qed.

(** A quote without the marker adds at most one row, which is running, and
    changes no row. *)
Lemma handleTanpukuOdd_appends raceId odd hs :
  strictEq (prop odd "odds") CANCELLED = false →
  ∃ new thrown,
    thrownBy (withDbRetry (handleTanpukuOdd raceId odd) hs) = (hs ++ new, thrown)
    ∧ Forall (insertedFor raceId odd) new
    ∧ (thrown = None → (prop odd "horseName", raceId) ∈ horseKey <$> (hs ++ new))
    ∧ (int8 raceId = true → storableHorse odd → thrown = None).
Proof.
  intros Hno.
  destruct (handleTanpukuOdd_retried raceId odd hs)
    as [[-> Hnot]|[(existingHorse & Hfind & ->)|[Hfind ->]]]; rewrite ?Hno; cbn [andb].
  - exists [], (Some StoreError). rewrite app_nil_r. split; [done|]. split; [done|].
    split; [done|]. intros Hrace Hodd. by destruct Hnot.
  - exists [], None. rewrite app_nil_r. split; [done|]. split; [done|].
    split; [|done]. intros _. by eapply findHorse_Some.
  - eexists [_], None. split; [done|]. split; [by repeat constructor|].
    split; [|done]. intros _. rewrite fmap_app. apply elem_of_app. right. by left.
Qed.

Lemma handleTanpukuOddsLoop_appends raceId odds : ∀ hs,
  Forall (λ o, strictEq (prop o "odds") CANCELLED = false) odds →
  ∃ new thrown,
    handleTanpukuOddsLoop raceId odds hs = (hs ++ new, thrown)
    ∧ Forall (λ h, ∃ o, o ∈ odds ∧ insertedFor raceId o h) new
    ∧ (thrown = None →
       Forall (λ o, (prop o "horseName", raceId) ∈ horseKey <$> (hs ++ new)) odds)
    ∧ (int8 raceId = true → Forall storableHorse odds → thrown = None).
Proof.
  induction odds as [|odd odds IH]; intros hs Hno.
  - exists [], None. by rewrite app_nil_r.
  - apply Forall_cons in Hno as [Hodd Hno]. cbn [handleTanpukuOddsLoop].
    destruct (handleTanpukuOdd_appends raceId odd hs Hodd)
      as (new1 & thrown1 & -> & Hnew1 & Hin1 & Hok1).
    destruct thrown1 as [error|].
    + exists new1, (Some error). split; [done|]. split; [|split; [done|]].
      * eapply Forall_impl; [exact Hnew1|]. intros h Hh. exists odd. split; [by left|done].
      * intros Hrace [Hodd' _]%Forall_cons. by specialize (Hok1 Hrace Hodd').
    + destruct (IH (hs ++ new1) Hno) as (new2 & thrown & -> & Hnew2 & Hin2 & Hok2).
      exists (new1 ++ new2), thrown. rewrite app_assoc. split; [done|]. split; [|split].
      * apply Forall_app. split.
        -- eapply Forall_impl; [exact Hnew1|]. intros h Hh. exists odd. split; [by left|done].
        -- eapply Forall_impl; [exact Hnew2|]. intros h (o & Ho & Hh). exists o.
           split; [by right|done].
      * intros Hnone. constructor; [|by apply Hin2].
        rewrite fmap_app. apply elem_of_app. left. by apply Hin1.
      * intros Hrace [_ Hodds]%Forall_cons. by apply Hok2.
Qed.

(** the horse rows [handleTanpukuOdds] leaves are those of its loop *)
Lemma handleTanpukuOdds_horses raceId odds t :
  horses (handleTanpukuOdds raceId odds t).1 = (handleTanpukuOddsLoop raceId odds (horses t)).1
  ∧ ((handleTanpukuOdds raceId odds t).2 = None →
     (handleTanpukuOddsLoop raceId odds (horses t)).2 = None).
Proof.
  unfold handleTanpukuOdds.
  destruct (handleTanpukuOddsLoop raceId odds (horses t)) as [hs [error|]]; [done|].
  split; [|done]. by rewrite (proj1 (saveOddsHistory_frame odds _)).
Qed.



(** The scratched horse of that page: the quote says scratched, the row
    stored for it says running. *)
Example scratched_horse_stored_as_running :
  let odds := parseTanpukuOdds digitsHost scratchedPage 2025 1000 in
  (λ o, prop o "status") <$> odds = [JStr "scratched"]
  ∧ (λ o, prop o "tanOdds") <$> odds = [JInt (-1)]
  ∧ (handleTanpukuOdds 2025 odds emptyTables).2 = None
  ∧ h_status <$> horses (handleTanpukuOdds 2025 odds emptyTables).1 = ["running"].
Proof. by vm_compute. Qed.


(** * Properties of the rest of the engine *)

(** ** Retried database operations *)

(** X1. [withDbRetry] calls the operation until it returns, three times at
    most, each call on the database the previous one left, and waits
    [RETRY_DELAY] between two calls.  Its outcome is the outcome of the last
    call: the value returned, or the error of the third call.  The error
    'Max retries exceeded' after the loop is never raised by [withDbRetry]
    itself. *)
Theorem withDbRetry_outcome {Db T} (operation : Db → (T + JsError) * Db) (db : Db) :
  ∃ (k : nat) (db_k : Db),
    (k < 3)%nat
    ∧ afterFailures k operation db = Some db_k
    ∧ withDbRetry operation db = (operation db_k, Z.of_nat k * RETRY_DELAY)
    ∧ (∀ error, (operation db_k).1 = inr error → k = 2%nat).
Proof.
  unfold withDbRetry. simpl.
  destruct (operation db) as [[v1|e1] db1] eqn:H1.
  { exists 0%nat, db. simpl. rewrite H1. split; [lia|]. by repeat split. }
  destruct (operation db1) as [[v2|e2] db2] eqn:H2.
  { exists 1%nat, db1. simpl. rewrite H1, H2. split; [lia|]. by repeat split. }
  destruct (operation db2) as [[v3|e3] db3] eqn:H3.
  { exists 2%nat, db2. simpl. rewrite H1, H2, H3. split; [lia|]. by repeat split. }
  exists 2%nat, db2. simpl. rewrite H1, H2, H3. split; [lia|]. by repeat split.
Qed.

Example withDbRetry_flakyLookup :
  withDbRetry flakyLookup 0%nat = (inl 7, 3%nat, 2 * RETRY_DELAY).
Proof. reflexivity. Qed.

(** ** The semaphore used in pairs *)

(** X2. The semaphore keeps its bounds as long as every release follows an
    acquire: from a state with [0 ≤ running ≤ 3] in which calls wait only when
    all three slots are taken, [acquire] leads to such a state and grants the
    slot exactly when one is free, and [release], called while a slot is
    taken, leads to such a state. *)
Theorem semaphore_keeps_bounds (m : Semaphore) (raceId : Z) :
  sem_ok m →
  sem_ok (acquire raceId m).1
  ∧ ((acquire raceId m).2 = true ↔ running m < maxConcurrent)
  ∧ (0 < running m → sem_ok (release m).1).
Proof.
  intros [Hb Hq]. unfold sem_ok, acquire, release, maxConcurrent in *.
  destruct (Z.ltb_spec (running m) 3) as [Hlt|Hge]; simpl.
  - split; [split; [lia|]|].
    { intros Hne. destruct (queue m) as [|x q] eqn:Hqm; [done|].
      specialize (Hq ltac:(done)). lia. }
    split; [done|]. intros Hpos.
    destruct (queue m) as [|x q] eqn:Hqm; simpl; [split; [lia|done]|].
    specialize (Hq ltac:(done)). lia.
  - assert (Hfull : running m = 3) by lia.
    split; [split; [lia|done]|]. split; [split; [done|lia]|]. intros _.
    destruct (queue m) as [|x q] eqn:Hqm; simpl; [split; [lia|done]|].
    destruct (Z.ltb_spec (running m - 1) 3); [|lia]. simpl.
    split; [lia|]. intros _. lia.
Qed.

Lemma semaphore_keeps_bounds_witness :
  sem_ok (acquire 202505021211 (mkSemaphore 2 [])).1
  ∧ ((acquire 202505021211 (mkSemaphore 2 [])).2 = true
     ↔ running (mkSemaphore 2 []) < maxConcurrent)
  ∧ (0 < running (mkSemaphore 2 []) → sem_ok (release (mkSemaphore 2 [])).1).
Proof.
  apply (semaphore_keeps_bounds (mkSemaphore 2 []) 202505021211).
  split; [by vm_compute|]. by intros [].
Defined.

Lemma acquireAll_full ids : ∀ m,
  running m = maxConcurrent →
  acquireAll ids m = mkSemaphore maxConcurrent (queue m ++ ids).
Proof.
  induction ids as [|raceId ids IH]; intros m Hfull; simpl.
  - rewrite app_nil_r. destruct m. simpl in *. by subst.
  - unfold acquireAll in *. simpl. unfold acquire at 2. rewrite Hfull. simpl.
    rewrite IH; [|done]. simpl. by rewrite <- app_assoc.
Qed.

Lemma releaseAll_full q :
  releaseAll (length q) (mkSemaphore maxConcurrent q) = (mkSemaphore maxConcurrent [], q).
Proof.
  induction q as [|raceId q IH]; simpl; [done|].
  change (maxConcurrent - 1 + 1) with maxConcurrent. by rewrite IH.
Qed.

(** X3. Calls that find every slot taken are resumed first come, first served:
    when the calls for [ids] queue up behind a full semaphore, the next
    [length ids] releases resume exactly these calls, in the order in which
    they asked, each one taking over the slot that was released, and the
    semaphore is full with nobody waiting again. *)
Theorem semaphore_resumes_in_order (ids : list Z) (m : Semaphore) :
  running m = maxConcurrent → queue m = [] →
  releaseAll (length ids) (acquireAll ids m) = (m, ids).
Proof.
  intros Hfull Hq. rewrite acquireAll_full by done. rewrite Hq. simpl.
  rewrite releaseAll_full. destruct m. simpl in *. by subst.
Qed.

Lemma semaphore_resumes_in_order_witness :
  releaseAll (length [11; 12; 13]) (acquireAll [11; 12; 13] (mkSemaphore 3 []))
  = (mkSemaphore 3 [], [11; 12; 13]).
Proof. by apply (semaphore_resumes_in_order [11; 12; 13] (mkSemaphore 3 [])). Defined.

(** ** Restarts of the process *)




(** ** The start time and the gate of a listed race *)

(** X5. For a grade race that the race list shows at [hours]:[minutes],
    [scheduleOddsCollection] places the gate where [getTodayGradeRaces] of
    the same process would place a start listed for 09:00 (supervisor
    revision) or 10:00 (daily revision) of the day before, whatever the zone
    of the process: the zone shifts the stored start and the gate alike.  In
    a process whose zone is UTC the supervisor revision stores the instant at
    which JST clocks show the listed time, and its gate is 09:00 JST of the
    day before. *)
Theorem gate_of_listed_race (v : Variant) (tz baseDate hours minutes id : Z)
    (name venue : string) :
  0 ≤ hours < 24 → 0 ≤ minutes < 60 →
  gateOf v tz (mkRaceInfo id name venue (listedStartTime v tz baseDate hours minutes) true)
  = Some (listedStartTime v tz (baseDate - DAY)
            (match v with Supervisor => 9 | Daily => 10 end) 0)
  ∧ listedStartTime Supervisor 0 baseDate hours minutes
    = jstInstant (baseDate / DAY) hours + minutes * MINUTE
  ∧ gateOf Supervisor 0
      (mkRaceInfo id name venue (listedStartTime Supervisor 0 baseDate hours minutes) true)
    = Some (gate_0900_JST_day_before (listedStartTime Supervisor 0 baseDate hours minutes)).
Proof.
  intros Hh Hm.
  assert (Hday : ∀ d x, 0 ≤ x < DAY → (d * DAY + x) / DAY = d).
  { intros d x Hx. unfold DAY, HOUR in *. rewrite Z.add_comm, Z.div_add by lia.
    rewrite Z.div_small by lia. lia. }
  assert (Hback : ∀ t, (t - DAY) / DAY = t / DAY - 1).
  { intros t. unfold DAY, HOUR.
    replace (t - 24 * (60 * 60 * 1000)) with (t + (-1) * (24 * (60 * 60 * 1000))) by lia.
    rewrite Z.div_add by lia. lia. }
  assert (Hin : 0 ≤ hours * HOUR + minutes * MINUTE < DAY)
    by (unfold DAY, HOUR, MINUTE; lia).
  split; [|split].
  - unfold gateOf. simpl. f_equal.
    destruct v; unfold listedStartTime, collectionStartTime, collectionStartTimeUTC,
      raceTime, raceTimeUTC, setHoursMinutes, setHours, setDatePrev.
    + replace ((baseDate + tz) / DAY * DAY + hours * HOUR + minutes * MINUTE - tz - DAY + tz)
        with (((baseDate + tz) / DAY - 1) * DAY + (hours * HOUR + minutes * MINUTE)) by lia.
      rewrite Hday by done.
      replace (baseDate - DAY + tz) with (baseDate + tz - DAY) by lia.
      rewrite Hback. unfold JST_OFFSET, HOUR, MINUTE. lia.
    + replace ((baseDate + tz) / DAY * DAY + hours * HOUR + minutes * MINUTE - tz
               - JST_OFFSET + JST_OFFSET - DAY + tz)
        with (((baseDate + tz) / DAY - 1) * DAY + (hours * HOUR + minutes * MINUTE)) by lia.
      rewrite Hday by done.
      replace (baseDate - DAY + tz) with (baseDate + tz - DAY) by lia.
      rewrite Hback. unfold JST_OFFSET, HOUR, MINUTE. lia.
  - unfold listedStartTime, raceTimeUTC, setHoursMinutes, jstInstant.
    rewrite Z.add_0_r. lia.
  - unfold gateOf. simpl. f_equal.
    unfold gate_0900_JST_day_before, jstDay, jstInstant, collectionStartTimeUTC,
      raceTimeUTC, setHoursMinutes, setHours, setDatePrev.
    rewrite !Z.add_0_r, !Z.sub_0_r.
    replace (baseDate / DAY * DAY + hours * HOUR + minutes * MINUTE - JST_OFFSET
             + JST_OFFSET - DAY)
      with ((baseDate / DAY - 1) * DAY + (hours * HOUR + minutes * MINUTE)) by lia.
    replace (baseDate / DAY * DAY + hours * HOUR + minutes * MINUTE - JST_OFFSET + JST_OFFSET)
      with (baseDate / DAY * DAY + (hours * HOUR + minutes * MINUTE)) by lia.
    rewrite !Hday by done. lia.
Qed.

(** Race A, listed for 15:40 on a page read on 1 June 2025 at 08:55 JST in a
    process whose zone is JST, by the daily revision. *)
Lemma gate_of_listed_race_witness :
  gateOf Daily JST_OFFSET
    (mkRaceInfo 202505021211 "Tokyo Yushun" "Tokyo"
       (listedStartTime Daily JST_OFFSET 1748735700000 15 40) true)
  = Some (listedStartTime Daily JST_OFFSET (1748735700000 - DAY) 10 0)
  ∧ listedStartTime Supervisor 0 1748735700000 15 40
    = jstInstant (1748735700000 / DAY) 15 + 40 * MINUTE
  ∧ gateOf Supervisor 0
      (mkRaceInfo 202505021211 "Tokyo Yushun" "Tokyo"
         (listedStartTime Supervisor 0 1748735700000 15 40) true)
    = Some (gate_0900_JST_day_before (listedStartTime Supervisor 0 1748735700000 15 40)).
Proof.
  apply (gate_of_listed_race Daily JST_OFFSET 1748735700000 15 40 202505021211
           "Tokyo Yushun" "Tokyo"); lia.
Defined.

(** ** Registration *)



(** ** Rounds that register and schedule *)

Lemma releaseIn_races v s : st_races (releaseIn v s) = st_races s.
Proof.
  destruct v; simpl; [done|]. unfold releaseSemaphore.
  destruct (release (st_sem s)) as [m [raceId|]]; done.
Qed.

(** The only change [collectOdds] makes to the race table is the status of
    its own race. *)
Lemma collectOdds_races v fuel w raceId now s s' :
  collectOdds v fuel w raceId now s = Finished s' →
  st_races s' = st_races s ∨ st_races s' = alter (setStatus "done") raceId (st_races s).
Proof.
  assert (Hheld : ∀ s0, st_races s0 = st_races s →
            collectOddsHeld v fuel w raceId now s0 = Finished s' →
            st_races s' = st_races s
            ∨ st_races s' = alter (setStatus "done") raceId (st_races s)).
  { intros s0 Hs0. unfold collectOddsHeld. intros Hrun.
    apply andThen_finished in Hrun as (s1 & Htry & [= <-]).
    rewrite releaseIn_races. revert Htry. unfold collectOddsTry.
    set (s00 := logEvent (EvLookup raceId) s0).
    assert (Hpass : ∀ s2, collectionPass fuel w raceId betTypes s00 = Finished s2 →
                          st_races s2 = st_races s).
    { intros s2 Hp.
      apply collectionPass_finished in Hp as (? & ? & (_&_&_&->&_&_) & _). done. }
    destruct (st_races s00 !! raceId) as [race|].
    2: { intros [= <-]. rewrite releaseIn_races. by left. }
    case_bool_decide.
    { intros [= <-]. rewrite releaseIn_races. by left. }
    destruct (_ && _); [|intros Hp; left; by apply Hpass].
    intros Hrun. apply andThen_finished in Hrun as (s2 & Hp & [= <-]).
    rewrite releaseIn_races. simpl. right. by rewrite (Hpass _ Hp). }
  unfold collectOdds. destruct v; [by apply Hheld|].
  destruct (acquire raceId (st_sem s)) as [m [|]]; [|done].
  intros Hrun. by apply Hheld in Hrun.
Qed.

Lemma races_after_collectOdds (m m' : gmap Z Race) raceId :
  m' = m ∨ m' = alter (setStatus "done") raceId m →
  (∀ id, id ≠ raceId → m' !! id = m !! id)
  ∧ (∀ id, is_Some (m' !! id) ↔ is_Some (m !! id)).
Proof.
  intros [->| ->]; [done|]. split.
  - intros id Hid. by rewrite lookup_alter_ne.
  - intros id. rewrite lookup_alter. case_decide; [subst|done].
    by rewrite fmap_is_Some.
Qed.

(** What a call of [scheduleOddsCollection] that returns has done. *)
Lemma scheduleOddsCollection_effect v tz fuel w race now s s' :
  scheduleOddsCollection v tz fuel w race now s = Finished s' →
  st_jobs s' = <[ri_id race := mkJob race (gateOf v tz race) false]> (st_jobs s)
  ∧ (st_races s' = st_races s
     ∨ st_races s' = alter (setStatus "done") (ri_id race) (st_races s)).
Proof.
  unfold scheduleOddsCollection. simpl. rewrite insert_delete_eq.
  destruct (collectsAtOnce _ _ _).
  - intros Hrun. split.
    + by apply collectOdds_keeps_jobs in Hrun.
    + by apply collectOdds_races in Hrun.
  - intros [= <-]. split; [done|by left].
Qed.

(** The semaphore does not stand in the way: the revision has none, or a
    slot is free and nobody waits. *)
Lemma collectOdds_finishes v fuel w raceId now s :
  never_empty w → (3 ≤ fuel)%nat → v = Daily ∨ sem_free s →
  ∃ s', collectOdds v fuel w raceId now s = Finished s' ∧ (v = Daily ∨ sem_free s').
Proof.
  intros Hne Hfuel [->|Hfree].
  - destruct (collectOddsHeld_terminates Daily fuel w raceId now s Hne Hfuel) as (s' & Hrun).
    exists s'. split; [done|by left].
  - destruct (collectOdds_returns v fuel w raceId now s Hne Hfuel Hfree) as (s' & Hrun & _ & Hfree').
    exists s'. split; [done|by right].
Qed.

Lemma scheduleOddsCollection_finishes v tz fuel w race now s :
  never_empty w → (3 ≤ fuel)%nat → v = Daily ∨ sem_free s →
  ∃ s', scheduleOddsCollection v tz fuel w race now s = Finished s'
        ∧ (v = Daily ∨ sem_free s').
Proof.
  intros Hne Hfuel Hsem. unfold scheduleOddsCollection.
  destruct (collectsAtOnce _ _ _); [|by eexists].
  by apply collectOdds_finishes.
Qed.

Lemma registerAndSchedule_finishes v tz fuel w now :
  never_empty w → (3 ≤ fuel)%nat →
  ∀ races s, v = Daily ∨ sem_free s →
    ∃ s', registerAndSchedule v tz fuel w now races s = Finished s'.
Proof.
  intros Hne Hfuel. induction races as [|race rest IH]; intros s Hsem; simpl; [by eexists|].
  destruct (scheduleOddsCollection_finishes v tz fuel w race now (registerRace race s))
    as (s1 & -> & Hsem1); [done..| |by apply IH].
  destruct Hsem as [?|Hfree]; [by left|right].
  unfold registerRace. by destruct (st_races s !! ri_id race).
Qed.





(** ** The sweep of the daily revision *)

Lemma checkRaces_finishes tz fuel w now :
  never_empty w → (3 ≤ fuel)%nat →
  ∀ rs s, ∃ s', checkRaces tz fuel w now rs s = Finished s'.
Proof.
  intros Hne Hfuel. induction rs as [|[id race] rest IH]; intros s; simpl; [by eexists|].
  destruct (_ <? _); [apply IH|].
  destruct (match st_jobs s !! id with Some job => job_cancelled job | None => true end);
    [|apply IH].
  destruct (scheduleOddsCollection_finishes Daily tz fuel w (restoredRaceInfo Daily id race)
              now s Hne Hfuel) as (s1 & -> & _); [by left|]. apply IH.
Qed.

Lemma checkRaces_effect tz fuel w now : ∀ rs s s',
  NoDup rs.*1 →
  checkRaces tz fuel w now rs s = Finished s' →
  (∀ id, id ∉ rs.*1 →
     st_jobs s' !! id = st_jobs s !! id ∧ st_races s' !! id = st_races s !! id)
  ∧ (∀ id race, (id, race) ∈ rs →
       if bool_decide (race_startTime race + RACE_COMPLETION_WINDOW < now)
       then st_races s' !! id = setStatus "done" <$> st_races s !! id
            ∧ st_jobs s' !! id = None
       else ∃ job, st_jobs s' !! id = Some job ∧ job_cancelled job = false).
Proof.
  induction rs as [|[id0 race0] rest IH]; intros s s' Hnodup; simpl.
  { intros [= <-]. split; [done|]. by intros ? ? ?%elem_of_nil. }
  apply NoDup_cons in Hnodup as [Hfresh Hnodup].
  (* what is left to show once the head has been dealt with *)
  assert (Hstep : ∀ s1,
    checkRaces tz fuel w now rest s1 = Finished s' →
    (∀ id, id ≠ id0 →
       st_jobs s1 !! id = st_jobs s !! id ∧ st_races s1 !! id = st_races s !! id) →
    (if bool_decide (race_startTime race0 + RACE_COMPLETION_WINDOW < now)
     then st_races s1 !! id0 = setStatus "done" <$> st_races s !! id0
          ∧ st_jobs s1 !! id0 = None
     else ∃ job, st_jobs s1 !! id0 = Some job ∧ job_cancelled job = false) →
    (∀ id, id ∉ id0 :: rest.*1 →
       st_jobs s' !! id = st_jobs s !! id ∧ st_races s' !! id = st_races s !! id)
    ∧ (∀ id race, (id, race) ∈ (id0, race0) :: rest →
         if bool_decide (race_startTime race + RACE_COMPLETION_WINDOW < now)
         then st_races s' !! id = setStatus "done" <$> st_races s !! id
              ∧ st_jobs s' !! id = None
         else ∃ job, st_jobs s' !! id = Some job ∧ job_cancelled job = false)).
  { intros s1 Hrest Hother Hhead.
    destruct (IH s1 s' Hnodup Hrest) as [Hout Hin]. split.
    - intros id [Hid Hnotin]%not_elem_of_cons.
      destruct (Hout id Hnotin) as [-> ->]. by apply Hother.
    - intros id race [[= -> ->]|Hin']%elem_of_cons.
      + destruct (Hout id0 Hfresh) as [-> ->]. done.
      + assert (Hid : id ≠ id0).
        { intros ->. apply Hfresh. apply list_elem_of_fmap. by exists (id0, race). }
        specialize (Hin id race Hin'). destruct (Hother id Hid) as [_ <-]. done. }
  destruct (Z.ltb_spec (race_startTime race0 + RACE_COMPLETION_WINDOW) now) as [Hover|Hnot].
  - intros Hrest. apply (Hstep _ Hrest); simpl.
    + intros id Hid. by rewrite lookup_delete_ne, lookup_alter_ne.
    + rewrite bool_decide_eq_true_2 by done.
      by rewrite lookup_delete_eq, lookup_alter_eq.
  - destruct (match st_jobs s !! id0 with Some job => job_cancelled job | None => true end)
      eqn:Hre.
    + intros Hrun. apply andThen_finished in Hrun as (s1 & Hsched & Hrest).
      apply scheduleOddsCollection_effect in Hsched as [Hjobs1 Hraces1].
      apply races_after_collectOdds in Hraces1 as [Hraces1 _]. simpl in *.
      apply (Hstep _ Hrest).
      * intros id Hid. by rewrite Hjobs1, lookup_insert_ne, Hraces1.
      * rewrite bool_decide_eq_false_2 by lia. eexists.
        by rewrite Hjobs1, lookup_insert_eq.
    + intros Hrest. apply (Hstep _ Hrest); [done|].
      rewrite bool_decide_eq_false_2 by lia.
      destruct (st_jobs s !! id0) as [job|]; [by exists job|done].
Qed.

(** X8. [checkUpcomingRaces] of the daily revision, on a site that never
    answers with an empty array, returns; it retires every upcoming race
    that is more than 30 minutes past its start, setting its status to done
    and removing its timer, and it leaves every other upcoming race with a
    live timer. *)
Theorem checkUpcomingRaces_retires_overdue tz fuel w rows now s :
  never_empty w → (3 ≤ fuel)%nat →
  ∃ s', checkUpcomingRaces tz fuel w rows now s = Finished s'
        ∧ ∀ id race,
            st_races s !! id = Some race → race_status race = "upcoming" →
            if bool_decide (race_startTime race + RACE_COMPLETION_WINDOW < now)
            then st_races s' !! id = Some (setStatus "done" race)
                 ∧ st_jobs s' !! id = None
            else ∃ job, st_jobs s' !! id = Some job ∧ job_cancelled job = false.
Proof.
  intros Hne Hfuel. unfold checkUpcomingRaces.
  set (s0 := checkAndRestoreJobs s).
  assert (Hin : ∀ id race, st_races s !! id = Some race → race_status race = "upcoming" →
                           (id, race) ∈ upcomingRaces s0).
  { intros id race Hrace Hup. unfold upcomingRaces. apply list_elem_of_filter.
    split; [done|]. by apply elem_of_map_to_list. }
  case_bool_decide as Hlen.
  - assert (Hnone : ∀ id race, st_races s !! id = Some race →
                               race_status race = "upcoming" → False).
    { intros id race Hrace Hup. apply nil_length_inv in Hlen.
      specialize (Hin id race Hrace Hup). rewrite Hlen in Hin. by apply elem_of_nil in Hin. }
    destruct (getTodayGradeRaces rows s0) as [s1 freshRaces].
    case_bool_decide.
    + destruct (registerAndSchedule_finishes Daily tz fuel w now Hne Hfuel freshRaces s1)
        as (s' & Hrun); [by left|].
      exists s'. split; [done|]. intros id race Hrace Hup. by destruct (Hnone id race).
    + exists s1. split; [done|]. intros id race Hrace Hup. by destruct (Hnone id race).
  - destruct (checkRaces_finishes tz fuel w now Hne Hfuel (upcomingRaces s0) s0) as (s' & Hrun).
    exists s'. split; [done|].
    apply checkRaces_effect in Hrun as [_ Heff].
    2: { eapply sublist_NoDup; [apply (NoDup_fst_map_to_list (st_races s0))|].
         apply fmap_sublist, sublist_filter. }
    intros id race Hrace Hup. specialize (Heff id race (Hin id race Hrace Hup)).
    change (st_races s0) with (st_races s) in Heff. by rewrite Hrace in Heff.
Qed.

(** 1 June 2025, 16:00 JST: race B (10:00) is overdue, race A (15:40) is
    not. *)
Lemma checkUpcomingRaces_retires_overdue_witness :
  ∃ s', checkUpcomingRaces 0 3 steadySite [] 1748761200000
          (registerRace raceA (registerRace raceB initialState)) = Finished s'
        ∧ ∀ id race,
            st_races (registerRace raceA (registerRace raceB initialState)) !! id = Some race →
            race_status race = "upcoming" →
            if bool_decide (race_startTime race + RACE_COMPLETION_WINDOW < 1748761200000)
            then st_races s' !! id = Some (setStatus "done" race)
                 ∧ st_jobs s' !! id = None
            else ∃ job, st_jobs s' !! id = Some job ∧ job_cancelled job = false.
Proof.
  apply (checkUpcomingRaces_retires_overdue 0 3%nat steadySite [] 1748761200000
           (registerRace raceA (registerRace raceB initialState))).
  - exact never_empty_steadySite.
  - reflexivity.
Defined.

Example checkUpcomingRaces_sweep :
  let s' := stateOf (checkUpcomingRaces 0 3 steadySite [] 1748761200000
                       (registerRace raceA (registerRace raceB initialState))) in
  race_status <$> st_races s' !! ri_id raceB = Some "done"
  ∧ st_jobs s' !! ri_id raceB = None
  ∧ race_status <$> st_races s' !! ri_id raceA = Some "done"
  ∧ is_Some (st_jobs s' !! ri_id raceA).
Proof. vm_compute. repeat split; eauto. Qed.

(** ** Race ids *)

(** *** Decimal digits *)

Lemma string_app_assoc (s1 s2 s3 : string) : (s1 +:+ s2) +:+ s3 = s1 +:+ s2 +:+ s3.
Proof.
  induction s1 as [|c s1 IH]; [done|].
  change (String c ((s1 +:+ s2) +:+ s3) = String c (s1 +:+ s2 +:+ s3)). by f_equal.
Qed.

Lemma string_app_nil_r (s : string) : s +:+ "" = s.
Proof.
  induction s as [|c s IH]; [done|]. change (String c (s +:+ "") = String c s). by f_equal.
Qed.

Lemma string_of_list_ascii_snoc (l : list ascii) (c : ascii) (s : string) :
  String.string_of_list_ascii (l ++ [c]) +:+ s
  = String.string_of_list_ascii l +:+ String c s.
Proof.
  induction l as [|c' l IH]; [done|].
  change (String c' (String.string_of_list_ascii (l ++ [c]) +:+ s)
          = String c' (String.string_of_list_ascii l +:+ String c s)).
  by f_equal.
Qed.

Lemma pretty_N_go_app (x : N) : ∀ s, pretty_N_go x s = pretty_N_go x "" +:+ s.
Proof.
  induction (N.lt_wf_0 x) as [x _ IH]. intros s.
  destruct (decide (x = 0)%N) as [->|Hx]; [by rewrite !pretty_N_go_0|].
  rewrite (pretty_N_go_step x s), (pretty_N_go_step x "") by lia.
  rewrite (IH (x `div` 10)%N) by (apply N.div_lt; lia).
  rewrite (IH (x `div` 10)%N ltac:(apply N.div_lt; lia) (String _ "")).
  by rewrite string_app_assoc.
Qed.

Lemma pretty_N_go_digits (ds : list N) : ∀ (acc : N) s,
  (0 < acc)%N → Forall (λ d, d < 10)%N ds →
  pretty_N_go (digitsValue10 acc ds) s = pretty_N_go acc (digitsText ds +:+ s).
Proof.
  induction ds as [|d ds IH] using rev_ind; intros acc s Hacc Hds; [done|].
  apply Forall_app in Hds as [Hds Hd]. apply Forall_cons in Hd as [Hd _].
  unfold digitsValue10, digitsText in *. rewrite foldl_app, fmap_app. simpl.
  set (x := foldl (λ acc d, 10 * acc + d)%N acc ds) in *.
  assert (Hx : (0 < x)%N).
  { clear IH Hds. subst x. revert acc Hacc. induction ds as [|d' ds IH]; intros acc Hacc; [done|].
    simpl. apply IH. lia. }
  rewrite pretty_N_go_step by lia.
  replace ((10 * x + d) `div` 10)%N with x.
  2: { apply (N.div_unique (10 * x + d) 10 x d); lia. }
  replace ((10 * x + d) `mod` 10)%N with d.
  2: { apply (N.mod_unique (10 * x + d) 10 x d); lia. }
  subst x. rewrite IH by done. by rewrite string_of_list_ascii_snoc.
Qed.

(** a number written with its digits, the first of which is not 0 *)
Lemma pretty_digits (d : N) (ds : list N) :
  (0 < d < 10)%N → Forall (λ d, d < 10)%N ds →
  pretty (digitsValue10 d ds) = digitsText (d :: ds).
Proof.
  intros Hd Hds. unfold pretty, pretty_N.
  assert (Hpos : (0 < digitsValue10 d ds)%N).
  { clear Hds. assert (Hd' : (0 < d)%N) by lia. clear Hd. revert d Hd'.
    induction ds as [|d' ds IH]; intros d Hd; [done|]. simpl. apply IH. lia. }
  case_decide; [lia|].
  rewrite pretty_N_go_digits by (done || lia).
  rewrite pretty_N_go_step by lia.
  rewrite N.div_small, N.mod_small by lia. rewrite pretty_N_go_0.
  by rewrite string_app_nil_r.
Qed.

Lemma pretty_Z_of_N (x : N) : pretty (Z.of_N x) = pretty x.
Proof. by destruct x. Qed.

Lemma digitOf_pretty_N_char (d : N) :
  (d < 10)%N → digitOf 10 (pretty_N_char d) = Some (Z.of_N d).
Proof.
  intros Hd.
  assert (d = 0 ∨ d = 1 ∨ d = 2 ∨ d = 3 ∨ d = 4 ∨ d = 5 ∨ d = 6 ∨ d = 7 ∨ d = 8 ∨ d = 9)%N
    as Hcases by lia.
  repeat (destruct Hcases as [-> | Hcases]; [done|]). by subst.
Qed.

Lemma digitsText_cons (d : N) (ds : list N) :
  digitsText (d :: ds) = String (pretty_N_char d) (digitsText ds).
Proof. done. Qed.

Lemma digitsPrefix_digits (ds : list N) : ∀ acc : Z,
  0 ≤ acc → Forall (λ d, d < 10)%N ds →
  digitsPrefix 10 (Some acc) (digitsText ds)
  = Some (Z.of_N (digitsValue10 (Z.to_N acc) ds)).
Proof.
  induction ds as [|d ds IH]; intros acc Hacc Hds.
  { simpl. f_equal. lia. }
  apply Forall_cons in Hds as [Hd Hds].
  rewrite digitsText_cons. simpl. rewrite digitOf_pretty_N_char by done.
  rewrite IH by (done || lia). do 3 f_equal. lia.
Qed.

(** [parseInt] of a text of decimal digits *)
Lemma jsParseInt_digits (d : N) (ds : list N) :
  (d < 10)%N → Forall (λ d, d < 10)%N ds →
  jsParseInt (digitsText (d :: ds)) = Some (Z.of_N (digitsValue10 d ds)).
Proof.
  intros Hd Hds. rewrite digitsText_cons.
  assert (Hrest : ∀ acc, 0 ≤ acc →
            Z.mul 1 <$> digitsPrefix 10 (Some acc) (digitsText ds)
            = Some (Z.of_N (digitsValue10 (Z.to_N acc) ds))).
  { intros acc Hacc. rewrite digitsPrefix_digits by done. simpl. f_equal. lia. }
  assert (d = 0 ∨ d = 1 ∨ d = 2 ∨ d = 3 ∨ d = 4 ∨ d = 5 ∨ d = 6 ∨ d = 7 ∨ d = 8 ∨ d = 9)%N
    as Hcases by lia.
  destruct Hcases as [-> | Hcases].
  - (* a leading 0 is followed by a digit or by nothing, not by x *)
    destruct ds as [|d' ds']; [done|].
    apply Forall_cons in Hds as [Hd' Hds'].
    assert (d' = 0 ∨ d' = 1 ∨ d' = 2 ∨ d' = 3 ∨ d' = 4 ∨ d' = 5 ∨ d' = 6 ∨ d' = 7
            ∨ d' = 8 ∨ d' = 9)%N as Hcases' by lia.
    repeat (destruct Hcases' as [-> | Hcases']; [by apply (Hrest 0)|]).
    subst. by apply (Hrest 0).
  - repeat (destruct Hcases as [-> | Hcases]; [by apply Hrest|]).
    subst. by apply Hrest.
Qed.

(** *** The parts of an id *)

Lemma pretty_one_digit (x : Z) :
  0 ≤ x ≤ 9 → pretty x = digitsText [Z.to_N x].
Proof.
  intros Hx. destruct (decide (x = 0)) as [->|Hne]; [done|].
  rewrite <- (Z2N.id x) at 1 by lia. rewrite pretty_Z_of_N.
  by rewrite <- (pretty_digits (Z.to_N x) []) by (done || lia).
Qed.

Lemma padStart_two_digits (x : Z) :
  0 ≤ x ≤ 99 →
  padStart 2 "0"%char (pretty x) = digitsText [Z.to_N (x / 10); Z.to_N (x mod 10)]
  ∧ (Z.to_N (x / 10) < 10)%N ∧ (Z.to_N (x mod 10) < 10)%N
  ∧ Z.of_N (digitsValue10 (Z.to_N (x / 10)) [Z.to_N (x mod 10)]) = x
  ∧ jsParseInt (digitsText [Z.to_N (x / 10); Z.to_N (x mod 10)]) = Some x.
Proof.
  intros Hx.
  assert (Hd1 : (Z.to_N (x / 10) < 10)%N) by (Z.to_euclidean_division_equations; lia).
  assert (Hd2 : (Z.to_N (x mod 10) < 10)%N) by (Z.to_euclidean_division_equations; lia).
  assert (Hval : Z.of_N (digitsValue10 (Z.to_N (x / 10)) [Z.to_N (x mod 10)]) = x).
  { unfold digitsValue10. simpl. Z.to_euclidean_division_equations; lia. }
  split; [|split; [done|split; [done|split; [done|]]]].
  - destruct (decide (x < 10)) as [Hlt|Hge].
    + rewrite pretty_one_digit by lia.
      replace (x / 10) with 0 by (Z.to_euclidean_division_equations; lia).
      replace (x mod 10) with x by (Z.to_euclidean_division_equations; lia).
      done.
    + rewrite <- Hval at 1. rewrite pretty_Z_of_N, pretty_digits.
      * done.
      * Z.to_euclidean_division_equations; lia.
      * by apply Forall_singleton.
  - rewrite jsParseInt_digits by (done || by apply Forall_singleton). by rewrite Hval.
Qed.

Lemma pretty_year (year : Z) :
  1000 ≤ year ≤ 9999 →
  ∃ y1 y2 y3 y4 : N,
    (0 < y1 < 10)%N ∧ (y2 < 10)%N ∧ (y3 < 10)%N ∧ (y4 < 10)%N
    ∧ pretty year = digitsText [y1; y2; y3; y4].
Proof.
  intros Hy.
  exists (Z.to_N (year / 1000)), (Z.to_N (year / 100 mod 10)),
         (Z.to_N (year / 10 mod 10)), (Z.to_N (year mod 10)).
  split; [Z.to_euclidean_division_equations; lia|].
  split; [Z.to_euclidean_division_equations; lia|].
  split; [Z.to_euclidean_division_equations; lia|].
  split; [Z.to_euclidean_division_equations; lia|].
  rewrite <- pretty_digits.
  - rewrite <- pretty_Z_of_N. f_equal. unfold digitsValue10. simpl.
    Z.to_euclidean_division_equations; lia.
  - Z.to_euclidean_division_equations; lia.
  - repeat constructor; Z.to_euclidean_division_equations; lia.
Qed.

(** What the two functions do with a venue whose code is the digits
    [c1 c2]. *)
Lemma race_id_parts (year k n r : Z) (venue : string) (c1 c2 : N) :
  1000 ≤ year ≤ 9999 → 0 ≤ k ≤ 99 → 0 ≤ n ≤ 99 → 0 ≤ r ≤ 99 →
  (c1 < 10)%N → (c2 < 10)%N →
  getVenueCode venue = digitsText [c1; c2] →
  ∃ raceId,
    raceIdOf year venue (pretty k) (pretty n) (Some r) = Some raceId
    ∧ kaisaiNameOfId raceId
      = pretty k +:+ "回" +:+ textOf (placeMapping !! digitsText [c1; c2])
        +:+ pretty n +:+ "日"
    ∧ raceNumberOfId raceId = Some r.
Proof.
  intros Hyear Hk Hn Hr Hc1 Hc2 Hcode.
  destruct (pretty_year year Hyear) as (y1 & y2 & y3 & y4 & Hy1 & Hy2 & Hy3 & Hy4 & Hpy).
  destruct (padStart_two_digits k Hk) as (Hpk & Hk1 & Hk2 & _ & Hparsek).
  destruct (padStart_two_digits n Hn) as (Hpn & Hn1 & Hn2 & _ & Hparsen).
  destruct (padStart_two_digits r Hr) as (Hpr & Hr1 & Hr2 & _ & Hparser).
  set (k1 := Z.to_N (k / 10)) in *. set (k2 := Z.to_N (k mod 10)) in *.
  set (n1 := Z.to_N (n / 10)) in *. set (n2 := Z.to_N (n mod 10)) in *.
  set (r1 := Z.to_N (r / 10)) in *. set (r2 := Z.to_N (r mod 10)) in *.
  set (rest := [y2; y3; y4; c1; c2; k1; k2; n1; n2; r1; r2]).
  assert (Hrest : Forall (λ d, d < 10)%N rest) by (repeat constructor; done).
  exists (Z.of_N (digitsValue10 y1 rest)).
  assert (Hid : raceIdOf year venue (pretty k) (pretty n) (Some r)
                = Some (Z.of_N (digitsValue10 y1 rest))).
  { unfold raceIdOf. simpl intToString. rewrite Hcode, Hpy, Hpk, Hpn, Hpr.
    rewrite <- (jsParseInt_digits y1 rest) by (done || lia). done. }
  split; [done|].
  assert (Hstr : pretty (Z.of_N (digitsValue10 y1 rest)) = digitsText (y1 :: rest)).
  { rewrite pretty_Z_of_N. by apply pretty_digits. }
  unfold kaisaiNameOfId, raceNumberOfId. rewrite Hstr.
  change (slice 6 8 (digitsText (y1 :: rest))) with (digitsText [k1; k2]).
  change (slice 8 10 (digitsText (y1 :: rest))) with (digitsText [n1; n2]).
  change (slice 4 6 (digitsText (y1 :: rest))) with (digitsText [c1; c2]).
  change (slice 10 12 (digitsText (y1 :: rest))) with (digitsText [r1; r2]).
  by rewrite Hparsek, Hparsen, Hparser.
Qed.

Lemma venueMap_codes (venue code : string) :
  venueMap !! venue = Some code →
  ∃ c1 c2 : N, (c1 < 10)%N ∧ (c2 < 10)%N
    ∧ code = digitsText [c1; c2]
    ∧ getVenueCode venue = code
    ∧ placeMapping !! code = Some venue.
Proof.
  intros Hcode. unfold getVenueCode. rewrite Hcode.
  unfold venueMap in Hcode. apply elem_of_list_to_map_2 in Hcode.
  repeat (apply elem_of_cons in Hcode as [[= -> ->]|Hcode];
          [first [by exists 0%N, 1%N | by exists 0%N, 2%N | by exists 0%N, 3%N
                 | by exists 0%N, 4%N | by exists 0%N, 5%N | by exists 0%N, 6%N
                 | by exists 0%N, 7%N | by exists 0%N, 8%N | by exists 0%N, 9%N
                 | by exists 1%N, 0%N]|]).
  by apply elem_of_nil in Hcode.
Qed.

(** X11. For a venue of the table, the id that [getTodayGradeRaces] builds
    leads [navigateToRacePage] back to the race it was built for: from the
    id of race [r] of the meeting linked as [k]回[venue][n]日, with a year of
    four digits and [k], [n], [r] below 100, [navigateToRacePage] looks for
    a link of exactly that name and then for race [r].  The two venue tables
    are inverse to each other on the codes used. *)
Theorem race_id_round_trip (year k n r : Z) (venue code : string) :
  1000 ≤ year ≤ 9999 → 0 ≤ k ≤ 99 → 0 ≤ n ≤ 99 → 0 ≤ r ≤ 99 →
  venueMap !! venue = Some code →
  ∃ raceId,
    raceIdOf year venue (pretty k) (pretty n) (Some r) = Some raceId
    ∧ kaisaiNameOfId raceId = kaisaiName (pretty k) venue (pretty n)
    ∧ raceNumberOfId raceId = Some r.
Proof.
  intros Hyear Hk Hn Hr Hvenue.
  destruct (venueMap_codes venue code Hvenue) as (c1 & c2 & Hc1 & Hc2 & -> & Hget & Hplace).
  destruct (race_id_parts year k n r venue c1 c2) as (raceId & Hid & Hname & Hnum); try done.
  exists raceId. split; [done|]. split; [|done].
  by rewrite Hname, Hplace.
Qed.

(** Race 11 of the day 12 of meeting 2 at Tokyo in 2025 is race A. *)
Lemma race_id_round_trip_witness :
  ∃ raceId,
    raceIdOf 2025 "東京" (pretty 2) (pretty 12) (Some 11) = Some raceId
    ∧ kaisaiNameOfId raceId = kaisaiName (pretty 2) "東京" (pretty 12)
    ∧ raceNumberOfId raceId = Some 11.
Proof.
  apply (race_id_round_trip 2025 2 12 11 "東京" "05"); [lia..|reflexivity].
Defined.

Example raceA_id :
  raceIdOf 2025 "東京" "2" "12" (Some 11) = Some (ri_id raceA)
  ∧ kaisaiNameOfId (ri_id raceA) = "2回東京12日".
Proof. by vm_compute. Qed.

(** the digits of a year, with the number they stand for *)
Lemma pretty_year_value (year : Z) :
  1000 ≤ year ≤ 9999 →
  ∃ y1 y2 y3 y4 : N,
    (0 < y1 < 10)%N ∧ (y2 < 10)%N ∧ (y3 < 10)%N ∧ (y4 < 10)%N
    ∧ pretty year = digitsText [y1; y2; y3; y4]
    ∧ Z.of_N (digitsValue10 y1 [y2; y3; y4]) = year.
Proof.
  intros Hy.
  exists (Z.to_N (year / 1000)), (Z.to_N (year / 100 mod 10)),
         (Z.to_N (year / 10 mod 10)), (Z.to_N (year mod 10)).
  assert (Hvalue : Z.of_N (digitsValue10 (Z.to_N (year / 1000))
                             [Z.to_N (year / 100 mod 10); Z.to_N (year / 10 mod 10);
                              Z.to_N (year mod 10)]) = year).
  { unfold digitsValue10. simpl. Z.to_euclidean_division_equations; lia. }
  split; [Z.to_euclidean_division_equations; lia|].
  split; [Z.to_euclidean_division_equations; lia|].
  split; [Z.to_euclidean_division_equations; lia|].
  split; [Z.to_euclidean_division_equations; lia|].
  split; [|done].
  rewrite <- pretty_digits.
  - by rewrite <- pretty_Z_of_N, Hvalue.
  - Z.to_euclidean_division_equations; lia.
  - repeat constructor; Z.to_euclidean_division_equations; lia.
Qed.

Lemma digitsText_app_cons (d : N) (ds : list N) (s : string) :
  digitsText (d :: ds) +:+ s = String (pretty_N_char d) (digitsText ds +:+ s).
Proof. done. Qed.

(** [parseInt] stops at the first character that is no digit *)
Lemma digitsPrefix_stops (ds : list N) (c : ascii) (rest : string) : ∀ acc : Z,
  0 ≤ acc → Forall (λ d, d < 10)%N ds → digitOf 10 c = None →
  digitsPrefix 10 (Some acc) (digitsText ds +:+ String c rest)
  = Some (Z.of_N (digitsValue10 (Z.to_N acc) ds)).
Proof.
  induction ds as [|d ds IH]; intros acc Hacc Hds Hc.
  { change (digitsText [] +:+ String c rest) with (String c rest).
    cbn [digitsPrefix]. rewrite Hc. unfold digitsValue10. simpl. f_equal. lia. }
  apply Forall_cons in Hds as [Hd Hds].
  rewrite digitsText_app_cons. cbn [digitsPrefix]. rewrite digitOf_pretty_N_char by done.
  simpl. rewrite IH by (done || lia). do 3 f_equal. lia.
Qed.

Lemma jsParseInt_stops (d : N) (ds : list N) (c : ascii) (rest : string) :
  (0 < d < 10)%N → Forall (λ d, d < 10)%N ds → digitOf 10 c = None →
  jsParseInt (digitsText (d :: ds) +:+ String c rest) = Some (Z.of_N (digitsValue10 d ds)).
Proof.
  intros Hd Hds Hc. rewrite digitsText_app_cons.
  assert (Hrest : ∀ acc, 0 ≤ acc →
            Z.mul 1 <$> digitsPrefix 10 (Some acc) (digitsText ds +:+ String c rest)
            = Some (Z.of_N (digitsValue10 (Z.to_N acc) ds))).
  { intros acc Hacc. rewrite digitsPrefix_stops by done. simpl. f_equal. lia. }
  assert (d = 1 ∨ d = 2 ∨ d = 3 ∨ d = 4 ∨ d = 5 ∨ d = 6 ∨ d = 7 ∨ d = 8 ∨ d = 9)%N
    as Hcases by lia.
  repeat (destruct Hcases as [-> | Hcases]; [by apply Hrest|]).
  subst. by apply Hrest.
Qed.

(** X12. A venue that is not in the table of [getVenueCode] is lost.  For a
    name no object inherits, the code is 00, which [placeMapping] does not
    know: the id is built all the same, and [navigateToRacePage] then looks
    for a link whose name holds the text undefined in the place of the
    venue.  For a name every object inherits (constructor, toString, ...)
    the lookup finds the inherited value, its text goes into the id, and
    [parseInt] reads the year and stops: the id is the year alone, whatever
    the meeting, the day and the race are. *)
Theorem unknown_venue_is_lost (year k n r : Z) (venue : string) :
  1000 ≤ year ≤ 9999 → 0 ≤ k ≤ 99 → 0 ≤ n ≤ 99 → 0 ≤ r ≤ 99 →
  venueMap !! venue = None →
  (venue ∉ inheritedNames →
   ∃ raceId,
     raceIdOf year venue (pretty k) (pretty n) (Some r) = Some raceId
     ∧ kaisaiNameOfId raceId = kaisaiName (pretty k) "undefined" (pretty n)
     ∧ raceNumberOfId raceId = Some r)
  ∧ (venue ∈ inheritedNames →
     raceIdOf year venue (pretty k) (pretty n) (Some r) = Some year).
Proof.
  intros Hyear Hk Hn Hr Hvenue. split.
  - intros Hown.
    destruct (race_id_parts year k n r venue 0 0) as (raceId & Hid & Hname & Hnum); try done.
    { unfold getVenueCode. by rewrite Hvenue, bool_decide_eq_false_2. }
    exists raceId. split; [done|]. split; [|done]. by rewrite Hname.
  - intros Hinherited.
    destruct (pretty_year_value year Hyear)
      as (y1 & y2 & y3 & y4 & Hy1 & Hy2 & Hy3 & Hy4 & Hpy & Hvalue).
    unfold raceIdOf. rewrite Hpy.
    assert (Hcode : ∃ c rest, getVenueCode venue = String c rest ∧ digitOf 10 c = None).
    { unfold getVenueCode. rewrite Hvenue, bool_decide_eq_true_2 by done.
      unfold inheritedNames in Hinherited.
      repeat (apply elem_of_cons in Hinherited as [->|Hinherited];
              [by eexists _, _|]).
      by apply elem_of_nil in Hinherited. }
    destruct Hcode as (c & rest & -> & Hc).
    change (String c rest +:+ ?s) with (String c (rest +:+ s)).
    rewrite jsParseInt_stops; [by rewrite Hvalue|done|by repeat constructor|done].
Qed.

Lemma unknown_venue_is_lost_witness :
  (∃ raceId,
     raceIdOf 2025 "Longchamp" (pretty 1) (pretty 2) (Some 4) = Some raceId
     ∧ kaisaiNameOfId raceId = kaisaiName (pretty 1) "undefined" (pretty 2)
     ∧ raceNumberOfId raceId = Some 4)
  ∧ raceIdOf 2025 "constructor" (pretty 1) (pretty 2) (Some 4) = Some 2025.
Proof.
  split.
  - apply (unknown_venue_is_lost 2025 1 2 4 "Longchamp"); [lia..|reflexivity|].
    apply (bool_decide_unpack ("Longchamp" ∉ inheritedNames)). reflexivity.
  - apply (unknown_venue_is_lost 2025 1 2 4 "constructor"); [lia..|reflexivity|].
    apply (bool_decide_unpack ("constructor" ∈ inheritedNames)). reflexivity.
Defined.

(** the ids of race 4 and of race 11 at a venue named after an inherited
    property are the same number *)
Example inherited_venue_ids :
  raceIdOf 2025 "toString" "1" "2" (Some 4) = Some 2025
  ∧ raceIdOf 2025 "toString" "3" "8" (Some 11) = Some 2025
  ∧ raceIdOf 2025 "__proto__" "1" "2" (Some 4) = Some 2025.
Proof. by vm_compute. Qed.

(** ** A batch of quotes *)

Section UpsertBatch.
Context {K Data Row : Type} `{Countable K}.
Variable BATCH_SIZE : nat.
Variable rowKey : Row → K.
Variable dataKey : Data → K.
Variable rowRace : Row → Z.
Variable dataRace : Data → Z.
Variable rowId : Row → Z.
Variable newRow : Z → Data → Row.
Variable setRow : Data → Row → Row.
Variable insertable : Data → bool.
Variable settable : Data → bool.
Hypothesis BATCH_SIZE_pos : (0 < BATCH_SIZE)%nat.
Hypothesis insertable_settable :
  ∀ d, insertable d = true → settable d = true ∧ int8 (dataRace d) = true.
Hypothesis newRow_key : ∀ id d, rowKey (newRow id d) = dataKey d.
Hypothesis newRow_race : ∀ id d, rowRace (newRow id d) = dataRace d.
Hypothesis newRow_id : ∀ id d, rowId (newRow id d) = id.
Hypothesis setRow_key : ∀ d r, rowKey (setRow d r) = rowKey r.
Hypothesis setRow_race : ∀ d r, rowRace (setRow d r) = rowRace r.
Hypothesis setRow_id : ∀ d r, rowId (setRow d r) = rowId r.

(** one update of the batch, on one row *)
Let updateRow (r : Row) (u : Z * Data) : Row :=
  if bool_decide (u.1 = 0) then r
  else if bool_decide (rowId r = u.1) then setRow u.2 r else r.

Lemma updateAll_rows us : ∀ t,
  updateAll rowId setRow t us = (λ r, foldl updateRow r us) <$> t.
Proof.
  unfold updateAll. induction us as [|u us IH]; intros t; simpl.
  - by rewrite list_fmap_id.
  - rewrite IH. destruct (bool_decide (u.1 = 0)) eqn:Hz.
    + apply list_fmap_ext. intros i r _. f_equal. unfold updateRow. by rewrite Hz.
    + unfold updateById. rewrite <- list_fmap_compose.
      apply list_fmap_ext. intros i r _. simpl. f_equal. unfold updateRow. by rewrite Hz.
Qed.

Lemma updateRow_keeps us : ∀ r,
  rowKey (foldl updateRow r us) = rowKey r
  ∧ rowRace (foldl updateRow r us) = rowRace r
  ∧ rowId (foldl updateRow r us) = rowId r.
Proof.
  induction us as [|u us IH]; intros r; simpl; [done|].
  destruct (IH (updateRow r u)) as (-> & -> & ->). unfold updateRow.
  repeat case_bool_decide; by rewrite ?setRow_key, ?setRow_race, ?setRow_id.
Qed.

Lemma updateRow_others us : ∀ r,
  (∀ u, u ∈ us → u.1 ≠ rowId r) → foldl updateRow r us = r.
Proof.
  induction us as [|u us IH]; intros r Hus; simpl; [done|].
  assert (Hu : updateRow r u = r).
  { unfold updateRow. case_bool_decide; [done|]. case_bool_decide as Heq; [|done].
    destruct (Hus u); [by left|done]. }
  rewrite Hu. apply IH. intros u' Hu'. apply Hus. by right.
Qed.

Lemma keysOfRace_app raceId (t1 t2 : list Row) :
  keysOfRace rowKey rowRace raceId (t1 ++ t2)
  = keysOfRace rowKey rowRace raceId t1 ++ keysOfRace rowKey rowRace raceId t2.
Proof. unfold keysOfRace. by rewrite filter_app, fmap_app. Qed.

Lemma keysOfRace_updateAll raceId us t :
  keysOfRace rowKey rowRace raceId (updateAll rowId setRow t us)
  = keysOfRace rowKey rowRace raceId t.
Proof.
  rewrite updateAll_rows. unfold keysOfRace. induction t as [|r t IH]; [done|].
  rewrite fmap_cons, !filter_cons.
  destruct (updateRow_keeps us r) as (Hk & Hr & _). rewrite Hr.
  case_decide; [|done]. rewrite !fmap_cons, Hk. by f_equal.
Qed.

Lemma keysOfRace_insertValues raceId ds : ∀ t,
  keysOfRace rowKey rowRace raceId (insertValues rowId newRow ds t)
  = keysOfRace rowKey rowRace raceId t
    ++ (dataKey <$> filter (λ d, dataRace d = raceId) ds).
Proof.
  unfold insertValues. induction ds as [|d ds IH]; intros t; simpl.
  - by rewrite app_nil_r.
  - rewrite IH, keysOfRace_app, filter_cons. unfold keysOfRace at 2.
    rewrite filter_cons, filter_nil, newRow_race.
    case_decide; simpl; [by rewrite newRow_key, <- app_assoc|by rewrite app_nil_r].
Qed.

Lemma length_insertValues ds : ∀ t,
  length (insertValues rowId newRow ds t) = (length t + length ds)%nat.
Proof.
  unfold insertValues. induction ds as [|d ds IH]; intros t; simpl; [lia|].
  rewrite IH, length_app. simpl. lia.
Qed.

Lemma existingMap_None raceId table k :
  existingMap rowKey (filter (λ r, rowRace r = raceId) table) !! k = None
  ↔ k ∉ keysOfRace rowKey rowRace raceId table.
Proof.
  unfold keysOfRace. rewrite list_elem_of_fmap. split.
  - intros Hnone (r & -> & Hr).
    destruct (existingMap_lookup_elem rowKey (filter (λ r, rowRace r = raceId) table) ∅
                (rowKey r)) as [e He]; [right; by exists r|].
    unfold existingMap in Hnone. congruence.
  - intros Hnot. destruct (existingMap _ _ !! k) as [e|] eqn:He; [|done].
    apply existingMap_lookup_Some in He as [He|[Hin Hkey]]; [by rewrite lookup_empty in He|].
    destruct Hnot. by exists e.
Qed.

(** the quotes of a batch that [upsert] inserts *)
Lemma insertsOf_keys first rest table :
  insertsOf rowKey dataKey rowRace dataRace (first :: rest) table
  = filter (λ d, dataKey d ∉ keysOfRace rowKey rowRace (dataRace first) table)
           (first :: rest).
Proof. unfold insertsOf. apply list_filter_iff. intros d. apply existingMap_None. Qed.

Lemma upsert_keys_unique (raceId : Z) (batch : list Data) (table : list Row) :
  batch ≠ [] →
  Forall (λ d, dataRace d = raceId) batch →
  Forall (λ d, insertable d = true) batch →
  NoDup (dataKey <$> batch) →
  NoDup (keysOfRace rowKey rowRace raceId table) →
  ∃ table',
    upsert BATCH_SIZE rowKey dataKey rowRace dataRace rowId newRow setRow insertable settable
           batch table = Some table'
    ∧ keysOfRace rowKey rowRace raceId table'
      = keysOfRace rowKey rowRace raceId table
        ++ (dataKey <$> filter (λ d, dataKey d ∉ keysOfRace rowKey rowRace raceId table) batch)
    ∧ NoDup (keysOfRace rowKey rowRace raceId table')
    ∧ length table'
      = (length table
         + length (filter (λ d, dataKey d ∉ keysOfRace rowKey rowRace raceId table) batch))%nat
    ∧ ∀ other, other ≠ raceId →
        keysOfRace rowKey rowRace other table' = keysOfRace rowKey rowRace other table.
Proof.
  intros Hne Hrace Hfits Hbatch Htable. destruct batch as [|first rest]; [done|].
  assert (Hfirst : dataRace first = raceId) by (by apply Forall_cons in Hrace as [? _]).
  rewrite (upsert_accepted BATCH_SIZE); [|done| |].
  2: { apply insertable_settable. by apply Forall_cons in Hfits as [? _]. }
  2: { eapply Forall_impl; [exact Hfits|]. intros d Hd. simpl in Hd.
       split; [done|]. by apply insertable_settable. }
  rewrite insertsOf_keys, Hfirst. eexists. split; [done|].
  set (inserts := filter (λ d, dataKey d ∉ keysOfRace rowKey rowRace raceId table)
                         (first :: rest)).
  set (us := updatesOf rowKey dataKey rowRace dataRace rowId (first :: rest) table).
  assert (Hins : Forall (λ d, dataRace d = raceId) inserts).
  { apply Forall_forall. intros d [_ Hd]%list_elem_of_filter.
    by apply (proj1 (Forall_forall _ _) Hrace). }
  assert (Hkeys : keysOfRace rowKey rowRace raceId
                    (insertValues rowId newRow inserts (updateAll rowId setRow table us))
                  = keysOfRace rowKey rowRace raceId table ++ (dataKey <$> inserts)).
  { rewrite keysOfRace_insertValues, keysOfRace_updateAll. do 2 f_equal.
    clear -Hins. induction inserts as [|d ds IH]; [done|].
    apply Forall_cons in Hins as [Hd Hds]. rewrite filter_cons.
    rewrite decide_True by done. f_equal. by apply IH. }
  split; [done|]. split; [|split].
  - rewrite Hkeys. apply NoDup_app. split; [done|]. split.
    + intros k Hk (d & -> & [Hnew _]%list_elem_of_filter)%list_elem_of_fmap. done.
    + eapply sublist_NoDup; [exact Hbatch|]. apply fmap_sublist, sublist_filter.
  - rewrite length_insertValues, updateAll_rows, length_fmap. done.
  - intros other Hother. rewrite keysOfRace_insertValues, keysOfRace_updateAll.
    replace (filter (λ d, dataRace d = other) inserts) with (@nil Data); [by rewrite app_nil_r|].
    clear -Hins Hother. induction inserts as [|d ds IH]; [done|].
    apply Forall_cons in Hins as [Hd Hds]. rewrite filter_cons.
    rewrite decide_False by congruence. by apply IH.
Qed.

Lemma nextSerial_above (t : list Row) :
  0 < nextSerial rowId t ∧ ∀ r, r ∈ t → rowId r < nextSerial rowId t.
Proof.
  unfold nextSerial. induction t as [|r t [IH0 IH]]; simpl.
  - split; [lia|]. by intros r ?%elem_of_nil.
  - split; [lia|]. intros r' [->|Hin]%elem_of_cons; [lia|].
    specialize (IH r' Hin). lia.
Qed.

Lemma serial_ids_insertValues ds : ∀ t,
  serial_ids rowId t → serial_ids rowId (insertValues rowId newRow ds t).
Proof.
  unfold insertValues. induction ds as [|d ds IH]; intros t [Hnodup Hpos]; simpl; [done|].
  apply IH. destruct (nextSerial_above t) as [Hnext Habove]. split.
  - rewrite fmap_app. simpl. rewrite newRow_id. apply NoDup_app. split; [done|].
    split; [|apply NoDup_singleton].
    intros id (r & -> & Hr)%list_elem_of_fmap [Heq|[]%elem_of_nil]%elem_of_cons.
    specialize (Habove r Hr). lia.
  - apply Forall_app. split; [done|]. apply Forall_singleton. by rewrite newRow_id.
Qed.

Lemma serial_ids_updateAll us t :
  serial_ids rowId t → serial_ids rowId (updateAll rowId setRow t us).
Proof.
  intros [Hnodup Hpos]. rewrite updateAll_rows. split.
  - rewrite <- list_fmap_compose.
    erewrite list_fmap_ext; [exact Hnodup|]. intros i r _. simpl.
    apply (updateRow_keeps us r).
  - apply Forall_fmap. eapply Forall_impl; [exact Hpos|]. intros r Hr. simpl.
    by rewrite (proj2 (proj2 (updateRow_keeps us r))).
Qed.

Lemma elem_of_insertValues_old ds : ∀ t r,
  r ∈ t → r ∈ insertValues rowId newRow ds t.
Proof.
  unfold insertValues. induction ds as [|d ds IH]; intros t r Hr; simpl; [done|].
  apply IH, elem_of_app. by left.
Qed.

Lemma elem_of_insertValues_new ds : ∀ t d,
  d ∈ ds → ∃ id, newRow id d ∈ insertValues rowId newRow ds t.
Proof.
  induction ds as [|d' ds IH]; intros t d Hd; [by apply elem_of_nil in Hd|].
  apply elem_of_cons in Hd as [->|Hd].
  - eexists. apply (elem_of_insertValues_old ds). apply elem_of_app. right. by left.
  - by apply IH.
Qed.

(** Every quote of the batch is in the table afterwards, as the row that
    was stored under its key and now carries the columns the update sets, or
    as a new row. *)
Lemma upsert_holds_quotes (raceId : Z) (batch : list Data) (table table' : list Row) :
  Forall (λ d, dataRace d = raceId) batch →
  NoDup (dataKey <$> batch) →
  serial_ids rowId table →
  upsert BATCH_SIZE rowKey dataKey rowRace dataRace rowId newRow setRow insertable settable
         batch table = Some table' →
  serial_ids rowId table'
  ∧ ∀ d, d ∈ batch →
      ∃ r, r ∈ table' ∧ rowRace r = raceId ∧ rowKey r = dataKey d
           ∧ ((∃ e, e ∈ table ∧ rowRace e = raceId ∧ rowKey e = dataKey d
                    ∧ r = setRow d e)
              ∨ r = newRow (rowId r) d).
Proof.
  intros Hrace Hbatch Hids Hup. apply upsert_Some in Hup; [|done]. subst table'.
  destruct batch as [|first rest].
  { split; [done|]. by intros d ?%elem_of_nil. }
  assert (Hfirst : dataRace first = raceId) by (by apply Forall_cons in Hrace as [? _]).
  rewrite insertsOf_keys. unfold updatesOf. rewrite Hfirst.
  set (existing := existingMap rowKey (filter (λ r, rowRace r = raceId) table)).
  set (us := omap (λ d, (λ e, (rowId e, d)) <$> existing !! dataKey d) (first :: rest)).
  set (inserts := filter (λ d, dataKey d ∉ keysOfRace rowKey rowRace raceId table)
                         (first :: rest)).
  split; [by apply serial_ids_insertValues, serial_ids_updateAll|].
  intros d Hd.
  assert (Hdrace : dataRace d = raceId) by (by apply (proj1 (Forall_forall _ _) Hrace)).
  destruct (existing !! dataKey d) as [e|] eqn:He.
  - (* the row stored under the key is updated, by this quote only *)
    pose proof He as Hin.
    apply existingMap_lookup_Some in Hin as [Hin|[Hin Hkey]];
      [by rewrite lookup_empty in Hin|].
    apply list_elem_of_filter in Hin as [Herace Hin].
    destruct Hids as [Hnodup Hpos].
    assert (Hepos : 0 < rowId e) by (by apply (proj1 (Forall_forall _ _) Hpos)).
    apply list_elem_of_split in Hd as (pre & post & Hsplit).
    assert (Hother : ∀ l : list Data, (∀ d', d' ∈ l → dataKey d' ≠ dataKey d) →
              ∀ u : Z * Data, u ∈ omap (λ d, (λ e, (rowId e, d)) <$> existing !! dataKey d) l →
                   u.1 ≠ rowId e).
    { intros l Hl u (d' & Hd' & Hu)%list_elem_of_omap Heq.
      destruct (existing !! dataKey d') as [e'|] eqn:He'; [|done].
      injection Hu as <-. simpl in Heq.
      apply existingMap_lookup_Some in He' as [He'|[Hin' Hkey']];
        [by rewrite lookup_empty in He'|].
      apply list_elem_of_filter in Hin' as [_ Hin'].
      assert (e' = e).
      { apply list_elem_of_lookup in Hin as [i Hi]. apply list_elem_of_lookup in Hin' as [j Hj].
        assert (i = j); [|congruence].
        apply (NoDup_lookup (rowId <$> table) i j (rowId e)); [done|..].
        - by rewrite list_lookup_fmap, Hi.
        - rewrite list_lookup_fmap, Hj. simpl. by rewrite Heq. }
      subst e'. apply (Hl d' Hd'). congruence. }
    rewrite Hsplit in Hbatch. rewrite fmap_app, fmap_cons in Hbatch.
    apply NoDup_app in Hbatch as (_ & Hpre & Hpost).
    apply NoDup_cons in Hpost as [Hpost _].
    assert (Hrow : foldl updateRow e us = setRow d e).
    { unfold us. rewrite Hsplit, omap_app, foldl_app. simpl. rewrite He. simpl.
      rewrite (updateRow_others _ e).
      2: { apply Hother. intros d' Hd' Heq. apply (Hpre (dataKey d')).
           - by apply list_elem_of_fmap_2.
           - rewrite Heq. by left. }
      assert (Hupd : updateRow e (rowId e, d) = setRow d e).
      { unfold updateRow. simpl. rewrite bool_decide_eq_false_2 by lia.
        by rewrite bool_decide_eq_true_2. }
      rewrite Hupd. apply updateRow_others. rewrite setRow_id.
      apply Hother. intros d' Hd' Heq. apply Hpost. rewrite <- Heq.
      by apply list_elem_of_fmap_2. }
    exists (setRow d e). split; [|split; [|split]].
    + apply elem_of_insertValues_old. rewrite updateAll_rows, <- Hrow.
      by apply (list_elem_of_fmap_2 (λ r, foldl updateRow r us)).
    + by rewrite setRow_race.
    + by rewrite setRow_key.
    + left. by exists e.
  - (* no row under the key: the quote is inserted *)
    assert (Hnew : d ∈ inserts).
    { apply list_elem_of_filter. split; [|done]. by apply existingMap_None. }
    destruct (elem_of_insertValues_new inserts (updateAll rowId setRow table us) d Hnew)
      as [id Hid].
    exists (newRow id d). split; [done|]. rewrite newRow_race, newRow_key, newRow_id.
    split; [done|]. split; [done|]. by right.
Qed.

End UpsertBatch.

Lemma pairOk_parts d :
  pairOk d = true → timestampOk (pd_timestamp d) = true ∧ int8 (pd_raceId d) = true.
Proof. unfold pairOk. rewrite !andb_true_iff. tauto. Qed.

Lemma wideOk_parts d :
  wideOk d = true → timestampOk (wd_timestamp d) = true ∧ int8 (wd_raceId d) = true.
Proof. unfold wideOk. rewrite !andb_true_iff. tauto. Qed.

Lemma tripleOk_settable d :
  tripleOk d = true → timestampOk (td_timestamp d) = true ∧ int8 (td_raceId d) = true.
Proof. unfold tripleOk. rewrite !andb_true_iff. tauto. Qed.

(** X13. Each of the six [update*Odds] methods keeps the keys of a race
    unique: on a batch of quotes of one race with pairwise different keys
    and with values the table accepts (frames or horse numbers that are
    32-bit integers, a race id that is a 64-bit integer, a time of the
    years 1 to 9999), and a table with at most one row per key of the race,
    it returns, adds exactly one row for every key of the batch that was
    not stored and leaves the keys of the race unique and those of every
    other race as they were.  The key is the one the method itself builds:
    the pair or triple as given, the sorted triple for [updateFuku3Odds]. *)
Theorem update_methods_keep_keys_unique :
  keeps_keys_unique updateWakurenOdds pairOk pairRowKey pairDataKey pr_raceId pd_raceId
  ∧ keeps_keys_unique updateUmarenOdds pairOk pairRowKey pairDataKey pr_raceId pd_raceId
  ∧ keeps_keys_unique updateWideOdds wideOk wideRowKey wideDataKey wr_raceId wd_raceId
  ∧ keeps_keys_unique updateUmatanOdds pairOk pairRowKey pairDataKey pr_raceId pd_raceId
  ∧ keeps_keys_unique updateFuku3Odds tripleOk sortedRowKey sortedDataKey tr_raceId td_raceId
  ∧ keeps_keys_unique updateTan3Odds tripleOk tripleRowKey tripleDataKey tr_raceId td_raceId.
Proof.
  repeat split; intros raceId batch table.
  - apply (upsert_keys_unique (BATCH_SIZES wakuren));
      [apply BATCH_SIZES_pos|apply pairOk_parts|done..].
  - apply (upsert_keys_unique (BATCH_SIZES umaren));
      [apply BATCH_SIZES_pos|apply pairOk_parts|done..].
  - apply (upsert_keys_unique (BATCH_SIZES wide));
      [apply BATCH_SIZES_pos|apply wideOk_parts|done..].
  - apply (upsert_keys_unique (BATCH_SIZES umatan));
      [apply BATCH_SIZES_pos|apply pairOk_parts|done..].
  - apply (upsert_keys_unique (BATCH_SIZES fuku3));
      [apply BATCH_SIZES_pos|apply tripleOk_settable| |done..].
    intros id d. apply sortedKey3_order, sortHorses_nth.
  - apply (upsert_keys_unique (BATCH_SIZES tan3));
      [apply BATCH_SIZES_pos|apply tripleOk_settable|done..].
Qed.

Lemma update_methods_keep_keys_unique_witness :
  ∃ table',
    updateUmatanOdds exactaQuotes [] = Some table'
    ∧ keysOfRace pairRowKey pr_raceId (ri_id raceA) table'
      = keysOfRace pairRowKey pr_raceId (ri_id raceA) []
        ++ (pairDataKey <$> filter (λ d, pairDataKey d
                                         ∉ keysOfRace pairRowKey pr_raceId (ri_id raceA) [])
                                   exactaQuotes)
    ∧ NoDup (keysOfRace pairRowKey pr_raceId (ri_id raceA) table')
    ∧ length table'
      = (length (@nil PairRow)
         + length (filter (λ d, pairDataKey d
                                ∉ keysOfRace pairRowKey pr_raceId (ri_id raceA) [])
                          exactaQuotes))%nat
    ∧ ∀ other, other ≠ ri_id raceA →
        keysOfRace pairRowKey pr_raceId other table' = keysOfRace pairRowKey pr_raceId other [].
Proof.
  destruct update_methods_keep_keys_unique as (_ & _ & _ & Humatan & _).
  apply (Humatan (ri_id raceA) exactaQuotes []).
  - done.
  - by repeat constructor.
  - by repeat constructor.
  - apply (bool_decide_unpack (NoDup (pairDataKey <$> exactaQuotes))). by vm_compute.
  - constructor.
Defined.

(** a quote the table does not accept: the call throws and the table is as
    it was, also when the quote comes after one that would have been
    stored, as both go into one [INSERT] *)
Example update_rejects_wide_number :
  let good := mkPairOddsData 1 2 (num 5) 1000 2025 in
  let bad := mkPairOddsData 2147483648 1 (num 7) 1000 2025 in
  updateUmarenOddsRun [good; bad] [] = ([], Some StoreError)
  ∧ updateUmarenOdds [good; bad] [] = None
  ∧ updateUmarenOdds [good] [] = Some [mkPairRow 1 1 2 (num 5) 1000 2025].
Proof. by vm_compute. Qed.

(** from the shared shape to one method: a row that was updated or inserted
    carries the odds and the time of the quote *)
Ltac stores_quotes_of_upsert :=
  let Hup := fresh "Hup" in
  let Hrows := fresh "Hrows" in
  let Hnew := fresh "Hnew" in
  intros raceId batch table table' ? ? ? Hup;
  eapply upsert_holds_quotes in Hup as [? Hrows];
    [|first [done|apply BATCH_SIZES_pos|intros; apply sortedKey3_order, sortHorses_nth]..];
  split; [done|]; intros d Hd;
  destruct (Hrows d Hd) as (r & ? & ? & ? & [(e & _ & _ & _ & ->)|Hnew]);
    [eexists; by repeat split|];
  exists r; repeat split; try done; by rewrite Hnew.

(** X14. Each of the six [update*Odds] methods stores what it is given: after
    a call on a batch of quotes of one race with pairwise different keys,
    on a table with the ids of a serial key, every quote has a row of its
    race under its key that carries its odds and its time (a row that was
    there is updated, another is inserted), and the ids of the table are
    again those of a serial key. *)
Theorem update_methods_store_quotes :
  stores_quotes updateWakurenOdds pairRowKey pairDataKey pr_raceId pd_raceId pr_id pairStored
  ∧ stores_quotes updateUmarenOdds pairRowKey pairDataKey pr_raceId pd_raceId pr_id pairStored
  ∧ stores_quotes updateWideOdds wideRowKey wideDataKey wr_raceId wd_raceId wr_id wideStored
  ∧ stores_quotes updateUmatanOdds pairRowKey pairDataKey pr_raceId pd_raceId pr_id pairStored
  ∧ stores_quotes updateFuku3Odds sortedRowKey sortedDataKey tr_raceId td_raceId tr_id
                  tripleStored
  ∧ stores_quotes updateTan3Odds tripleRowKey tripleDataKey tr_raceId td_raceId tr_id
                  tripleStored.
Proof.
  split; [|split; [|split; [|split; [|split]]]]; stores_quotes_of_upsert.
Qed.

Lemma update_methods_store_quotes_witness :
  ∃ table',
    updateUmatanOdds exactaQuotes exactaTable = Some table'
    ∧ serial_ids pr_id table'
    ∧ ∀ d, d ∈ exactaQuotes →
        ∃ r, r ∈ table' ∧ pr_raceId r = ri_id raceA ∧ pairRowKey r = pairDataKey d
             ∧ pairStored d r.
Proof.
  destruct update_methods_store_quotes as (_ & _ & _ & Humatan & _).
  exists [mkPairRow 7 1 2 (num 5) 1000 (ri_id raceA);
          mkPairRow 8 2 1 (num 7) 1000 (ri_id raceA)].
  split; [reflexivity|].
  apply (Humatan (ri_id raceA) exactaQuotes exactaTable).
  - by repeat constructor.
  - apply (bool_decide_unpack (NoDup (pairDataKey <$> exactaQuotes))). by vm_compute.
  - split.
    + apply (bool_decide_unpack (NoDup (pr_id <$> exactaTable))). by vm_compute.
    + by repeat constructor.
  - reflexivity.
Defined.

(** ** The win/place page *)

Lemma horseData_fields horseId horseName frame isCanceled tanOdds fukuMin fukuMax now raceId :
  let o := horseData horseId horseName frame isCanceled tanOdds fukuMin fukuMax now raceId in
  prop o "horseId" = JNumber horseId ∧ prop o "number" = JNumber horseId
  ∧ prop o "horseName" = JStr horseName ∧ prop o "frame" = JNumber frame
  ∧ prop o "timestamp" = JDate now ∧ prop o "raceId" = JInt raceId.
Proof. by vm_compute. Qed.

Lemma horseData_hasOdds horseId horseName frame isCanceled tanOdds fukuMin fukuMax now raceId :
  hasOdds (horseData horseId horseName frame isCanceled tanOdds fukuMin fukuMax now raceId).
Proof. by destruct isCanceled; vm_compute. Qed.

Lemma numEq_zero frame : numEq frame (Num 0) = false → JNumber frame ≠ JNumber (Num 0).
Proof.
  intros Hne [= ->]. unfold numEq, strictEq in Hne.
  by rewrite bool_decide_eq_true_2 in Hne.
Qed.

(** what one row does to the state of the parser: nothing to the quotes, or
    one more quote for a horse number that had none *)
Lemma parseTanpukuRow_cases js raceId now st row :
  let st' := parseTanpukuRow js raceId now st row in
  (ps_oddsData st' = ps_oddsData st ∧ ps_processedHorseIds st' = ps_processedHorseIds st)
  ∨ ∃ horseNumber frame isCanceled tanOdds fukuMin fukuMax,
      tp_num row = Some horseNumber
      ∧ parseInt js horseNumber ≠ NaN
      ∧ (parseInt js horseNumber ∉ ps_processedHorseIds st)
      ∧ numEq frame (Num 0) = false
      ∧ ps_oddsData st'
        = ps_oddsData st ++ [horseData (parseInt js horseNumber) (tp_horse row) frame
                                       isCanceled tanOdds fukuMin fukuMax now raceId]
      ∧ ps_processedHorseIds st' = ps_processedHorseIds st ++ [parseInt js horseNumber].
Proof.
  unfold parseTanpukuRow.
  destruct (tp_num row) as [horseNumber|]; [|by left].
  destruct (bool_decide (horseNumber = "")); [by left|]. simpl.
  case_bool_decide as Hnan; [by left|]. simpl.
  case_bool_decide as Hseen; [by left|].
  destruct (numEq _ _) eqn:Hframe; [by left|].
  right. by eexists horseNumber, _, _, _, _, _.
Qed.

(** the quotes a state holds stay, in their places *)
Lemma parseTanpukuRows_keep js raceId now rows : ∀ st,
  (ps_oddsData st) `prefix_of` (ps_oddsData (foldl (parseTanpukuRow js raceId now) st rows)).
Proof.
  induction rows as [|row rows IH]; intros st; simpl; [done|].
  etrans; [|apply IH].
  destruct (parseTanpukuRow_cases js raceId now st row)
    as [[-> _]|(? & ? & ? & ? & ? & ? & _ & _ & _ & _ & -> & _)]; [done|].
  by apply prefix_app_r.
Qed.

Section Parser.
Variable js : JsText.
Variables raceId now : Z.
Variable rows : list TanpukuTr.

(** the invariant of the loop over the rows *)
Let inv (st : ParserState) : Prop :=
  (λ o, prop o "horseId") <$> ps_oddsData st = JNumber <$> ps_processedHorseIds st
  ∧ NoDup (ps_processedHorseIds st)
  ∧ Forall (quoteOfPage js rows raceId now) (ps_oddsData st).

Lemma parseTanpukuRow_inv st row : row ∈ rows → inv st → inv (parseTanpukuRow js raceId now st row).
Proof.
  intros Hrow (Hids & Hnodup & Hquotes). unfold inv.
  destruct (parseTanpukuRow_cases js raceId now st row)
    as [[-> ->]|(horseNumber & frame & c & tan & lo & hi
                 & Hnum & Hnan & Hnew & Hframe & -> & ->)]; [done|].
  pose proof (horseData_fields (parseInt js horseNumber) (tp_horse row) frame c tan lo hi
                now raceId) as (Hid & Hno & Hname & Hfr & Hts & Hrace).
  split; [|split].
  - rewrite !fmap_app, Hids. simpl. by rewrite Hid.
  - apply NoDup_app. split; [done|]. split; [|apply NoDup_singleton].
    intros x Hx ->%list_elem_of_singleton. done.
  - apply Forall_app. split; [done|]. constructor; [|done].
    exists row, horseNumber. rewrite Hfr. repeat split; try done.
    by apply numEq_zero.
Qed.

Lemma parseTanpukuRows_inv rows' : ∀ st,
  (∀ row, row ∈ rows' → row ∈ rows) → inv st →
  inv (foldl (parseTanpukuRow js raceId now) st rows').
Proof.
  induction rows' as [|row rows' IH]; intros st Hsub Hst; simpl; [done|].
  apply IH.
  - intros r Hr. apply Hsub. by right.
  - apply parseTanpukuRow_inv; [|done]. apply Hsub. by left.
Qed.

Lemma parseTanpukuRows_length rows' : ∀ st,
  (length (ps_oddsData (foldl (parseTanpukuRow js raceId now) st rows'))
   ≤ length (ps_oddsData st) + length rows')%nat.
Proof.
  induction rows' as [|row rows' IH]; intros st; simpl; [lia|].
  etrans; [apply IH|].
  destruct (parseTanpukuRow_cases js raceId now st row)
    as [[-> _]|(? & ? & ? & ? & ? & ? & _ & _ & _ & _ & -> & _)];
    [|rewrite length_app; simpl]; lia.
Qed.

(** a row that brings its frame is quoted, by this row or by an earlier one
    with the same horse number *)
Lemma parseTanpukuRow_quotes st row horseNumber wakuSrc digits :
  inv st →
  tp_num row = Some horseNumber → horseNumber ≠ "" → parseInt js horseNumber ≠ NaN →
  tp_wakuSrc row = Some wakuSrc → wakuMatch js wakuSrc = Some digits →
  numEq (parseInt js digits) (Num 0) = false →
  JNumber (parseInt js horseNumber)
    ∈ (λ o, prop o "horseId") <$> ps_oddsData (parseTanpukuRow js raceId now st row).
Proof.
  intros (Hids & _ & _) Hnum Hne Hnan Hsrc Hmatch Hframe. unfold parseTanpukuRow.
  rewrite Hnum, Hsrc, Hmatch, Hframe.
  rewrite (bool_decide_eq_false_2 _ Hne), (bool_decide_eq_false_2 _ Hnan). simpl.
  case_bool_decide as Hseen.
  - rewrite Hids. by apply list_elem_of_fmap_2.
  - simpl. rewrite fmap_app. apply elem_of_app. right. simpl.
    apply list_elem_of_singleton.
    by destruct (horseData_fields (parseInt js horseNumber) (tp_horse row)
                   (parseInt js digits) (tp_cancel row)
                   (if tp_cancel row then NaN else parseFloat js (tp_tan row))
                   (parseFloat js (tp_fukuMin row))
                   (parseFloat js match tp_fukuMax row with
                                  | Some text => if bool_decide (text = "")
                                                 then tp_fukuMin row else text
                                  | None => tp_fukuMin row
                                  end)
                   now raceId) as (-> & _).
Qed.

End Parser.

(** X15. [parseTanpukuOdds] quotes a horse at most once.  Whatever the page
    holds, the [horseId]s of its quotes are pairwise different, there are at
    most as many quotes as rows, and every quote comes from a row with a
    horse number that parses: that number is its [horseId] and its
    [number], the name is the one of the row, the frame is not 0, the race
    is the one passed in. *)
Theorem parseTanpukuOdds_one_quote_per_horse (js : JsText) (rows : list TanpukuTr)
    (raceId now : Z) :
  let odds := parseTanpukuOdds js rows raceId now in
  NoDup ((λ o, prop o "horseId") <$> odds)
  ∧ (length odds ≤ length rows)%nat
  ∧ Forall (quoteOfPage js rows raceId now) odds.
Proof.
  unfold parseTanpukuOdds.
  destruct (parseTanpukuRows_inv js raceId now rows rows (mkParserState [] [] (Num 0)))
    as (Hids & Hnodup & Hquotes).
  { done. }
  { split; [done|]. split; [apply NoDup_nil_2|done]. }
  split; [|split; [|done]].
  - rewrite Hids. assert (Inj (=) (=) JNumber) by (by intros ? ? [= ->]).
    by apply (NoDup_fmap_2 JNumber).
  - apply (parseTanpukuRows_length js raceId now rows (mkParserState [] [] (Num 0))).
Qed.

(** X16. [parseTanpukuOdds] leaves out no horse that brings its frame.  For
    every row of the page with a horse number that parses and a frame cell
    whose image names a frame other than 0, the result holds a quote with
    that horse number as [horseId]. *)
Theorem parseTanpukuOdds_quotes_framed_rows (js : JsText) (rows : list TanpukuTr)
    (raceId now : Z) (row : TanpukuTr) (horseNumber wakuSrc digits : string) :
  row ∈ rows →
  tp_num row = Some horseNumber → horseNumber ≠ "" → parseInt js horseNumber ≠ NaN →
  tp_wakuSrc row = Some wakuSrc → wakuMatch js wakuSrc = Some digits →
  numEq (parseInt js digits) (Num 0) = false →
  ∃ o, o ∈ parseTanpukuOdds js rows raceId now
       ∧ prop o "horseId" = JNumber (parseInt js horseNumber).
Proof.
  intros (pre & post & ->)%list_elem_of_split Hnum Hne Hnan Hsrc Hmatch Hframe.
  unfold parseTanpukuOdds. rewrite foldl_app. simpl.
  set (st := foldl (parseTanpukuRow js raceId now) (mkParserState [] [] (Num 0)) pre).
  assert (Hst : (λ o, prop o "horseId") <$> ps_oddsData st
                = JNumber <$> ps_processedHorseIds st
                ∧ NoDup (ps_processedHorseIds st)
                ∧ Forall (quoteOfPage js pre raceId now) (ps_oddsData st)).
  { apply (parseTanpukuRows_inv js raceId now pre pre); [done|].
    split; [done|]. split; [apply NoDup_nil_2|done]. }
  pose proof (parseTanpukuRow_quotes js raceId now pre st row horseNumber wakuSrc digits
                Hst Hnum Hne Hnan Hsrc Hmatch Hframe) as Hin.
  apply list_elem_of_fmap in Hin as (o & Ho & Hin).
  exists o. split; [|done].
  by apply (elem_of_prefix _ _ _ Hin), parseTanpukuRows_keep.
Qed.

Lemma parseTanpukuOdds_quotes_framed_rows_witness :
  ∃ o, o ∈ parseTanpukuOdds digitsHost framePage 2025 1000
       ∧ prop o "horseId" = JNumber (parseInt digitsHost "3").
Proof.
  apply (parseTanpukuOdds_quotes_framed_rows digitsHost framePage 2025 1000
           (mkTanpukuTr (Some "3") (Some "waku/2.png") "Horse Three" false "25" "31"
                        (Some "45"))
           "3" "waku/2.png" "2").
  - right. right. left.
  - reflexivity.
  - done.
  - done.
  - reflexivity.
  - reflexivity.
  - reflexivity.
Defined.

(** the page above: horse 4 takes the frame of the row before, the second
    row of horse 3 is dropped *)
Example parseTanpukuOdds_framePage :
  let odds := parseTanpukuOdds digitsHost framePage 2025 1000 in
  (λ o, (prop o "horseId", prop o "frame", prop o "tanOdds")) <$> odds
  = [(JInt 3, JInt 2, JInt 24); (JInt 4, JInt 2, JInt 110)].
Proof. by vm_compute. Qed.

(** ** The win history *)

Lemma toString_is_Some v : is_Some (toString v) ↔ v ≠ JUndefined.
Proof. destruct v; simpl; split; (done || by intros [? ?] || by eexists). Qed.

Lemma toString_Some v s : toString v = Some s → s = v.
Proof. destruct v; simpl; congruence. Qed.

Lemma toString_fitsNumeric v : fitsNumeric v = true → toString v = Some v.
Proof. by destruct v. Qed.

Lemma integerOf_num z : integerOf (num z) = Some z.
Proof.
  unfold integerOf, num. simpl.
  assert (Hred : Qred (inject_Z z) = inject_Z z).
  { apply Qred_identity. simpl. apply Z.gcd_1_r. }
  by rewrite Hred.
Qed.

Lemma fitsBigint_JInt z : fitsBigint (JInt z) = int8 z.
Proof. unfold fitsBigint, JInt. by rewrite integerOf_num. Qed.

Lemma int4_int8 z : int4 z = true → int8 z = true.
Proof. unfold int4, int8. rewrite !andb_true_iff, !Z.leb_le. lia. Qed.

Lemma fitsInteger_fitsBigint v : fitsInteger v = true → fitsBigint v = true.
Proof.
  destruct v as [|n| |]; try done. simpl.
  destruct (integerOf n); [apply int4_int8|done].
Qed.

(** both arrays are built exactly for the batches that hold their three
    odds *)
Lemma arrays_built oddsData :
  Forall hasOdds oddsData
  ↔ is_Some (mapM tanOddsInsertOf oddsData) ∧ is_Some (mapM fukuOddsUpsertOf oddsData).
Proof.
  rewrite !mapM_is_Some, <- Forall_and. apply Forall_proper; [|done]. intros o.
  unfold hasOdds, tanOddsInsertOf, fukuOddsUpsertOf, compose.
  rewrite <- !toString_is_Some.
  destruct (toString (prop o "tanOdds")), (toString (prop o "fukuOddsMin")),
    (toString (prop o "fukuOddsMax")); simpl; rewrite !is_Some_alt; tauto.
Qed.

(** the rows [db.insert(tanOddsHistory).values(...)] adds *)
Lemma history_inserts (inserts : list (JsVal * JsVal * JsVal * JsVal)) : ∀ history,
  ∃ new,
    insertValues th_id newTanOddsRow inserts history = history ++ new
    ∧ Forall2 (λ '(horseId, tan, ts, race) r,
                 th_horseId r = horseId ∧ th_odds r = tan
                 ∧ th_timestamp r = ts ∧ th_raceId r = race) inserts new.
Proof.
  unfold insertValues.
  induction inserts as [|[[[horseId tan] ts] race] inserts IH]; intros history; simpl.
  - exists []. by rewrite app_nil_r.
  - destruct (IH (history ++ [mkTanOddsRow (nextSerial th_id history) horseId tan ts race]))
      as (new & -> & Hnew).
    eexists (_ :: new). rewrite <- app_assoc. split; [done|]. by constructor.
Qed.

Lemma withHistory_same t : withHistory (tanOddsHistory t) t = t.
Proof. by destruct t. Qed.

(** [saveOddsHistory] throws a [TypeError] before it writes on an empty
    batch and on a batch that lacks one of its odds *)
Lemma saveOddsHistory_TypeError oddsData t :
  oddsData = [] ∨ ¬ Forall hasOdds oddsData →
  saveOddsHistory oddsData t = (t, Some TypeError).
Proof.
  intros [->|Hnot].
  - unfold saveOddsHistory. simpl. by rewrite withHistory_same.
  - unfold saveOddsHistory. cbv zeta.
    destruct (mapM tanOddsInsertOf oddsData) as [tans|] eqn:Htans; [|done].
    destruct (mapM fukuOddsUpsertOf oddsData) as [fukus|] eqn:Hfukus; [|done].
    destruct Hnot. apply arrays_built. by rewrite Htans, Hfukus.
Qed.

(** what a call that returns has written *)
Lemma saveOddsHistory_history oddsData t :
  (saveOddsHistory oddsData t).2 = None →
  ∃ new, tanOddsHistory (saveOddsHistory oddsData t).1 = tanOddsHistory t ++ new
         ∧ Forall2 historyRowOf oddsData new.
Proof.
  unfold saveOddsHistory. cbv zeta.
  destruct (mapM tanOddsInsertOf oddsData) as [tans|] eqn:Htans; [|done].
  destruct (mapM fukuOddsUpsertOf oddsData) as [fukus|] eqn:Hfukus; [|done].
  destruct (insertSlices _ _ _ _ _ _ _) as [history [error|]] eqn:Hins; [done|].
  pose proof Hins as Hacc.
  apply insertSlices_None in Hacc; [|apply BATCH_SIZES_pos|done].
  rewrite insertSlices_accepted in Hins; [|apply BATCH_SIZES_pos|done..].
  injection Hins as <-. intros _.
  destruct (history_inserts tans (tanOddsHistory t)) as (new & Hnew & Hrows).
  exists new. split.
  { rewrite <- Hnew. repeat case_match; by simpl. }
  apply mapM_Some_1 in Htans. clear -Htans Hrows.
  revert new Hrows. induction Htans as [|o u oddsData tans Hu _ IH]; intros new Hrows.
  - by apply Forall2_nil_inv_l in Hrows as ->.
  - apply Forall2_cons_inv_l in Hrows as (r & new' & Hr & Hnew' & ->).
    constructor; [|by apply IH].
    apply bind_Some in Hu as (tan & Htan%toString_Some & [= <-]).
    destruct Hr as (? & ? & ? & ?). by repeat split; subst.
Qed.

(** the two arrays of a batch with values the tables accept *)
Lemma arrays_of_storable oddsData :
  Forall storableOdds oddsData →
  mapM tanOddsInsertOf oddsData
  = Some ((λ o, (prop o "horseId", prop o "tanOdds", prop o "timestamp", prop o "raceId"))
            <$> oddsData)
  ∧ mapM fukuOddsUpsertOf oddsData
    = Some ((λ o, (prop o "horseId", prop o "fukuOddsMin", prop o "fukuOddsMax",
                   prop o "timestamp", prop o "raceId")) <$> oddsData).
Proof.
  intros Hall. split; apply mapM_Some, Forall2_fmap_r, Forall_Forall2_diag;
    (eapply Forall_impl; [exact Hall|]); intros o (_ & Htan & Hlo & Hhi & _).
  - unfold tanOddsInsertOf. by rewrite (toString_fitsNumeric _ Htan).
  - unfold fukuOddsUpsertOf.
    by rewrite (toString_fitsNumeric _ Hlo), (toString_fitsNumeric _ Hhi).
Qed.

(** [saveOddsHistory] returns on a batch that is not empty and holds values
    the tables accept *)
Lemma saveOddsHistory_returns oddsData t :
  oddsData ≠ [] → Forall storableOdds oddsData →
  (saveOddsHistory oddsData t).2 = None.
Proof.
  intros Hne Hall. unfold saveOddsHistory. cbv zeta.
  destruct (arrays_of_storable oddsData Hall) as [-> ->].
  rewrite insertSlices_accepted; [|apply BATCH_SIZES_pos|done|].
  2: { apply Forall_fmap. eapply Forall_impl; [exact Hall|].
       intros o (Hid & Htan & _ & _ & Hts & Hrace). simpl.
       by rewrite Hid, Htan, Hts, Hrace. }
  destruct oddsData as [|first rest]; [done|]. cbn [head].
  rewrite updateSlices_resolved; [|apply BATCH_SIZES_pos|done|].
  2: { apply Forall_forall. intros u (v & Hv & Hu)%list_elem_of_omap.
       destruct (existingMap _ _ !! _) as [e|]; [|done]. injection Hu as <-.
       apply list_elem_of_fmap in Hv as (o & -> & Ho).
       destruct (proj1 (Forall_forall _ _) Hall o Ho) as (_ & _ & Hlo & Hhi & Hts & _).
       unfold updateResolves. simpl. rewrite Hlo, Hhi, Hts. by rewrite orb_true_r. }
  rewrite insertSlices_accepted; [done|apply BATCH_SIZES_pos|done|].
  apply Forall_forall. intros v [_ Hv]%list_elem_of_filter.
  apply list_elem_of_fmap in Hv as (o & -> & Ho).
  destruct (proj1 (Forall_forall _ _) Hall o Ho) as (Hid & _ & Hlo & Hhi & Hts & Hrace).
  simpl. by rewrite Hid, Hlo, Hhi, Hts, Hrace.
Qed.

(** X17. [saveOddsHistory] throws a [TypeError], before it has written
    anything, on an empty batch and on a batch with a quote that lacks one
    of its three odds.  It returns on a batch that is not empty and whose
    quotes hold values the tables accept: a horse id and a race id that are
    64-bit integers, three odds that are numbers, a time of the years 1 to
    9999.  Whenever it returns it has appended to the win history one row
    per quote, in the order of the batch, with the [horseId], the win odds,
    the time and the race of the quote, after the rows that were there.
    Whether it returns or throws, the horses and the six combination tables
    are as they were. *)
Theorem saveOddsHistory_appends_history (oddsData : list (gmap string JsVal)) (t : Tables) :
  (oddsData = [] ∨ ¬ Forall hasOdds oddsData →
   saveOddsHistory oddsData t = (t, Some TypeError))
  ∧ (oddsData ≠ [] → Forall storableOdds oddsData →
     (saveOddsHistory oddsData t).2 = None)
  ∧ ((saveOddsHistory oddsData t).2 = None →
     ∃ new, tanOddsHistory (saveOddsHistory oddsData t).1 = tanOddsHistory t ++ new
            ∧ Forall2 historyRowOf oddsData new)
  ∧ horses (saveOddsHistory oddsData t).1 = horses t
  ∧ sameCombinationTables t (saveOddsHistory oddsData t).1.
Proof.
  split; [apply saveOddsHistory_TypeError|]. split; [apply saveOddsHistory_returns|].
  split; [apply saveOddsHistory_history|]. apply saveOddsHistory_frame.
Qed.

(** a batch of two quotes saved twice: four rows of history, two of the
    place table; and a batch whose second quote has a horse id that is no
    integer is rejected as a whole by the first [INSERT] *)
Example saveOddsHistory_twice :
  let odds := parseTanpukuOdds digitsHost framePage 2025 1000 in
  let t1 := (saveOddsHistory odds emptyTables).1 in
  let t2 := (saveOddsHistory odds t1).1 in
  (saveOddsHistory odds emptyTables).2 = None
  ∧ (saveOddsHistory odds t1).2 = None
  ∧ th_id <$> tanOddsHistory t2 = [1; 2; 3; 4]
  ∧ fr_id <$> fukuOdds t2 = [1; 2]
  ∧ saveOddsHistory (odds ++ [<["horseId" := JNumber NaN]> (default ∅ (head odds))])
                    emptyTables
    = (emptyTables, Some StoreError).
Proof. by vm_compute. Qed.

(** the quotes of the parser are object literals with the race and the time
    that were passed in *)
Lemma parseTanpukuOdds_horseData js rows raceId now :
  Forall (λ o, ∃ horseId horseName frame isCanceled tanOdds fukuMin fukuMax,
            o = horseData horseId horseName frame isCanceled tanOdds fukuMin fukuMax
                          now raceId)
         (parseTanpukuOdds js rows raceId now).
Proof.
  unfold parseTanpukuOdds.
  assert (Hgen : ∀ st,
            Forall (λ o, ∃ horseId horseName frame isCanceled tanOdds fukuMin fukuMax,
                      o = horseData horseId horseName frame isCanceled tanOdds fukuMin
                                    fukuMax now raceId) (ps_oddsData st) →
            Forall (λ o, ∃ horseId horseName frame isCanceled tanOdds fukuMin fukuMax,
                      o = horseData horseId horseName frame isCanceled tanOdds fukuMin
                                    fukuMax now raceId)
                   (ps_oddsData (foldl (parseTanpukuRow js raceId now) st rows))).
  { induction rows as [|row rows IH]; intros st Hst; simpl; [done|]. apply IH.
    destruct (parseTanpukuRow_cases js raceId now st row)
      as [[-> _]|(? & ? & ? & ? & ? & ? & _ & _ & _ & _ & -> & _)]; [done|].
    apply Forall_app. split; [done|]. constructor; [|done].
    by eexists _, _, _, _, _, _, _. }
  by apply Hgen.
Qed.

Lemma horseData_storableOdds horseId horseName frame isCanceled tanOdds fukuMin fukuMax
    now raceId :
  fitsBigint (JNumber horseId) = true → timestampOk now = true → int8 raceId = true →
  storableOdds (horseData horseId horseName frame isCanceled tanOdds fukuMin fukuMax
                          now raceId).
Proof.
  intros Hid Hnow Hrace.
  pose proof (horseData_fields horseId horseName frame isCanceled tanOdds fukuMin fukuMax
                now raceId) as (Ho & _ & _ & _ & Hts & Hr).
  unfold storableOdds. rewrite Ho, Hts, Hr, fitsBigint_JInt.
  repeat split; try done; by destruct isCanceled; vm_compute.
Qed.

(** X18. A page that was parsed can be stored when its values are ones the
    tables accept.  When [parseTanpukuOdds] found a quote at all, the race
    ids passed to the parser and to [handleTanpukuOdds] are 64-bit integers,
    the time of parsing is of the years 1 to 9999 and every quote has a name
    without a zero byte and a frame and a number that are 32-bit integers,
    [handleTanpukuOdds] on the result does not throw, and the win history
    has one more row per quote, in the order of the quotes.  This holds also
    for scratched horses (win odds -1) and for odds that did not parse
    ([NaN]). *)
Theorem handleTanpukuOdds_stores_parsed_page (js : JsText) (rows : list TanpukuTr)
    (raceId pageRace now : Z) (t : Tables) :
  let odds := parseTanpukuOdds js rows pageRace now in
  odds ≠ [] →
  int8 raceId = true → int8 pageRace = true → timestampOk now = true →
  Forall storableHorse odds →
  ∃ new,
    (handleTanpukuOdds raceId odds t).2 = None
    ∧ tanOddsHistory (handleTanpukuOdds raceId odds t).1 = tanOddsHistory t ++ new
    ∧ Forall2 historyRowOf odds new.
Proof.
  intros odds Hne Hrace Hpage Hnow Hhorses.
  assert (Hno : Forall (λ o, strictEq (prop o "odds") CANCELLED = false) odds).
  { eapply Forall_impl; [apply parseTanpukuOdds_isHorseData|].
    intros o Ho. simpl. by rewrite (horseData_has_no_odds o Ho). }
  assert (Hodds : Forall storableOdds odds).
  { apply Forall_forall. intros o Ho.
    destruct (proj1 (Forall_forall _ _) (parseTanpukuOdds_horseData js rows pageRace now) o Ho)
      as (horseId & horseName & frame & c & tan & lo & hi & ->).
    destruct (proj1 (Forall_forall _ _) Hhorses _ Ho) as (_ & _ & Hnumber).
    apply horseData_storableOdds; try done.
    apply fitsInteger_fitsBigint.
    by destruct (horseData_fields horseId horseName frame c tan lo hi now pageRace)
      as (_ & <- & _). }
  destruct (handleTanpukuOddsLoop_appends raceId odds (horses t) Hno)
    as (new & thrown & Hloop & _ & _ & Hok).
  specialize (Hok Hrace Hhorses). subst thrown.
  unfold handleTanpukuOdds. rewrite Hloop.
  pose proof (saveOddsHistory_returns odds (withHorses (horses t ++ new) t) Hne Hodds)
    as Hreturned.
  destruct (saveOddsHistory_history odds _ Hreturned) as (rows' & Hrows & Hall).
  exists rows'. by repeat split.
Qed.

Lemma handleTanpukuOdds_stores_parsed_page_witness :
  ∃ new,
    (handleTanpukuOdds 2025 (parseTanpukuOdds digitsHost scratchedPage 2025 1000)
       emptyTables).2 = None
    ∧ tanOddsHistory (handleTanpukuOdds 2025
                        (parseTanpukuOdds digitsHost scratchedPage 2025 1000)
                        emptyTables).1
      = tanOddsHistory emptyTables ++ new
    ∧ Forall2 historyRowOf (parseTanpukuOdds digitsHost scratchedPage 2025 1000) new.
Proof.
  apply (handleTanpukuOdds_stores_parsed_page digitsHost scratchedPage 2025 2025 1000
           emptyTables).
  - by vm_compute.
  - reflexivity.
  - reflexivity.
  - reflexivity.
  - by repeat constructor.
Defined.

(** ** The horses of a race *)

Lemma horseKey_scratch name raceId hs :
  horseKey <$> scratch name raceId hs = horseKey <$> hs
  ∧ h_id <$> scratch name raceId hs = h_id <$> hs.
Proof.
  unfold scratch. rewrite <- !list_fmap_compose.
  split; apply list_fmap_ext; intros i h _; simpl; by case_bool_decide.
Qed.

(** one quote: the keys that were there stay, no key is there twice, and
    when nothing is thrown the key of the quote is there afterwards *)
Lemma handleTanpukuOdd_keys raceId odd hs :
  NoDup (horseKey <$> hs) →
  ∃ hs' thrown,
    thrownBy (withDbRetry (handleTanpukuOdd raceId odd) hs) = (hs', thrown)
    ∧ NoDup (horseKey <$> hs')
    ∧ (horseKey <$> hs) `prefix_of` (horseKey <$> hs')
    ∧ h_id <$> take (length hs) hs' = h_id <$> hs
    ∧ (thrown = None → (prop odd "horseName", raceId) ∈ horseKey <$> hs')
    ∧ (int8 raceId = true → storableHorse odd → thrown = None).
Proof.
  intros Hnodup.
  destruct (handleTanpukuOdd_retried raceId odd hs)
    as [[-> Hnot]|[(existingHorse & Hfind & ->)|[Hfind ->]]].
  - exists hs, (Some StoreError). rewrite firstn_all. repeat split; try done.
    intros Hrace Hodd. by destruct Hnot.
  - apply findHorse_Some in Hfind.
    destruct (horseKey_scratch (prop odd "horseName") raceId hs) as [Hkeys Hids].
    destruct (_ && _).
    + eexists _, None. split; [done|]. rewrite Hkeys. repeat split; try done.
      rewrite <- (length_fmap h_id hs), <- Hids, length_fmap, firstn_all. done.
    + exists hs, None. rewrite firstn_all. by repeat split.
  - apply findHorse_None in Hfind. eexists _, None. split; [done|].
    rewrite fmap_app. simpl. split; [|split; [|split; [|split]]]; try done.
    + apply NoDup_app. split; [done|]. split; [|apply NoDup_singleton].
      intros k Hk ->%list_elem_of_singleton. done.
    + by apply prefix_app_r.
    + by rewrite take_app_length.
    + intros _. apply elem_of_app. right. by apply list_elem_of_singleton.
Qed.

Lemma handleTanpukuOddsLoop_keys raceId odds : ∀ hs,
  NoDup (horseKey <$> hs) →
  ∃ hs' thrown,
    handleTanpukuOddsLoop raceId odds hs = (hs', thrown)
    ∧ NoDup (horseKey <$> hs')
    ∧ (horseKey <$> hs) `prefix_of` (horseKey <$> hs')
    ∧ h_id <$> take (length hs) hs' = h_id <$> hs
    ∧ (thrown = None → Forall (λ o, (prop o "horseName", raceId) ∈ horseKey <$> hs') odds)
    ∧ (int8 raceId = true → Forall storableHorse odds → thrown = None).
Proof.
  induction odds as [|odd odds IH]; intros hs Hnodup.
  - exists hs, None. rewrite firstn_all. by repeat split.
  - cbn [handleTanpukuOddsLoop].
    destruct (handleTanpukuOdd_keys raceId odd hs Hnodup)
      as (hs1 & thrown1 & -> & Hnodup1 & Hpre1 & Hids1 & Hin1 & Hok1).
    destruct thrown1 as [error|].
    + exists hs1, (Some error). repeat split; try done.
      intros Hrace [Hodd _]%Forall_cons. by specialize (Hok1 Hrace Hodd).
    + destruct (IH hs1 Hnodup1) as (hs' & thrown & -> & Hnodup2 & Hpre2 & Hids2 & Hin2 & Hok2).
      exists hs', thrown. split; [done|]. split; [done|]. split; [by etrans|].
      split; [|split].
      * transitivity (h_id <$> take (length hs) hs1); [|done].
        rewrite !fmap_take, <- Hids2, fmap_take, take_take. f_equal.
        apply prefix_length in Hpre1. rewrite !length_fmap in Hpre1. lia.
      * intros Hnone. constructor; [|by apply Hin2].
        apply (elem_of_prefix _ _ _ (Hin1 eq_refl) Hpre2).
      * intros Hrace [_ Hodds]%Forall_cons. by apply Hok2.
Qed.

(** X19. [handleTanpukuOdds] registers a horse once per race.  On a table in
    which no name is stored twice for a race, after the call, whether it
    returns or throws, no name is stored twice for a race and the rows that
    were there are still there, in their places, under their ids, names and
    races.  When the race id is a 64-bit integer and every quote has a name
    (a string without a zero byte), a frame and a number (32-bit integers),
    every quote of the batch has a row with its name under the race passed
    in. *)
Theorem handleTanpukuOdds_registers_once (raceId : Z) (odds : list (gmap string JsVal))
    (t : Tables) :
  NoDup (horseKey <$> horses t) →
  let hs' := horses (handleTanpukuOdds raceId odds t).1 in
  NoDup (horseKey <$> hs')
  ∧ (horseKey <$> horses t) `prefix_of` (horseKey <$> hs')
  ∧ h_id <$> take (length (horses t)) hs' = h_id <$> horses t
  ∧ (int8 raceId = true → Forall storableHorse odds →
     Forall (λ o, (prop o "horseName", raceId) ∈ horseKey <$> hs') odds).
Proof.
  intros Hnodup hs'.
  destruct (handleTanpukuOddsLoop_keys raceId odds (horses t) Hnodup)
    as (hs1 & thrown & Hloop & Hnodup1 & Hpre & Hids & Hin & Hok).
  assert (Hhs : hs' = hs1).
  { unfold hs'. by rewrite (proj1 (handleTanpukuOdds_horses raceId odds t)), Hloop. }
  rewrite Hhs. repeat split; try done. intros Hrace Hodds. by apply Hin, Hok.
Qed.

Lemma handleTanpukuOdds_registers_once_witness :
  let odds := parseTanpukuOdds digitsHost framePage 2025 1000 in
  let hs' := horses (handleTanpukuOdds 2025 (odds ++ odds) emptyTables).1 in
  NoDup (horseKey <$> hs')
  ∧ (horseKey <$> horses emptyTables) `prefix_of` (horseKey <$> hs')
  ∧ h_id <$> take (length (horses emptyTables)) hs' = h_id <$> horses emptyTables
  ∧ Forall (λ o, (prop o "horseName", 2025) ∈ horseKey <$> hs') (odds ++ odds).
Proof.
  intros odds.
  destruct (handleTanpukuOdds_registers_once 2025 (odds ++ odds) emptyTables)
    as (Hnodup & Hprefix & Hids & Hall); [apply NoDup_nil_2|].
  split; [exact Hnodup|]. split; [exact Hprefix|]. split; [exact Hids|].
  apply Hall; [reflexivity|].
  repeat (constructor; [by vm_compute|]). constructor.
Defined.

(** the same page handed over twice: two horses *)
Example handleTanpukuOdds_same_page_twice :
  let odds := parseTanpukuOdds digitsHost framePage 2025 1000 in
  (handleTanpukuOdds 2025 (odds ++ odds) emptyTables).2 = None
  ∧ (λ h, (h_id h, h_name h)) <$> horses (handleTanpukuOdds 2025 (odds ++ odds) emptyTables).1
    = [(1, JStr "Horse Three"); (2, JStr "Horse Four")].
Proof. by vm_compute. Qed.

(** ** Periodic collection *)

Lemma saveOddsHistory_triples (o : list TripleOddsData) (t : Tables) :
  (saveOddsHistory (tripleObject <$> o) t).1 = t.
Proof.
  rewrite saveOddsHistory_TypeError; [done|].
  destruct o as [|d o]; [by left|]. right.
  intros [(Htan & _) _]%Forall_cons. by vm_compute in Htan.
Qed.

(** X20. The loop of [startPeriodicCollection] stores no trio and no trifecta
    quote: both bet types fall into the [else] branch, [saveOddsHistory]
    throws on their quotes, which have no win odds, and the error is caught,
    so the tables are as they were.  A batch of win/place quotes goes the
    same way and is saved without [handleTanpukuOdds]: the horses are as
    they were. *)
Theorem periodic_collection_stores_no_triples :
  (∀ oddsData t, periodicTurn fuku3 oddsData t = t)
  ∧ (∀ oddsData t, periodicTurn tan3 oddsData t = t)
  ∧ (∀ oddsData t, horses (periodicTurn tanpuku oddsData t) = horses t).
Proof.
  repeat split; intros oddsData t; unfold periodicTurn; destruct (_ <? _)%nat; try done; simpl.
  - apply saveOddsHistory_triples.
  - apply saveOddsHistory_triples.
  - apply saveOddsHistory_frame.
Qed.

(** a trio quote through both ways: [collectOdds] stores it, the periodic
    loop does not *)
Example trio_quote_both_ways :
  let quote := mkTripleOddsData 1 2 3 (num 9) 1000 2025 in
  fuku3Odds (handleOtherOdds fuku3 (QTriple [quote]) emptyTables).1
    = [mkTripleRow 1 1 2 3 (num 9) 1000 2025]
  ∧ fuku3Odds (periodicTurn fuku3 [quote] emptyTables) = [].
Proof. by vm_compute. Qed.

(** a batch with a pair the table does not accept, under [withDbRetry]: the
    call throws after three attempts and the table is as it was *)
Example handleOtherOdds_rejected :
  let good := mkPairOddsData 1 2 (num 5) 1000 2025 in
  let bad := mkPairOddsData 2147483648 1 (num 7) 1000 2025 in
  handleOtherOdds umaren (QPair [good; bad]) emptyTables = (emptyTables, Some StoreError)
  ∧ handleOtherOdds umaren (QPair []) emptyTables = (emptyTables, Some TypeError).
Proof. by vm_compute. Qed.

(** ** A race that is done *)

Lemma quiet_refl id s : quiet id s s.
Proof. exists []. by rewrite app_nil_r. Qed.

Lemma quiet_trans id s1 s2 s3 : quiet id s1 s2 → quiet id s2 s3 → quiet id s1 s3.
Proof.
  intros (evs1 & H1 & Hq1) (evs2 & H2 & Hq2). exists (evs1 ++ evs2).
  rewrite H2, H1, app_assoc. split; [done|]. by apply Forall_app.
Qed.

Lemma quiet_logEvent id e s : notCollecting id e → quiet id s (logEvent e s).
Proof. intros He. exists [e]. split; [done|]. by constructor. Qed.

Lemma quiet_same_trace id s s' : st_trace s' = st_trace s → quiet id s s'.
Proof. intros Ht. exists []. by rewrite app_nil_r. Qed.

Lemma releaseIn_quiet id v s : quiet id s (releaseIn v s).
Proof.
  destruct v; simpl; [apply quiet_refl|]. unfold releaseSemaphore.
  destruct (release (st_sem s)) as [m [raceId|]]; [|by apply quiet_same_trace].
  apply (quiet_trans _ _ (setSem m s)); [by apply quiet_same_trace|].
  by apply quiet_logEvent.
Qed.

Lemma saveQuotes_quiet id w raceId betType odds s s' r :
  id ≠ raceId → saveQuotes w raceId betType odds s = (s', r) → quiet id s s'.
Proof.
  intros Hid. unfold saveQuotes. destruct (storeFault w (st_saves s)) as [e|].
  - intros [= <- <-]. by apply quiet_same_trace.
  - destruct (match betType, odds with
              | tanpuku, QTanpuku o => handleTanpukuOdds raceId o (st_tables (countSave s))
              | tanpuku, _ => (st_tables (countSave s), Some TypeError)
              | _, _ => handleOtherOdds betType odds (st_tables (countSave s))
              end) as [t [e|]]; intros [= <- <-].
    + by apply quiet_same_trace.
    + exists [EvSaved raceId betType]. split; [done|]. constructor; [|done].
      intros bt. split; [done|]. intros [= ? ?]. by subst.
Qed.

(** the requests of a retry loop are requests for its own race *)
Lemma retryLoop_quiet id fuel w raceId betType : id ≠ raceId →
  ∀ retryCount s s',
    retryLoop fuel w raceId betType retryCount s = Finished s' → quiet id s s'.
Proof.
  intros Hid. induction fuel as [|fuel IH]; intros retryCount s s'; [done|]. simpl.
  destruct (negb (retryCount <? MAX_RETRIES)); [intros [= <-]; apply quiet_refl|].
  assert (Hreq : quiet id s (logEvent (EvScrape raceId betType) (countRequest s))).
  { exists [EvScrape raceId betType]. split; [done|]. constructor; [|done].
    intros bt. split; [|done]. intros [= ? ?]. by subst. }
  set (s1 := logEvent (EvScrape raceId betType) (countRequest s)) in *.
  assert (Hdelay : ∀ s2, quiet id s2 (logEvent EvRetryDelay s2)).
  { intros s2. by apply quiet_logEvent. }
  destruct (scrape w raceId betType (st_requests s)) as [odds|error].
  - destruct (0 <? quotesLength odds)%nat.
    + destruct (saveQuotes w raceId betType odds s1) as [s2 r] eqn:Hsave.
      apply (saveQuotes_quiet id) in Hsave; [|done].
      pose proof (quiet_trans _ _ _ _ Hreq Hsave) as H12.
      destruct r as [error|]; [|by intros [= <-]].
      destruct (isTimeoutError error); [by intros [= <-]|].
      case_bool_decide; [by intros [= <-]|].
      intros Hrun%IH. eapply quiet_trans; [exact H12|]. by eapply quiet_trans.
    + intros Hrun%IH. by eapply quiet_trans.
  - destruct (MAX_RETRIES <=? retryCount + 1); [by intros [= <-]|].
    intros Hrun%IH. eapply quiet_trans; [exact Hreq|]. by eapply quiet_trans.
Qed.

Lemma collectionPass_quiet id fuel w raceId : id ≠ raceId →
  ∀ types s s', collectionPass fuel w raceId types s = Finished s' → quiet id s s'.
Proof.
  intros Hid. induction types as [|betType rest IH]; intros s s'; simpl.
  - intros [= <-]. apply quiet_refl.
  - unfold collectionPass. fold collectionPass.
    intros Hrun. apply andThen_finished in Hrun as (s1 & Hloop & Hrest).
    apply (retryLoop_quiet id) in Hloop; [|done]. apply IH in Hrest.
    by eapply quiet_trans.
Qed.

Lemma setStatus_done race : race_status race = "done" → setStatus "done" race = race.
Proof. destruct race. simpl. by intros ->. Qed.

Lemma alter_done_race (m : gmap Z Race) raceId id race :
  m !! id = Some race → race_status race = "done" →
  alter (setStatus "done") raceId m !! id = Some race.
Proof.
  intros Hrace Hdone. rewrite lookup_alter. case_decide; [subst|done].
  rewrite Hrace. simpl. by rewrite setStatus_done.
Qed.

Lemma markDone_done raceId id race s :
  st_races s !! id = Some race → race_status race = "done" →
  leftAlone id race s (markDone raceId s).
Proof.
  intros Hrace Hdone. split; [done|]. split.
  - simpl. by apply alter_done_race.
  - unfold markDone. apply (quiet_trans _ _ (setRaces (alter (setStatus "done") raceId
                                                        (st_races s)) s)).
    + by apply quiet_same_trace.
    + by apply quiet_logEvent.
Qed.

(** [collectOdds], for whatever race, leaves a race that is done alone *)
Lemma collectOdds_done v fuel w raceId now id race s s' :
  st_races s !! id = Some race → race_status race = "done" →
  collectOdds v fuel w raceId now s = Finished s' →
  leftAlone id race s s'.
Proof.
  intros Hrace Hdone Hrun. split; [done|]. split.
  { apply collectOdds_races in Hrun as [-> | ->]; [done|]. by apply alter_done_race. }
  assert (Hheld : ∀ s0, st_races s0 = st_races s → st_trace s0 = st_trace s →
            collectOddsHeld v fuel w raceId now s0 = Finished s' → quiet id s s').
  { intros s0 Hs0 Ht0. unfold collectOddsHeld. intros Hheld.
    apply andThen_finished in Hheld as (s1 & Htry & [= <-]).
    eapply quiet_trans; [|apply releaseIn_quiet].
    apply (quiet_trans _ _ s0); [by apply quiet_same_trace|].
    revert Htry. unfold collectOddsTry.
    assert (Hlook : quiet id s0 (logEvent (EvLookup raceId) s0)) by (by apply quiet_logEvent).
    set (s00 := logEvent (EvLookup raceId) s0) in *.
    assert (Hraces : st_races s00 = st_races s) by done.
    rewrite Hraces.
    destruct (decide (raceId = id)) as [->|Hne].
    - rewrite Hrace, bool_decide_eq_true_2 by done. intros [= <-].
      eapply quiet_trans; [exact Hlook|apply releaseIn_quiet].
    - assert (Hpass : ∀ s2, collectionPass fuel w raceId betTypes s00 = Finished s2 →
                            quiet id s0 s2).
      { intros s2 Hp. apply (collectionPass_quiet id) in Hp; [|done].
        by eapply quiet_trans. }
      destruct (st_races s !! raceId) as [current|].
      2: { intros [= <-]. eapply quiet_trans; [exact Hlook|apply releaseIn_quiet]. }
      case_bool_decide.
      { intros [= <-]. eapply quiet_trans; [exact Hlook|apply releaseIn_quiet]. }
      destruct (_ && _); [|by apply Hpass].
      intros Hdonepass. apply andThen_finished in Hdonepass as (s2 & Hp & [= <-]).
      eapply quiet_trans; [by apply Hpass|].
      eapply quiet_trans; [|apply releaseIn_quiet].
      unfold markDone. apply (quiet_trans _ _ (setRaces (alter (setStatus "done") raceId
                                                          (st_races s2)) s2)).
      + by apply quiet_same_trace.
      + by apply quiet_logEvent. }
  revert Hrun. unfold collectOdds. destruct v; [by apply Hheld|].
  destruct (acquire raceId (st_sem s)) as [m [|]]; [|done].
  by apply Hheld.
Qed.

Lemma leftAlone_trans id race s1 s2 s3 :
  leftAlone id race s1 s2 → leftAlone id race s2 s3 → leftAlone id race s1 s3.
Proof.
  intros (H1 & H2 & Hq1) (_ & H3 & Hq2). split; [done|]. split; [done|].
  by eapply quiet_trans.
Qed.

Lemma leftAlone_frame id race s s' :
  st_races s !! id = Some race → st_races s' = st_races s → st_trace s' = st_trace s →
  leftAlone id race s s'.
Proof.
  intros Hrace Hraces Ht. split; [done|]. split; [by rewrite Hraces|].
  by apply quiet_same_trace.
Qed.

Lemma scheduleOddsCollection_done v tz fuel w info now id race s s' :
  st_races s !! id = Some race → race_status race = "done" →
  scheduleOddsCollection v tz fuel w info now s = Finished s' →
  leftAlone id race s s'.
Proof.
  intros Hrace Hdone. unfold scheduleOddsCollection.
  set (s1 := setJobs _ (setJobs _ s)).
  assert (H1 : leftAlone id race s s1) by (by apply leftAlone_frame).
  destruct (collectsAtOnce _ _ _); [|by intros [= <-]].
  intros Hrun. apply (collectOdds_done _ _ _ _ _ id race) in Hrun; [|done..].
  exact (leftAlone_trans _ _ _ _ _ H1 Hrun).
Qed.

Lemma fire_done v tz fuel w raceId now id race s s' :
  st_races s !! id = Some race → race_status race = "done" →
  fire v tz fuel w raceId now s = Finished s' →
  leftAlone id race s s'.
Proof.
  intros Hrace Hdone. unfold fire.
  assert (Hsame : leftAlone id race s s) by (by apply leftAlone_frame).
  destruct (st_jobs s !! raceId) as [job|]; [|by intros [= <-]].
  destruct (job_cancelled job); [by intros [= <-]|].
  destruct (beforeGate _ _ _); [by intros [= <-]|].
  destruct (_ <? _).
  - destruct (shouldCollect _ _ _); [|by intros [= <-]].
    by apply collectOdds_done.
  - set (s1 := setJobs _ s).
    assert (H1 : leftAlone id race s s1) by (by apply leftAlone_frame).
    destruct (st_races s1 !! ri_id (job_race job)) as [current|]; [|by intros [= <-]].
    case_bool_decide; intros [= <-]; [|done].
    eapply leftAlone_trans; [exact H1|]. by apply markDone_done.
Qed.

Lemma getTodayGradeRaces_done rows id race : ∀ s,
  st_races s !! id = Some race → race_status race = "done" →
  leftAlone id race s (getTodayGradeRaces rows s).1.
Proof.
  unfold getTodayGradeRaces.
  assert (Hgen : ∀ s0 s acc, leftAlone id race s0 s → race_status race = "done" →
            leftAlone id race s0
              (foldl (λ '(s, raceInfos) row,
                        if rl_isGrade row then
                          if rl_started row then (markDone (ri_id (rl_info row)) s, raceInfos)
                          else (s, raceInfos ++ [rl_info row])
                        else (s, raceInfos)) (s, acc) rows).1).
  { induction rows as [|row rows IH]; intros s0 s acc Hs Hdone; simpl; [done|].
    destruct (rl_isGrade row); [destruct (rl_started row)|]; apply IH; try done.
    eapply leftAlone_trans; [exact Hs|]. apply markDone_done; [|done].
    by destruct Hs as (_ & ? & _). }
  intros s Hrace Hdone. apply Hgen; [|done]. by apply leftAlone_frame.
Qed.

Lemma restoreLoop_done v tz fuel w now id race : ∀ rs s s',
  st_races s !! id = Some race → race_status race = "done" →
  restoreLoop v tz fuel w now rs s = Finished s' →
  leftAlone id race s s'.
Proof.
  induction rs as [|[id' race'] rs IH]; intros s s' Hrace Hdone; simpl.
  - intros [= <-]. by apply leftAlone_frame.
  - case_bool_decide; [by apply IH|].
    intros Hrun. apply andThen_finished in Hrun as (s1 & Hsched & Hrest).
    apply (scheduleOddsCollection_done _ _ _ _ _ _ id race) in Hsched; [|done..].
    eapply leftAlone_trans; [exact Hsched|]. apply IH; [|done..].
    by destruct Hsched as (_ & ? & _).
Qed.

Lemma runOp_done v tz fuel w op id race s s' :
  st_races s !! id = Some race → race_status race = "done" →
  runOp v tz fuel w op s = Finished s' →
  leftAlone id race s s'.
Proof.
  intros Hrace Hdone. destruct op as [rows|info|info now|raceId now|raceId now|now]; simpl.
  - intros [= <-]. by apply getTodayGradeRaces_done.
  - intros [= <-]. unfold registerRace.
    destruct (st_races s !! ri_id info) as [existing|] eqn:Hinfo; [by apply leftAlone_frame|].
    split; [done|]. split; [|by apply quiet_same_trace].
    simpl. rewrite lookup_insert_ne; [done|]. intros Heq. by rewrite Heq, Hrace in Hinfo.
  - by apply scheduleOddsCollection_done.
  - by apply fire_done.
  - by apply collectOdds_done.
  - unfold checkAndRestoreRaceJobs.
    set (s0 := match v with Daily => checkAndRestoreJobs s | Supervisor => s end).
    assert (H0 : leftAlone id race s s0).
    { unfold s0. destruct v; by apply leftAlone_frame. }
    intros Hrun. eapply leftAlone_trans; [exact H0|].
    apply (restoreLoop_done _ _ _ _ _ _ _ _ _ _ (proj1 (proj2 H0)) Hdone Hrun).
Qed.

(** X21. Done is final.  Once a race is stored as done, no run of discovery,
    registration, scheduling, timer firings, direct collections and job
    restorations, in any order and at any times, changes its row or
    collects for it again: the row stays as it is, and no request for its
    odds is made and no batch is saved for it. *)
Theorem done_race_is_left_alone v tz fuel w ops id race : ∀ s s',
  st_races s !! id = Some race → race_status race = "done" →
  runOps v tz fuel w ops s = Finished s' →
  leftAlone id race s s'.
Proof.
  induction ops as [|op ops IH]; intros s s' Hrace Hdone; simpl.
  - intros [= <-]. by apply leftAlone_frame.
  - intros Hrun. apply andThen_finished in Hrun as (s1 & Hop & Hrest).
    apply (runOp_done _ _ _ _ _ id race) in Hop; [|done..].
    eapply leftAlone_trans; [exact Hop|]. apply IH; [|done..].
    by destruct Hop as (_ & ? & _).
Qed.

(** Race A, done since its terminal pass at 15:41 JST: a firing, a direct
    collection, a new registration with scheduling and a restoration later
    on. *)
Lemma done_race_is_left_alone_witness :
  let ops := [OpFire (ri_id raceA) 1748760120000; OpCollect (ri_id raceA) 1748760180000;
              OpRegister raceA; OpSchedule raceA 1748760240000; OpRestore 1748760300000] in
  leftAlone (ri_id raceA) (setStatus "done" (mkRace "Tokyo Yushun" "Tokyo" 1748760000000 "upcoming"))
            stateA_collected
            (stateOf (runOps Daily 0 3 steadySite ops stateA_collected)).
Proof.
  intros ops.
  apply (done_race_is_left_alone Daily 0 3%nat steadySite ops (ri_id raceA)
           (setStatus "done" (mkRace "Tokyo Yushun" "Tokyo" 1748760000000 "upcoming"))
           stateA_collected
           (stateOf (runOps Daily 0 3 steadySite ops stateA_collected))).
  - reflexivity.
  - reflexivity.
  - reflexivity.
Defined.
